(** * Receipt analyser: field extraction, categorisation and reporting

    A shallow embedding of the Python package [analisador_fiscal_ocr]
    ([ocr_aws.py], [categorizador.py], [main.py]) together with the
    properties its specification states about it.

    Conventions of the embedding.

    - A Python [str] is a list of Unicode code points ([list N]).  The
      tables of the Python runtime (character classes, case mappings)
      are written out for Basic Latin and Latin-1 Supplement, the
      repertoire of the receipts and of the keyword table.  Above
      U+00FF the Unicode character database is a parameter ([Unicode]):
      the properties hold whatever it says, given the few facts about
      it that are listed with it.
    - A Python [float] that is a number is the rational it stands for,
      so that floats are compared exactly.  An amount read from a text
      is kept as the decimal it was read from: every amount the
      patterns can capture has at most eight digits, two of them
      fractional ([ValorTheory.normalizar_token]), a range in which
      reading, comparing and printing with two decimals are exact.  The
      arithmetic of the reports rounds: the rounding and the builtin
      [sum] are a parameter ([Float]); the examples are evaluated in
      binary64.
    - [re] is embedded by a small backtracking matcher with Python's
      priorities (ordered alternation, greedy repetition, leftmost
      match, non-overlapping [findall]).
    - A call that can raise returns a sum: [inl] is the exception that
      leaves the call, [inr] the value returned. *)

From Stdlib Require Import List ZArith NArith QArith Qround Qabs Bool String Ascii Lia.
From Stdlib Require Import DecimalString Permutation Sorted.
Import ListNotations.
Close Scope Q_scope.

Set Warnings "-register-all".

(* ================================================================== *)
(** ** Python strings *)

Module Py.

Definition char := N.
Definition str := list char.

(** Decoding of the UTF-8 bytes of a literal of this file into code points. *)
Fixpoint utf8_decode (bs : list N) : str :=
  match bs with
  | [] => []
  | b :: tl =>
      if (b <? 192)%N then b :: utf8_decode tl
      else if (b <? 224)%N then
        match tl with
        | c1 :: tl1 => ((b - 192) * 64 + (c1 - 128))%N :: utf8_decode tl1
        | [] => [b]
        end
      else if (b <? 240)%N then
        match tl with
        | c1 :: c2 :: tl2 =>
            ((b - 224) * 4096 + (c1 - 128) * 64 + (c2 - 128))%N :: utf8_decode tl2
        | _ => [b]
        end
      else
        match tl with
        | c1 :: c2 :: c3 :: tl3 =>
            ((b - 240) * 262144 + (c1 - 128) * 4096 + (c2 - 128) * 64 + (c3 - 128))%N
              :: utf8_decode tl3
        | _ => [b]
        end
  end.

(** [u "..."] is the Python string written between the quotes. *)
Definition u (s : string) : str :=
  utf8_decode (map N_of_ascii (list_ascii_of_string s)).
Arguments u s%_string.

Definition between (lo hi c : N) : bool := ((lo <=? c) && (c <=? hi))%N.

(** *** The character tables, Latin-1 *)

(** The tables of the Python runtime are written out for the code
    points up to U+00FF. *)
Definition isdecimal_latin1 (c : char) : bool := between 48 57 c.

Definition isspace_latin1 (c : char) : bool :=
  between 9 13 c || between 28 32 c || (c =? 133)%N || (c =? 160)%N.

Definition isupper_ascii (c : char) : bool := between 65 90 c.
Definition islower_ascii (c : char) : bool := between 97 122 c.

Definition isalnum_latin1 (c : char) : bool :=
  isdecimal_latin1 c || isupper_ascii c || islower_ascii c
  || (c =? 170)%N || (c =? 178)%N || (c =? 179)%N || (c =? 181)%N
  || (c =? 185)%N || (c =? 186)%N || between 188 190 c
  || between 192 214 c || between 216 246 c || between 248 255 c.

(** Lower case of a Latin-1 character: one Latin-1 character. *)
Definition lower_latin1 (c : char) : char :=
  if isupper_ascii c then (c + 32)%N
  else if between 192 222 c && negb (c =? 215)%N then (c + 32)%N
  else c.

(** Upper case of a Latin-1 character ([str.upper] maps one character
    to one or more). *)
Definition upper_latin1 (c : char) : str :=
  if islower_ascii c then [(c - 32)%N]
  else if (c =? 181)%N then [924%N]
  else if (c =? 223)%N then [83%N; 83%N]
  else if (c =? 255)%N then [376%N]
  else if between 224 254 c && negb (c =? 247)%N then [(c - 32)%N]
  else [c].

(** *** The character tables, above Latin-1 *)

(** What the Unicode character database says of the code points above
    U+00FF is not written out: it is a parameter, of which only these
    facts are used.  A decimal digit (category Nd) has a value below 10,
    is alphanumeric and is not white space.  Under [re.IGNORECASE] a
    Latin-1 literal matches a character above Latin-1 only if it is one
    of i, k, s, the micro sign, sharp s, a with ring and y with
    diaeresis, in either case (dotless and dotted I, the Kelvin sign,
    long s, Greek mu, capital sharp s, the Angstrom sign, capital Y with
    diaeresis).  Lower-casing gives characters that lower-casing leaves
    alone, the capital sigma (U+03A3) apart, which becomes one of the
    two small sigmas (U+03C2 at the end of a word, U+03C3 elsewhere). *)
Class Unicode := {
  ucd_isdecimal : char -> bool;          (* str.isdecimal, \d *)
  ucd_decimal : char -> N;               (* the digit's value *)
  ucd_isspace : char -> bool;            (* str.isspace, \s *)
  ucd_isalnum : char -> bool;            (* str.isalnum; \w adds '_' *)
  ucd_lower : char -> str;               (* str.lower of one character *)
  ucd_upper : char -> str;               (* str.upper of one character *)
  ucd_final_sigma : str -> str -> bool;  (* is a sigma final, between what
                                            stands before (last first) and after *)
  ucd_ignorecase : char -> char -> bool; (* a literal against a character *)
  ucd_decimal_digit :
    forall c, ucd_isdecimal c = true -> (ucd_decimal c < 10)%N;
  ucd_decimal_alnum :
    forall c, ucd_isdecimal c = true -> ucd_isalnum c = true;
  ucd_decimal_not_space :
    forall c, ucd_isdecimal c = true -> ucd_isspace c = false;
  ucd_ignorecase_latin1 :
    forall a x, (a <= 255)%N -> (255 < x)%N -> ucd_ignorecase a x = true ->
      In (lower_latin1 a) [105; 107; 115; 181; 223; 229; 255]%N;
  ucd_lower_stable :
    forall c y, (255 < c)%N -> c <> 931%N -> In y (ucd_lower c) ->
      y <> 931%N
      /\ (if (y <=? 255)%N then lower_latin1 y = y else ucd_lower y = [y]);
  ucd_lower_sigma :
    ucd_lower 962%N = [962%N] /\ ucd_lower 963%N = [963%N]
}.

Section Tabelas.
Context {U : Unicode}.

(** [str.isdecimal] of one character, the class [\d] of [re]. *)
Definition isdecimal (c : char) : bool :=
  if (c <=? 255)%N then isdecimal_latin1 c else ucd_isdecimal c.

(** The value of a decimal digit, as [float] and [int] read it. *)
Definition decimal (c : char) : N :=
  if (c <=? 255)%N then (c - 48)%N else ucd_decimal c.

(** [str.isspace] of one character, the class [\s] of [re]. *)
Definition isspace (c : char) : bool :=
  if (c <=? 255)%N then isspace_latin1 c else ucd_isspace c.

(** [str.isalnum] of one character; with ['_'] it is the class [\w]. *)
Definition isalnum (c : char) : bool :=
  if (c <=? 255)%N then isalnum_latin1 c else ucd_isalnum c.

(** What [str.lower] makes of one character, the capital sigma apart. *)
Definition lower_char (c : char) : str :=
  if (c <=? 255)%N then [lower_latin1 c] else ucd_lower c.

(** What [str.upper] makes of one character. *)
Definition upper_char (c : char) : str :=
  if (c <=? 255)%N then upper_latin1 c else ucd_upper c.

(** Does the literal [a] of a pattern compiled with [re.IGNORECASE]
    match the character [x]? *)
Definition ignorecase_eq (a x : char) : bool :=
  if ((a <=? 255) && (x <=? 255))%N then (lower_latin1 x =? lower_latin1 a)%N
  else ucd_ignorecase a x.

(** [s.lower()], [antes] being what stands before [s] (last character
    first): character by character, but for the capital sigma, whose
    image depends on what surrounds it. *)
Fixpoint lower_desde (antes s : str) : str :=
  match s with
  | [] => []
  | c :: s' =>
      (if (c =? 931)%N
       then [if ucd_final_sigma antes s' then 962%N else 963%N]
       else lower_char c)
      ++ lower_desde (c :: antes) s'
  end.

Definition lower (s : str) : str := lower_desde [] s.
Definition upper (s : str) : str := flat_map upper_char s.

End Tabelas.

Fixpoint str_eqb (a b : str) : bool :=
  match a, b with
  | [], [] => true
  | x :: a', y :: b' => (x =? y)%N && str_eqb a' b'
  | _, _ => false
  end.

(** [s.startswith(p)]. *)
Fixpoint startswith (p s : str) : bool :=
  match p, s with
  | [], _ => true
  | x :: p', y :: s' => (x =? y)%N && startswith p' s'
  | _ :: _, [] => false
  end.

(** [s.endswith(p)]. *)
Definition endswith (p s : str) : bool := startswith (rev p) (rev s).

(** [p in s]. *)
Fixpoint contains (p s : str) : bool :=
  startswith p s ||
  match s with
  | [] => false
  | _ :: s' => contains p s'
  end.

(** [s.replace(old, new)] for a one-character [old]. *)
Definition replace (old : char) (new : str) (s : str) : str :=
  flat_map (fun c => if (c =? old)%N then new else [c]) s.

Section Espacos.
Context {U : Unicode}.

Fixpoint lstrip (s : str) : str :=
  match s with
  | c :: s' => if isspace c then lstrip s' else s
  | [] => []
  end.

(** [s.strip()]. *)
Definition strip (s : str) : str := rev (lstrip (rev (lstrip s))).

End Espacos.

(** [s.split(sep)] for a one-character separator: never empty. *)
Fixpoint split (sep : char) (s : str) : list str :=
  match s with
  | [] => [[]]
  | c :: s' =>
      if (c =? sep)%N then [] :: split sep s'
      else match split sep s' with
           | w :: ws => (c :: w) :: ws
           | [] => [[c]]
           end
  end.

(** Decimal digits of a natural number. *)
Definition digits_of_N (n : N) : str :=
  map N_of_ascii (list_ascii_of_string (NilZero.string_of_uint (N.to_uint n))).

(** [sep.join(parts)] *)
Fixpoint join (sep : str) (parts : list str) : str :=
  match parts with
  | [] => []
  | [p] => p
  | p :: ps => p ++ sep ++ join sep ps
  end.

(** The database that knows Latin-1 only: above it, every character is
    an unknown symbol that nothing matches but itself.  The examples,
    whose texts are in Latin-1, are evaluated with it. *)
#[global] Instance latin1 : Unicode := {|
  ucd_isdecimal := fun _ => false;
  ucd_decimal := fun _ => 0%N;
  ucd_isspace := fun _ => false;
  ucd_isalnum := fun _ => false;
  ucd_lower := fun c => [c];
  ucd_upper := fun c => [c];
  ucd_final_sigma := fun _ _ => false;
  ucd_ignorecase := fun _ _ => false;
  ucd_decimal_digit := fun c H => ltac:(discriminate H);
  ucd_decimal_alnum := fun c H => ltac:(discriminate H);
  ucd_decimal_not_space := fun c H => eq_refl;
  ucd_ignorecase_latin1 := fun a x Ha Hx H => ltac:(discriminate H);
  ucd_lower_stable := fun c y Hc Hs Hy =>
    ltac:(destruct Hy as [<-|[]]; split; [exact Hs|];
          destruct (N.leb_spec c 255); [lia|reflexivity]);
  ucd_lower_sigma := conj eq_refl eq_refl
|}.

(** *** Floats *)

(** A float is the rational number it stands for, and floats are
    compared exactly.  An arithmetic operation gives the float nearest
    to its exact result: this rounding is a parameter, and so is the
    builtin [sum] over floats (left to right up to Python 3.11, with
    compensation since).  Infinities and NaN are not represented. *)
Class Float := {
  arred : Q -> Q;        (* the float nearest to an exact result *)
  fsum : list Q -> Q     (* sum(...) over floats *)
}.

Section Floats.
Context {Fl : Float}.

(** [x + y], [x * y] on floats. *)
Definition fadd (x y : Q) : Q := arred (x + y)%Q.
Definition fmul (x y : Q) : Q := arred (x * y)%Q.

(** [x / y] on floats, for [y] other than zero. *)
Definition fdiv (x y : Q) : Q := arred (x / y)%Q.

(** The float a decimal literal, or [float] of a decimal string, denotes. *)
Definition float_of_decimal (q : Q) : Q := arred q.

End Floats.

(** [int(x)] of a float: truncation towards zero. *)
Definition int_of_float (x : Q) : Z := Z.quot (Qnum x) (Z.pos (Qden x)).

(** [x > y] on floats. *)
Definition Qgt_bool (x y : Q) : bool := negb (Qle_bool x y).

(** IEEE 754 binary64, the float of CPython: 53 bits, round to nearest,
    ties to even, least exponent -1074. *)
Definition pot2 (e : Z) : Q :=
  if (0 <=? e)%Z then inject_Z (2 ^ e) else Qmake 1 (Z.to_pos (2 ^ (- e))).

(** The binary exponent [e] of a rational other than zero:
    [2^e <= |q| < 2^(e+1)]. *)
Definition expoente (q : Q) : Z :=
  let e := (Z.log2 (Z.abs (Qnum q)) - Z.log2 (Z.pos (Qden q)))%Z in
  if Qle_bool (pot2 e) (Qabs q) then e else (e - 1)%Z.

(** The nearest integer, the even one of the two on a tie. *)
Definition inteiro_proximo (q : Q) : Z :=
  let f := Qfloor q in
  match Qcompare (q - inject_Z f) (1 # 2) with
  | Lt => f
  | Gt => (f + 1)%Z
  | Eq => if Z.even f then f else (f + 1)%Z
  end.

Definition binary64_arred (q : Q) : Q :=
  if Qeq_bool q 0 then 0%Q
  else
    let p := Z.max (expoente q - 52) (-1074) in
    Qred (inject_Z (inteiro_proximo (q / pot2 p)) * pot2 p).

(** The floats of the examples: binary64, with the [sum] that adds from
    left to right. *)
#[global] Instance binary64 : Float := {|
  arred := binary64_arred;
  fsum := fun l => fold_left (fun a x => binary64_arred (a + x)) l 0%Q
|}.

End Py.

(* ================================================================== *)
(** ** Regular expressions of the [re] module *)

Module Re.
Import Py.

(** Compilation flags. *)
Record flags := { ignorecase : bool; multiline : bool }.

(** What matches one character. *)
Inductive cls :=
| Lit (c : char)              (* the character itself *)
| Digit                       (* \d *)
| Space                       (* \s *)
| Word                        (* \w *)
| Any_of (l : list cls)       (* [...] *)
| None_of (l : list cls).     (* [^...] *)

Section Classes.
Context {U : Unicode}.

Fixpoint cls_match (f : flags) (c : cls) (x : char) : bool :=
  match c with
  | Lit a => (x =? a)%N || (ignorecase f && ignorecase_eq a x)
  | Digit => isdecimal x
  | Space => isspace x
  | Word => isalnum x || (x =? 95)%N
  | Any_of l => existsb (fun a => cls_match f a x) l
  | None_of l => negb (existsb (fun a => cls_match f a x) l)
  end.

End Classes.

(** Patterns.  Repetition is unbounded only over a single character
    class, which is all the patterns of the package use. *)
Inductive regex :=
| Eps
| One (c : cls)
| Seq (r1 r2 : regex)
| Alt (r1 r2 : regex)         (* r1|r2, r1 first *)
| Star (c : cls)              (* c*, greedy *)
| Group (r : regex)           (* (r), the capturing group *)
| Bol                         (* ^ *)
| Eol.                        (* $ *)

(** [r?], greedy. *)
Definition Opt (r : regex) : regex := Alt r Eps.

(** [r{n}]. *)
Fixpoint Rep (n : nat) (r : regex) : regex :=
  match n with
  | O => Eps
  | S n' => Seq r (Rep n' r)
  end.

(** [r{0,n}], greedy. *)
Fixpoint Upto (n : nat) (r : regex) : regex :=
  match n with
  | O => Eps
  | S n' => Opt (Seq r (Upto n' r))
  end.

(** [r{lo,hi}], greedy. *)
Definition Range (lo hi : nat) (r : regex) : regex :=
  Seq (Rep lo r) (Upto (hi - lo) r).

(** Concatenation of a list of patterns. *)
Definition Cat (rs : list regex) : regex := fold_right Seq Eps rs.

(** A run of literal characters. *)
Definition Str (s : string) : regex := Cat (map (fun c => One (Lit c)) (u s)).

(** A single literal character, given as a one-character literal. *)
Definition Ch (s : string) : cls := Lit (hd 0%N (u s)).
Arguments Str s%_string.
Arguments Ch s%_string.

(** The matcher walks a cursor: the characters already passed (last one
    first), the characters ahead, and what the group captured. *)
Record cursor := { seen : str; rest : str; cap : option str }.

Section Matcher.
Context {U : Unicode}.

Definition at_bol (f : flags) (cu : cursor) : bool :=
  match seen cu with
  | [] => true
  | x :: _ => multiline f && (x =? 10)%N
  end.

Definition at_eol (f : flags) (cu : cursor) : bool :=
  match rest cu with
  | [] => true
  | x :: tl => (x =? 10)%N && (multiline f || match tl with [] => true | _ => false end)
  end.

Fixpoint star_cls (f : flags) (c : cls) (sn rs : str) (cp : option str)
    (k : cursor -> option cursor) : option cursor :=
  match rs with
  | x :: rs' =>
      if cls_match f c x then
        match star_cls f c (x :: sn) rs' cp k with
        | Some r => Some r
        | None => k {| seen := sn; rest := rs; cap := cp |}
        end
      else k {| seen := sn; rest := rs; cap := cp |}
  | [] => k {| seen := sn; rest := rs; cap := cp |}
  end.

(** [rmatch f r cu k]: match [r] at the cursor and continue with [k];
    [None] asks the caller to backtrack. *)
Fixpoint rmatch (f : flags) (r : regex) (cu : cursor)
    (k : cursor -> option cursor) : option cursor :=
  match r with
  | Eps => k cu
  | One c =>
      match rest cu with
      | x :: tl =>
          if cls_match f c x
          then k {| seen := x :: seen cu; rest := tl; cap := cap cu |}
          else None
      | [] => None
      end
  | Seq r1 r2 => rmatch f r1 cu (fun cu1 => rmatch f r2 cu1 k)
  | Alt r1 r2 =>
      match rmatch f r1 cu k with
      | Some res => Some res
      | None => rmatch f r2 cu k
      end
  | Star c => star_cls f c (seen cu) (rest cu) (cap cu) k
  | Group r1 =>
      rmatch f r1 cu (fun cu1 =>
        let n := (List.length (seen cu1) - List.length (seen cu))%nat in
        k {| seen := seen cu1; rest := rest cu1;
             cap := Some (rev (firstn n (seen cu1))) |})
  | Bol => if at_bol f cu then k cu else None
  | Eol => if at_eol f cu then k cu else None
  end.

(** One attempt at the current position: the cursor after the match. *)
Definition match_here (f : flags) (r : regex) (sn rs : str) : option cursor :=
  rmatch f r {| seen := sn; rest := rs; cap := None |} Some.

(** What [findall] reports for a match of a pattern with one group. *)
Definition group1 (cu : cursor) : str :=
  match cap cu with
  | Some g => g
  | None => []
  end.

(** Left to right scan for non-overlapping matches; [skip] counts the
    positions still covered by the previous match.  (No pattern of the
    package matches the empty string, so a match always moves on.) *)
Fixpoint scan (f : flags) (r : regex) (sn rs : str) (skip : nat) {struct rs} : list str :=
  match skip with
  | S n =>
      match rs with
      | x :: tl => scan f r (x :: sn) tl n
      | [] => []
      end
  | O =>
      match match_here f r sn rs with
      | Some cu =>
          group1 cu ::
          match rs with
          | x :: tl => scan f r (x :: sn) tl (pred (List.length (seen cu) - List.length sn))
          | [] => []
          end
      | None =>
          match rs with
          | x :: tl => scan f r (x :: sn) tl 0
          | [] => []
          end
      end
  end.

(** [re.findall(pattern, s, flags)] for a pattern with one group. *)
Definition findall (f : flags) (r : regex) (s : str) : list str :=
  scan f r [] s 0.

(** [re.sub(c, repl, s)] for a pattern that is one character class. *)
Definition sub_cls (f : flags) (c : cls) (repl : str) (s : str) : str :=
  flat_map (fun x => if cls_match f c x then repl else [x]) s.

(** [re.sub(c+, repl, s)]: every maximal run of [c] becomes [repl]. *)
Fixpoint sub_plus (f : flags) (c : cls) (repl : str) (s : str) (inrun : bool) : str :=
  match s with
  | [] => []
  | x :: s' =>
      if cls_match f c x
      then (if inrun then [] else repl) ++ sub_plus f c repl s' true
      else x :: sub_plus f c repl s' false
  end.

End Matcher.

Definition no_flags : flags := {| ignorecase := false; multiline := false |}.

End Re.

(* ================================================================== *)
(** ** Exceptions *)

Module Exc.
Import Py.

(** The exceptions the package meets, as far as its handlers tell them
    apart: [requests.exceptions.RequestException] and its subclasses,
    [ZeroDivisionError], and any other instance of [Exception]. *)
Inductive exn :=
| RequestException (msg : str)
| ZeroDivisionError
| OtherException (msg : str).

(** A call either raises or returns. *)
Definition result (A : Type) : Type := exn + A.

Definition ret {A : Type} (a : A) : result A := inr a.
Definition raise {A : Type} (e : exn) : result A := inl e.

Definition bind {A B : Type} (m : result A) (k : A -> result B) : result B :=
  match m with
  | inl e => inl e
  | inr a => k a
  end.

(** [try: m  except C: h] where [catches] recognises the class [C]. *)
Definition try_except {A : Type} (m : result A) (catches : exn -> bool)
    (h : exn -> result A) : result A :=
  match m with
  | inl e => if catches e then h e else inl e
  | inr a => inr a
  end.

Definition is_RequestException (e : exn) : bool :=
  match e with
  | RequestException _ => true
  | _ => false
  end.

(** [except Exception] catches every exception of the model. *)
Definition is_Exception (e : exn) : bool := true.

End Exc.

Declare Scope exc_scope.
Notation "x <- m ;; k" := (Exc.bind m (fun x => k))
  (at level 61, m at next level, right associativity) : exc_scope.

(* ================================================================== *)
(** ** [ocr_aws.py]: the two field extractors of [OCRAws] *)

Module OcrAws.
Import Py Re Exc.
Local Open Scope exc_scope.

(** *** [extrair_cnpj] *)

Definition D : regex := One Digit.

(** [CNPJ[:\s]*(\d{2}\.?\d{3}\.?\d{3}\/?\d{4}-?\d{2})] *)
Definition padrao_cnpj_formatado : regex :=
  Cat [Str "CNPJ"; Star (Any_of [Ch ":"; Space]);
       Group (Cat [Rep 2 D; Opt (One (Ch ".")); Rep 3 D; Opt (One (Ch "."));
                   Rep 3 D; Opt (One (Ch "/")); Rep 4 D; Opt (One (Ch "-"));
                   Rep 2 D])].

(** [CNPJ[:\s]*(\d{14})] *)
Definition padrao_cnpj_sem_formatacao : regex :=
  Cat [Str "CNPJ"; Star (Any_of [Ch ":"; Space]); Group (Rep 14 D)].

(** [(?:^|\s)(\d{14})(?:\s|$)] *)
Definition padrao_14_digitos : regex :=
  Cat [Alt Bol (One Space); Group (Rep 14 D); Alt (One Space) Eol].

(** [(\d{2}\.\d{3}\.\d{3}/\d{4}-\d{2})] *)
Definition padrao_formatado_isolado : regex :=
  Group (Cat [Rep 2 D; One (Ch "."); Rep 3 D; One (Ch "."); Rep 3 D;
              One (Ch "/"); Rep 4 D; One (Ch "-"); Rep 2 D]).

Definition padroes_cnpj : list regex :=
  [padrao_cnpj_formatado; padrao_cnpj_sem_formatacao;
   padrao_14_digitos; padrao_formatado_isolado].

(** [re.IGNORECASE | re.MULTILINE] *)
Definition flags_cnpj : flags := {| ignorecase := true; multiline := true |}.

Section Cnpj.
Context {U : Unicode}.

(** The two [re.sub] that clean the text: [[^\w\s\.\-\/]] becomes a
    blank, then every run of [\s] becomes one blank. *)
Definition limpar_texto (texto : str) : str :=
  let texto_limpo :=
    sub_cls no_flags (None_of [Word; Space; Ch "."; Ch "-"; Ch "/"]) (u " ") texto in
  sub_plus no_flags Space (u " ") texto_limpo false.

(** [re.sub(r'[^\d]', '', match)] *)
Definition so_digitos (m : str) : str :=
  sub_cls no_flags (None_of [Digit]) [] m.

(** The basic validation of line 95. *)
Definition validacao_basica (cnpj_limpo : str) : bool :=
  negb (startswith (u "00000") cnpj_limpo)
  && negb (forallb (fun d => (d =? hd 0%N cnpj_limpo)%N) cnpj_limpo).

(** [for match in matches]: returns as soon as a candidate is accepted. *)
Fixpoint percorre_matches (matches : list str) : option str :=
  match matches with
  | [] => None
  | m :: outros =>
      let cnpj_limpo := so_digitos m in
      if (List.length cnpj_limpo =? 14)%nat then
        if validacao_basica cnpj_limpo then Some cnpj_limpo
        else percorre_matches outros
      else percorre_matches outros
  end.

(** [for padrao in padroes_cnpj]. *)
Fixpoint percorre_padroes (padroes : list regex) (texto_limpo : str) : option str :=
  match padroes with
  | [] => None
  | padrao :: outros =>
      match percorre_matches (findall flags_cnpj padrao texto_limpo) with
      | Some cnpj => Some cnpj
      | None => percorre_padroes outros texto_limpo
      end
  end.

Definition extrair_cnpj (texto : str) : option str :=
  percorre_padroes padroes_cnpj (limpar_texto texto).

End Cnpj.

(** *** [extrair_valor_total] *)

(** [(\d{1,6}[,.]?\d{2})] *)
Definition grupo_valor : regex :=
  Group (Cat [Range 1 6 D; Opt (One (Any_of [Ch ","; Ch "."])); Rep 2 D]).

(** [[:\s]*R?\$?\s*], the separator after a keyword. *)
Definition apos_palavra : list regex :=
  [Star (Any_of [Ch ":"; Space]); Opt (One (Ch "R")); Opt (One (Ch "$")); Star Space].

(** [(?:TOTAL|VALOR\s*TOTAL|TOTAL\s*GERAL)[:\s]*R?\$?\s*(\d{1,6}[,.]?\d{2})] *)
Definition padrao_total : regex :=
  Cat (Alt (Str "TOTAL")
        (Alt (Cat [Str "VALOR"; Star Space; Str "TOTAL"])
             (Cat [Str "TOTAL"; Star Space; Str "GERAL"]))
       :: apos_palavra ++ [grupo_valor]).

(** [(?:TOTAL|VALOR)[:\s]*R?\$?\s*(\d{1,6}[,.]?\d{2})] *)
Definition padrao_total_ou_valor : regex :=
  Cat (Alt (Str "TOTAL") (Str "VALOR") :: apos_palavra ++ [grupo_valor]).

(** [R\$\s*(\d{1,6}[,.]?\d{2})] *)
Definition padrao_real : regex :=
  Cat [Str "R$"; Star Space; grupo_valor].

(** [RS\s*(\d{1,6}[,.]?\d{2})] *)
Definition padrao_rs : regex :=
  Cat [Str "RS"; Star Space; grupo_valor].

(** [(\d{1,6}[,.]?\d{2})\s*$] *)
Definition padrao_fim_de_linha : regex :=
  Cat [grupo_valor; Star Space; Eol].

(** [(?:^|\s)(\d{1,4}[,.]\d{2})(?:\s|$)] *)
Definition padrao_isolado : regex :=
  Cat [Alt Bol (One Space);
       Group (Cat [Range 1 4 D; One (Any_of [Ch ","; Ch "."]); Rep 2 D]);
       Alt (One Space) Eol].

Definition padroes_valor : list regex :=
  [padrao_total; padrao_total_ou_valor; padrao_real; padrao_rs;
   padrao_fim_de_linha; padrao_isolado].

(** [re.IGNORECASE] *)
Definition flags_valor : flags := {| ignorecase := true; multiline := false |}.

(** [f'{valor:.2f}'] for a non-negative amount.  The amounts that
    reach it have at most two decimals, so that nothing is rounded off. *)
Definition format_2f (valor : Q) : str :=
  let centavos := Z.to_N (Qfloor (valor * 100 + (1 # 2))%Q) in
  let frac := (centavos mod 100)%N in
  digits_of_N (centavos / 100) ++ u "."
    ++ (if (frac <? 10)%N then u "0" else []) ++ digits_of_N frac.

(** [0.01 <= valor <= 999999.99] *)
Definition valor_valido (valor : Q) : bool :=
  Qle_bool (1 # 100) valor && Qle_bool valor (99999999 # 100).

Section Valor.
Context {U : Unicode}.

(** Value of a run of decimal digits. *)
Definition N_of_digits (ds : str) : N :=
  fold_left (fun acc d => (acc * 10 + decimal d)%N) ds 0%N.

(** [float(s)] on unsigned decimal notation (digits with at most one
    point, at least one digit), which is what reaches it; [None] is
    [ValueError]. *)
Definition float (s : str) : option Q :=
  match split 46%N s with
  | [i] =>
      if forallb isdecimal i && negb (Nat.eqb (List.length i) 0)
      then Some (Qmake (Z.of_N (N_of_digits i)) 1)
      else None
  | [i; f] =>
      if forallb isdecimal i && forallb isdecimal f
         && negb (Nat.eqb (List.length i + List.length f) 0)
      then Some (Qmake (Z.of_N (N_of_digits (i ++ f)))
                       (Z.to_pos (10 ^ Z.of_nat (List.length f))))
      else None
  | _ => None
  end.

(** The decimal handling of lines 139-145: [None] is the [ValueError]
    of [float]. *)
Definition normalizar (match_ : str) : option Q :=
  let valor_str := replace 44%N (u ".") match_ in
  let valor_str :=
    if contains (u ".") valor_str && contains (u ",") match_
    then replace 44%N (u ".") (replace 46%N [] match_)
    else valor_str in
  float valor_str.

(** The weight of a candidate found on [linha] (lines 149-158). *)
Definition peso_de (linha : str) (valor : Q) : Z :=
  let peso := 1%Z in
  let linha_upper := upper linha in
  let peso :=
    if existsb (fun palavra => contains palavra linha_upper)
         [u "TOTAL"; u "VALOR TOTAL"; u "TOTAL GERAL"]
    then (peso + 10)%Z else peso in
  let peso :=
    if contains (u "R$") linha || contains (u "RS") linha
    then (peso + 5)%Z else peso in
  let peso :=
    if endswith (replace 46%N (u ",") (format_2f valor)) (strip linha)
    then (peso + 3)%Z else peso in
  peso.

(** Body of [for match in matches]: the list is the state. *)
Definition passo_match (linha : str) (valores_encontrados : list (Q * Z)) (match_ : str)
    : list (Q * Z) :=
  match normalizar match_ with
  | Some valor =>
      if valor_valido valor
      then valores_encontrados ++ [(valor, peso_de linha valor)]
      else valores_encontrados
  | None => valores_encontrados
  end.

(** Body of [for padrao in padroes_valor]. *)
Definition passo_padrao (linha : str) (valores_encontrados : list (Q * Z)) (padrao : regex)
    : list (Q * Z) :=
  fold_left (passo_match linha) (findall flags_valor padrao linha) valores_encontrados.

(** Body of [for linha in linhas]. *)
Definition passo_linha (valores_encontrados : list (Q * Z)) (linha : str) : list (Q * Z) :=
  let linha := strip linha in
  match linha with
  | [] => valores_encontrados
  | _ => fold_left (passo_padrao linha) padroes_valor valores_encontrados
  end.

(** [valores_encontrados] when the loops are over. *)
Definition valores_encontrados (texto : str) : list (Q * Z) :=
  fold_left passo_linha (split 10%N texto) [].

(** The sort key [(x[1], x[0])] compared as Python compares tuples. *)
Definition chave_ltb (a b : Q * Z) : bool :=
  (snd a <? snd b)%Z
  || ((snd a =? snd b)%Z && negb (Qle_bool (fst b) (fst a))).

(** [list.sort(key=..., reverse=True)]: stable, largest key first. *)
Fixpoint inserir (x : Q * Z) (l : list (Q * Z)) : list (Q * Z) :=
  match l with
  | [] => [x]
  | y :: l' => if chave_ltb x y then y :: inserir x l' else x :: l
  end.

Definition ordenar (l : list (Q * Z)) : list (Q * Z) := fold_right inserir [] l.

Definition extrair_valor_total (texto : str) : Q :=
  match valores_encontrados texto with
  | [] => 0%Q
  | v :: vs => fst (hd v (ordenar (v :: vs)))
  end.

End Valor.

(** *** [extrair_dados_canhoto] *)

(** The dictionary [extrair_dados_canhoto] returns. *)
Record dados := { cnpj : option str; valor : Q; texto_completo : str }.

Section Textract.
Context {U : Unicode}.

(** The cloud service: [boto3.client('textract', region_name=...)]
    succeeds or raises, and reading an image and calling
    [detect_document_text] on it gives the texts of its LINE blocks or
    raises. *)
Variable boto3_client : str -> result unit.
Variable detect_document_text : str -> result (list str).

Definition extrair_texto_aws (caminho_imagem : str) : str :=
  match try_except
          (texto_completo <- detect_document_text caminho_imagem ;;
           ret (join [10%N] texto_completo))
          is_Exception
          (fun e => ret [])
  with
  | inr texto => texto
  | inl _ => []
  end.

Definition extrair_dados_canhoto (caminho_imagem : str) : dados :=
  let texto := extrair_texto_aws caminho_imagem in
  match texto with
  | [] => {| cnpj := None; valor := 0%Q; texto_completo := [] |}
  | _ =>
      {| cnpj := extrair_cnpj texto;
         valor := extrair_valor_total texto;
         texto_completo := texto |}
  end.

(** [OCRAws(region_name)] re-raises what [boto3.client] raises. *)
Definition extrair_dados_canhoto_aws (caminho_imagem region_name : str) : result dados :=
  _ <- boto3_client region_name ;;
  ret (extrair_dados_canhoto caminho_imagem).

End Textract.

End OcrAws.

(* ================================================================== *)
(** ** [categorizador.py] *)

Module Categorizador.
Import Py Exc.
Local Open Scope exc_scope.

(** A JSON object of the registry, read as a Python [dict] with string
    values, in insertion order. *)
Definition dict := list (str * str).

(** [d.get(key, default)] *)
Fixpoint get (d : dict) (key : str) (default : str) : str :=
  match d with
  | [] => default
  | (k, v) :: d' => if str_eqb k key then v else get d' key default
  end.

(** What [requests.get] hands back: the status code and what
    [response.json()] will do. *)
Record response := { status_code : Z; json : result dict }.

Section Registry.

(** The network: the outcome of [requests.get(url, timeout=10)]. *)
Variable requests_get : str -> result response.

Definition consultar_cnpj_brasilapi (cnpj : str) : result (option dict) :=
  try_except
    (let url := u "https://brasilapi.com.br/api/cnpj/v1/" ++ cnpj in
     response <- requests_get url ;;
     if (status_code response =? 200)%Z
     then (d <- json response ;; ret (Some d))
     else ret None)
    is_RequestException
    (fun e => ret None).

(** What [CategorizadorDespesas.consultar_cnpj] returns. *)
Record info_empresa := { nome : str; atividade_principal : str; cnae_codigo : str }.

Definition consultar_cnpj (cnpj : str) : result (option info_empresa) :=
  dados <- consultar_cnpj_brasilapi cnpj ;;
  match dados with
  | Some (campo :: campos) =>
      let dados := campo :: campos in
      ret (Some {| nome := get dados (u "razao_social") (u "Nome não disponível");
                   atividade_principal := get dados (u "cnae_fiscal_descricao") [];
                   cnae_codigo := get dados (u "cnae_fiscal") [] |})
  | _ => ret None
  end.

End Registry.

(** The keyword table, in the order the dictionary literal declares it. *)
Definition categorias : list (str * list str) :=
  [ (u "Alimentação",
     map u ["restaurante"; "lanchonete"; "padaria"; "confeitaria"; "pizzaria";
            "hamburgueria"; "sorveteria"; "açaí"; "comida"; "alimento";
            "bebida"; "bar"; "pub"; "cervejaria"; "cafeteria"; "café";
            "pastelaria"; "doceria"; "panificação"; "mercearia"; "supermercado";
            "hipermercado"; "minimercado"; "empório"; "delicatessen"]%string);
    (u "Transporte",
     map u ["taxi"; "uber"; "transporte"; "combustível"; "gasolina"; "etanol";
            "diesel"; "posto"; "estacionamento"; "pedágio"; "ônibus";
            "metrô"; "trem"; "avião"; "passagem"; "locação de veículos";
            "aluguel de carros"; "moto"; "bicicleta"]%string);
    (u "Hospedagem",
     map u ["hotel"; "pousada"; "hostel"; "motel"; "resort"; "hospedagem";
            "alojamento"; "pensão"; "apart-hotel"; "flat"]%string);
    (u "Saúde",
     map u ["farmácia"; "drogaria"; "medicamento"; "hospital"; "clínica";
            "consultório"; "médico"; "dentista"; "laboratório"; "exame";
            "fisioterapia"; "psicologia"; "veterinário"; "ótica"; "óculos"]%string);
    (u "Educação",
     map u ["escola"; "universidade"; "faculdade"; "curso"; "treinamento";
            "educação"; "ensino"; "livraria"; "papelaria"; "material escolar";
            "biblioteca"; "seminário"; "workshop"]%string);
    (u "Tecnologia",
     map u ["informática"; "computador"; "software"; "hardware"; "eletrônico";
            "celular"; "smartphone"; "tablet"; "notebook"; "impressora";
            "internet"; "telecomunicações"; "telefonia"; "dados"]%string);
    (u "Vestuário",
     map u ["roupa"; "vestuário"; "calçado"; "sapato"; "tênis"; "sandália";
            "confecção"; "moda"; "boutique"; "loja de roupas"; "alfaiataria";
            "sapataria"; "acessórios"]%string);
    (u "Serviços",
     map u ["consultoria"; "advocacia"; "contabilidade"; "auditoria";
            "engenharia"; "arquitetura"; "design"; "publicidade"; "marketing";
            "limpeza"; "segurança"; "manutenção"; "reparo"; "instalação"]%string);
    (u "Entretenimento",
     map u ["cinema"; "teatro"; "show"; "evento"; "festa"; "entretenimento";
            "diversão"; "parque"; "museu"; "exposição"; "jogo"; "esporte";
            "academia"; "ginástica"; "clube"; "recreação"]%string);
    (u "Material de Escritório",
     map u ["papelaria"; "escritório"; "material de escritório"; "impressão";
            "gráfica"; "fotocópia"; "encadernação"; "papel"; "caneta";
            "arquivo"; "pasta"; "organizador"]%string) ].

(** [for palavra in palavras_chave]: [true] when the loop returns. *)
Fixpoint percorre_palavras (palavras_chave : list str) (descricao_lower : str) : bool :=
  match palavras_chave with
  | [] => false
  | palavra :: outras =>
      if contains palavra descricao_lower then true
      else percorre_palavras outras descricao_lower
  end.

(** [for categoria, palavras_chave in categorias.items()]: the category
    the loop returns, if it returns. *)
Fixpoint percorre_categorias (tabela : list (str * list str)) (descricao_lower : str)
    : option str :=
  match tabela with
  | [] => None
  | (categoria, palavras_chave) :: outras =>
      if percorre_palavras palavras_chave descricao_lower then Some categoria
      else percorre_categorias outras descricao_lower
  end.

Section Categorias.
Context {U : Unicode}.

Definition categorizar_por_cnae (descricao_cnae : str) : str :=
  match descricao_cnae with
  | [] => u "Outros"
  | _ =>
      let descricao_lower := lower descricao_cnae in
      match percorre_categorias categorias descricao_lower with
      | Some categoria => categoria
      | None => u "Outros"
      end
  end.

End Categorias.

(** *** [processar_cnpj_e_categorizar] *)

Section Consulta.
Context {U : Unicode}.

Variable requests_get : str -> result response.

(** The argument is [None], or a string that may be empty. *)
Definition processar_cnpj_e_categorizar (cnpj : option str) : result (str * str * str) :=
  match cnpj with
  | Some (c :: cs) =>
      dados_empresa <- consultar_cnpj_brasilapi requests_get (c :: cs) ;;
      match dados_empresa with
      | Some (campo :: campos) =>
          let dados_empresa := campo :: campos in
          let nome_empresa :=
            get dados_empresa (u "razao_social") (u "Nome não disponível") in
          let descricao_cnae := get dados_empresa (u "cnae_fiscal_descricao") [] in
          let categoria := categorizar_por_cnae descricao_cnae in
          ret (categoria, nome_empresa, descricao_cnae)
      | _ => ret (u "Outros", u "Empresa não encontrada", u "CNAE não disponível")
      end
  | _ => ret (u "Outros", u "Empresa não identificada", u "CNAE não disponível")
  end.

End Consulta.

(** *** [gerar_relatorio_categorias] *)

(** One category of a report: its name, its total, its percentage of
    the grand total and the number of blocks of its bar. *)
Record linha := { categoria : str; valor : Q; percentual : Q; barra : nat }.

(** A rendered report, as data: the grand total and the category
    lines in the order they are written. *)
Inductive relatorio :=
| Sem_gastos                                  (* "Nenhum gasto categorizado encontrado." *)
| Relatorio (total_geral : Q) (linhas : list linha).

Section Relatorio.
Context {Fl : Float}.

(** [sum(values)] *)
Definition soma (valores : list Q) : Q := fsum valores.

(** [max(values)] of a non-empty list: the first of the largest. *)
Definition maximo (v : Q) (valores : list Q) : Q :=
  fold_left (fun m x => if Qgt_bool x m then x else m) valores v.

(** [x / y] on floats. *)
Definition dividir (x y : Q) : result Q :=
  if Qeq_bool y 0 then raise ZeroDivisionError else ret (fdiv x y).

(** [sorted(items, key=lambda x: x[1], reverse=True)]: stable, largest
    total first. *)
Fixpoint inserir (x : str * Q) (l : list (str * Q)) : list (str * Q) :=
  match l with
  | [] => [x]
  | y :: l' => if Qgt_bool (snd y) (snd x) then y :: inserir x l' else x :: l
  end.

Definition ordenar (l : list (str * Q)) : list (str * Q) := fold_right inserir [] l.

(** ["█" * n] has [n] blocks, none when [n] is negative. *)
Definition blocos (n : Z) : nat := Z.to_nat n.

Definition largura_maxima : Q := 30%Q.

(** Body of [for categoria, valor in categorias_ordenadas]. *)
Definition linha_categoria (total_geral valor_maximo : Q) (item : str * Q) : result linha :=
  let (categoria, valor) := item in
  q <- dividir valor total_geral ;;
  let percentual := fmul q 100 in
  r <- dividir valor valor_maximo ;;
  let tamanho_barra := int_of_float (fmul r largura_maxima) in
  ret {| categoria := categoria; valor := valor; percentual := percentual;
         barra := blocos tamanho_barra |}.

(** The loop: the first exception leaves it. *)
Fixpoint linhas_categorias (total_geral valor_maximo : Q) (itens : list (str * Q))
    : result (list linha) :=
  match itens with
  | [] => ret []
  | item :: outros =>
      l <- linha_categoria total_geral valor_maximo item ;;
      ls <- linhas_categorias total_geral valor_maximo outros ;;
      ret (l :: ls)
  end.

Definition gerar_relatorio_categorias (gastos_por_categoria : list (str * Q))
    : result relatorio :=
  match map snd gastos_por_categoria with
  | [] => ret Sem_gastos
  | v :: vs =>
      let total_geral := soma (v :: vs) in
      let categorias_ordenadas := ordenar gastos_por_categoria in
      let valor_maximo := maximo v vs in
      ls <- linhas_categorias total_geral valor_maximo categorias_ordenadas ;;
      ret (Relatorio total_geral ls)
  end.

End Relatorio.

End Categorizador.

(* ================================================================== *)
(** ** [main.py] *)

Module Main.
Import Py Exc.
Local Open Scope exc_scope.

(** A [pathlib.Path]: [str(p)] and [p.name]. *)
Record Path := { parent : str; name : str }.

Definition str_of_path (p : Path) : str := parent p ++ u "/" ++ name p.

(** The dictionary kept for each image. *)
Record resultado := {
  arquivo : str;
  cnpj : option str;
  valor : Q;
  empresa : str;
  atividade : str;
  categoria : str;
  texto_completo : str
}.

(** The record appended by the [except] branch (lines 109-117). *)
Definition resultado_com_erro (caminho_imagem : Path) : resultado :=
  {| arquivo := name caminho_imagem;
     cnpj := None;
     valor := 0%Q;
     empresa := u "Erro no processamento";
     atividade := u "Erro";
     categoria := u "Outros";
     texto_completo := [] |}.

Section Lote.
Context {U : Unicode}.

Variable boto3_client : str -> result unit.
Variable detect_document_text : str -> result (list str).
Variable requests_get : str -> result Categorizador.response.

Variable region_name : str.

(** [dados.update({...}); dados['arquivo'] = caminho_imagem.name] *)
Definition completar (d : OcrAws.dados) (empresa atividade categoria : str)
    (caminho_imagem : Path) : resultado :=
  {| arquivo := name caminho_imagem;
     cnpj := OcrAws.cnpj d;
     valor := OcrAws.valor d;
     empresa := empresa;
     atividade := atividade;
     categoria := categoria;
     texto_completo := OcrAws.texto_completo d |}.

(** The [try] block (lines 67-104), up to the record it appends. *)
Definition processar_imagem (caminho_imagem : Path) : result resultado :=
  d <- OcrAws.extrair_dados_canhoto_aws boto3_client detect_document_text
         (str_of_path caminho_imagem) region_name ;;
  match OcrAws.cnpj d with
  | Some (c :: cs) =>
      info <- Categorizador.consultar_cnpj requests_get (c :: cs) ;;
      match info with
      | Some info_empresa =>
          let categoria :=
            Categorizador.categorizar_por_cnae
              (Categorizador.atividade_principal info_empresa) in
          ret (completar d (Categorizador.nome info_empresa)
                 (Categorizador.atividade_principal info_empresa) categoria
                 caminho_imagem)
      | None =>
          ret (completar d (u "Não identificada") (u "Não identificada")
                 (u "Outros") caminho_imagem)
      end
  | _ =>
      ret (completar d (u "CNPJ não encontrado") (u "Não identificada")
             (u "Outros") caminho_imagem)
  end.

(** One turn of [for i, caminho_imagem in enumerate(imagens, 1)]: the
    list of results is the state. *)
Definition passo (resultados : list resultado) (caminho_imagem : Path)
    : result (list resultado) :=
  try_except
    (dados <- processar_imagem caminho_imagem ;;
     ret (resultados ++ [dados]))
    is_Exception
    (fun e => ret (resultados ++ [resultado_com_erro caminho_imagem])).

Fixpoint percorre_imagens (imagens : list Path) (resultados : list resultado)
    : result (list resultado) :=
  match imagens with
  | [] => ret resultados
  | caminho_imagem :: outras =>
      resultados' <- passo resultados caminho_imagem ;;
      percorre_imagens outras resultados'
  end.

Definition processar_canhotos (imagens : list Path) : result (list resultado) :=
  percorre_imagens imagens [].

End Lote.

(** *** [gerar_relatorio] *)

Section Relatorios.
Context {Fl : Float}.

(** [resultado.get('valor', 0.0)]: the float that was read from the
    decimal kept in the record. *)
Definition valor_float (resultado : resultado) : Q :=
  float_of_decimal (valor resultado).

(** [if categoria not in gastos: gastos[categoria] = 0.0] followed by
    [gastos[categoria] += valor], on a dictionary in insertion order. *)
Fixpoint acumular (gastos_por_categoria : list (str * Q)) (categoria : str) (valor : Q)
    : list (str * Q) :=
  match gastos_por_categoria with
  | [] => [(categoria, fadd 0 valor)]
  | (c, v) :: outros =>
      if str_eqb c categoria then (c, fadd v valor) :: outros
      else (c, v) :: acumular outros categoria valor
  end.

(** The first loop of [gerar_relatorio]: category totals and grand total. *)
Definition agrupar (resultados : list resultado) : list (str * Q) * Q :=
  fold_left
    (fun '(gastos_por_categoria, total_geral) resultado =>
       (acumular gastos_por_categoria (categoria resultado) (valor_float resultado),
        fadd total_geral (valor_float resultado)))
    resultados ([], 0%Q).

(** Body of [for categoria, valor in categorias_ordenadas] (lines 156-163):
    the lines it prints. *)
Definition linha_impressa (total_geral : Q) (item : str * Q) : list Categorizador.linha :=
  let (categoria, valor) := item in
  if Qgt_bool valor 0 then
    let percentual := fmul (fdiv valor total_geral) 100 in
    let barras := int_of_float (fdiv percentual (float_of_decimal (333 # 100))) in
    [ {| Categorizador.categoria := categoria;
         Categorizador.valor := valor;
         Categorizador.percentual := percentual;
         Categorizador.barra := Categorizador.blocos barras |} ]
  else [].

(** What [gerar_relatorio] prints, as data. *)
Definition gerar_relatorio (resultados : list resultado) : Categorizador.relatorio :=
  let (gastos_por_categoria, total_geral) := agrupar resultados in
  if Qgt_bool total_geral 0 then
    let categorias_ordenadas := Categorizador.ordenar gastos_por_categoria in
    Categorizador.Relatorio total_geral
      (flat_map (linha_impressa total_geral) categorias_ordenadas)
  else Categorizador.Relatorio total_geral [].

(** *** [salvar_relatorio_detalhado] *)

(** What the detailed report holds, as data: the grand total, the
    number of receipts, the receipts numbered from 1, and the summary
    lines (category, total, percentage). *)
Record relatorio_detalhado := {
  total_do_relatorio : Q;
  total_de_canhotos : nat;
  detalhes : list (nat * resultado);
  resumo : list (str * Q * Q)
}.

(** The loop of lines 199-202:
    [gastos[categoria] = gastos.get(categoria, 0.0) + valor]. *)
Definition resumir (resultados : list resultado) : list (str * Q) :=
  fold_left
    (fun gastos_por_categoria resultado =>
       acumular gastos_por_categoria (categoria resultado) (valor_float resultado))
    resultados [].

(** Body of the loop of lines 207-210. *)
Definition linha_resumo (total_geral : Q) (item : str * Q) : list (str * Q * Q) :=
  let (categoria, valor) := item in
  if Qgt_bool valor 0 then
    let percentual :=
      if Qgt_bool total_geral 0 then fmul (fdiv valor total_geral) 100 else 0%Q in
    [(categoria, valor, percentual)]
  else [].

(** What [salvar_relatorio_detalhado] writes to the file. *)
Definition salvar_relatorio_detalhado (resultados : list resultado) : relatorio_detalhado :=
  let total_geral := fsum (map valor_float resultados) in
  {| total_do_relatorio := total_geral;
     total_de_canhotos := List.length resultados;
     detalhes := combine (seq 1 (List.length resultados)) resultados;
     resumo :=
       flat_map (linha_resumo total_geral) (Categorizador.ordenar (resumir resultados)) |}.

End Relatorios.

End Main.

(* ================================================================== *)
(** ** The statements of the specification, in its own words *)

Module Spec.
Import Py Re.

Section Enunciados.
Context {U : Unicode} {Fl : Float}.

(** The candidates of the identifier extractor, in pattern order and,
    within a pattern, in match order, reduced to their digits. *)
Definition candidatos_cnpj (texto : str) : list str :=
  flat_map
    (fun padrao =>
       map OcrAws.so_digitos
         (findall OcrAws.flags_cnpj padrao (OcrAws.limpar_texto texto)))
    OcrAws.padroes_cnpj.

(** A candidate is accepted when it has exactly 14 digits and passes
    the validation. *)
Definition aceito (c : str) : bool :=
  (List.length c =? 14)%nat && OcrAws.validacao_basica c.

(** What one matched token contributes to the candidates of the amount
    extractor: its value with its weight when it parses and lies in the
    accepted range, nothing otherwise. *)
Definition candidato (linha match_ : str) : list (Q * Z) :=
  match OcrAws.normalizar match_ with
  | Some valor =>
      if OcrAws.valor_valido valor then [(valor, OcrAws.peso_de linha valor)] else []
  | None => []
  end.

(** The candidates of one stripped, non-empty line: every pattern, every match. *)
Definition candidatos_linha (linha : str) : list (Q * Z) :=
  flat_map
    (fun padrao => flat_map (candidato linha) (findall OcrAws.flags_valor padrao linha))
    OcrAws.padroes_valor.

(** The candidates of a text: every line that is not blank. *)
Definition candidatos_valor (texto : str) : list (Q * Z) :=
  flat_map
    (fun linha => match strip linha with [] => [] | l => candidatos_linha l end)
    (split 10%N texto).

(** [a] does not come after [b] in the order of the sort key: a smaller
    weight, or the same weight and a value not larger. *)
Definition chave_le (a b : Q * Z) : Prop :=
  (snd a < snd b)%Z \/ (snd a = snd b /\ (fst a <= fst b)%Q).

(** The words of a pattern, whatever the context: the declarative
    reading against which the matcher is checked. *)
Fixpoint words (f : flags) (r : regex) (w : str) : Prop :=
  match r with
  | Eps => w = []
  | One c => exists x, w = [x] /\ cls_match f c x = true
  | Seq r1 r2 => exists w1 w2, w = w1 ++ w2 /\ words f r1 w1 /\ words f r2 w2
  | Alt r1 r2 => words f r1 w \/ words f r2 w
  | Star c => Forall (fun x => cls_match f c x = true) w
  | Group r1 => words f r1 w
  | Bol => w = []
  | Eol => w = []
  end.

(** Every group of the pattern captures only words satisfying [G]. *)
Fixpoint groups_ok (f : flags) (G : str -> Prop) (r : regex) : Prop :=
  match r with
  | Seq r1 r2 => groups_ok f G r1 /\ groups_ok f G r2
  | Alt r1 r2 => groups_ok f G r1 /\ groups_ok f G r2
  | Group r1 => (forall w, words f r1 w -> G w) /\ groups_ok f G r1
  | _ => True
  end.

(** Every way through the pattern goes through a group. *)
Fixpoint must_group (r : regex) : bool :=
  match r with
  | Seq r1 r2 => must_group r1 || must_group r2
  | Alt r1 r2 => must_group r1 && must_group r2
  | Group _ => true
  | _ => false
  end.

(** The shape of an amount token: one to six digits, at most one
    separator (comma or point), two digits. *)
Definition token_valor (m : str) : Prop :=
  exists inteiros sep centavos,
    m = inteiros ++ sep ++ centavos
    /\ Forall (fun d => isdecimal d = true) inteiros
    /\ (1 <= List.length inteiros <= 6)%nat
    /\ (sep = [] \/ sep = u "," \/ sep = u ".")
    /\ Forall (fun d => isdecimal d = true) centavos
    /\ List.length centavos = 2%nat.

(** [p] occurs as a substring of [s]. *)
Definition ocorre_em (p s : str) : Prop := exists a b, s = a ++ p ++ b.

(** One of the keywords occurs in the lower-cased description. *)
Definition tem_palavra (palavras_chave : list str) (descricao : str) : Prop :=
  exists palavra, In palavra palavras_chave /\ ocorre_em palavra (lower descricao).

(** The record the batch keeps for an image, given how its processing
    ended: the record produced, or the degraded record when it raised. *)
Definition registro_de (caminho_imagem : Main.Path) (r : Exc.result Main.resultado)
    : Main.resultado :=
  match r with
  | inr d => d
  | inl _ => Main.resultado_com_erro caminho_imagem
  end.

(** The category lines of a report. *)
Definition linhas_de (r : Categorizador.relatorio) : list Categorizador.linha :=
  match r with
  | Categorizador.Sem_gastos => []
  | Categorizador.Relatorio _ ls => ls
  end.

(** The bar of the specification: the total divided by the largest
    total, scaled to the maximal width of 30 blocks. *)
Definition barra_proporcional (valor valor_maximo : Q) : nat :=
  Categorizador.blocos (int_of_float (fmul (fdiv valor valor_maximo) 30)).

(** The bar of the console report: one block for every 3.33 of percentage. *)
Definition barra_percentual (percentual : Q) : nat :=
  Categorizador.blocos (int_of_float (fdiv percentual (float_of_decimal (333 # 100)))).

(** Floats added one after the other, from 0.0 on, as a loop does with
    [+=]. *)
Definition soma_corrente (valores : list Q) : Q := fold_left fadd valores 0%Q.

(** Category and total of a line. *)
Definition item_de (l : Categorizador.linha) : str * Q :=
  (Categorizador.categoria l, Categorizador.valor l).

(** Two receipts of 10.00 each, in two categories. *)
Definition dois_gastos : list Main.resultado :=
  [ {| Main.arquivo := u "a.jpg"; Main.cnpj := None; Main.valor := 10%Q;
       Main.empresa := u "Padaria"; Main.atividade := u "padaria";
       Main.categoria := u "Alimentação"; Main.texto_completo := [] |};
    {| Main.arquivo := u "b.jpg"; Main.cnpj := None; Main.valor := 10%Q;
       Main.empresa := u "Posto"; Main.atividade := u "posto";
       Main.categoria := u "Transporte"; Main.texto_completo := [] |} ].

(** A run of the services used in the examples: the client is always
    created; the first image reads as a bakery receipt whose registry
    answer cannot be decoded, the second as a filling-station receipt,
    and any other image cannot be read. *)
Definition exemplo_boto3 (region_name : str) : Exc.result unit := inr tt.

Definition exemplo_textract (caminho_imagem : str) : Exc.result (list str) :=
  if endswith (u "a.jpg") caminho_imagem then
    inr [u "PADARIA X"; u "CNPJ: 11.222.333/0001-81"; u "TOTAL R$ 45,90"]
  else if endswith (u "b.jpg") caminho_imagem then
    inr [u "POSTO Y"; u "CNPJ: 12.345.678/0001-95"; u "TOTAL R$ 100,00"]
  else inl (Exc.OtherException (u "arquivo ilegivel")).

Definition exemplo_requests (url : str) : Exc.result Categorizador.response :=
  if endswith (u "11222333000181") url then
    inr {| Categorizador.status_code := 200;
           Categorizador.json := inl (Exc.OtherException (u "corpo invalido")) |}
  else
    inr {| Categorizador.status_code := 200;
           Categorizador.json :=
             inr [(u "razao_social", u "POSTO Y LTDA");
                  (u "cnae_fiscal_descricao", u "Posto de combustíveis")] |}.

(** Every whitespace character of the string is a blank, and no two
    blanks are adjacent ([antes] tells that a blank stands just before). *)
Fixpoint espacos_unicos (s : str) (antes : bool) : bool :=
  match s with
  | [] => true
  | x :: s' =>
      if isspace x then (x =? 32)%N && negb antes && espacos_unicos s' true
      else espacos_unicos s' false
  end.

(** The characters the cleaning of [extrair_cnpj] keeps. *)
Definition mantido (x : char) : bool :=
  cls_match no_flags (Any_of [Word; Space; Ch "."; Ch "-"; Ch "/"]) x.

(** The string has no newline on either side of the cursor. *)
Definition sem_quebra (cu : cursor) : Prop :=
  ~ In 10%N (seen cu) /\ ~ In 10%N (rest cu).

(** The usual writing of a CNPJ of 14 digits: 12.345.678/0001-95. *)
Definition formatar_cnpj (d : str) : str :=
  match d with
  | [d0; d1; d2; d3; d4; d5; d6; d7; d8; d9; d10; d11; d12; d13] =>
      [d0; d1; 46; d2; d3; d4; 46; d5; d6; d7; 47; d8; d9; d10; d11; 45; d12; d13]%N
  | _ => d
  end.

Definition exemplo_imagens : list Main.Path :=
  [ {| Main.parent := u "canhotos"; Main.name := u "a.jpg" |};
    {| Main.parent := u "canhotos"; Main.name := u "b.jpg" |};
    {| Main.parent := u "canhotos"; Main.name := u "c.png" |} ].

End Enunciados.

End Spec.

(* ================================================================== *)
(** ** General facts on lists and strings *)

Module Aux.
Import Py.

Section Geral.
Context {U : Unicode}.



Lemma startswith_app (p s : str) :
  startswith p s = true <-> exists b, s = p ++ b.
Proof.
  revert s; induction p as [|x p IH]; intros s; simpl.
  - split; [intros _; now exists s|reflexivity].
  - destruct s as [|y s].
    + split; [discriminate|]. intros [b H]. discriminate.
    + rewrite andb_true_iff, N.eqb_eq, IH. split.
      * intros [-> [b ->]]. now exists b.
      * intros [b H]. injection H as -> ->. split; [reflexivity|now exists b].
Qed.

(** [p in s] holds exactly when [p] is a substring of [s]. *)
Lemma contains_iff (p s : str) :
  contains p s = true <-> exists a b, s = a ++ p ++ b.
Proof.
  induction s as [|y s IH].
  - simpl. rewrite orb_false_r, startswith_app. split.
    + intros [b H]. now exists [], b.
    + intros (a & b & H). destruct a as [|z a]; [now exists b|discriminate].
  - cbn [contains]. rewrite orb_true_iff, startswith_app, IH. split.
    + intros [[b H]|(a & b & H)].
      * now exists [], b.
      * exists (y :: a), b. now rewrite H.
    + intros (a & b & H). destruct a as [|z a].
      * left. now exists b.
      * right. injection H as _ H. now exists a, b.
Qed.

(** *** Letter case in Latin-1 *)

Lemma lower_latin1_casos (c : char) :
  (lower_latin1 c = c /\ ~ (65 <= c <= 90)%N /\ ~ (192 <= c <= 222 /\ c <> 215)%N)
  \/ (lower_latin1 c = (c + 32)%N /\ ((65 <= c <= 90)%N \/ (192 <= c <= 222)%N)).
Proof.
  unfold lower_latin1, isupper_ascii, between.
  repeat (match goal with
          | |- context [(?a <=? ?b)%N] => destruct (N.leb_spec a b)
          | |- context [(?a =? ?b)%N] => destruct (N.eqb_spec a b)
          end; cbn [andb negb]);
    first [left; split; [reflexivity|lia] | right; split; [reflexivity|lia]].
Qed.

Lemma lower_latin1_idem (c : char) : lower_latin1 (lower_latin1 c) = lower_latin1 c.
Proof.
  destruct (lower_latin1_casos c) as [(H & _)|(H & Hc)].
  - now rewrite !H.
  - rewrite H. destruct (lower_latin1_casos (c + 32)%N) as [(H' & _)|(_ & Hc')];
      [exact H'|lia].
Qed.

Lemma lower_latin1_le (c : char) : (c <= 255)%N -> (lower_latin1 c <= 255)%N.
Proof.
  intros Hc. destruct (lower_latin1_casos c) as [(H & _)|(H & Hr)]; rewrite H; lia.
Qed.

(** A character below 'A' is the lower case of itself only. *)
Lemma lower_latin1_pontuacao (a x : char) :
  (a < 65)%N -> lower_latin1 x = lower_latin1 a -> x = a.
Proof.
  intros Ha E.
  destruct (lower_latin1_casos a) as [(Ea & _)|(_ & Hr)]; [|lia].
  rewrite Ea in E.
  destruct (lower_latin1_casos x) as [(Ex & _)|(Ex & Hr)]; rewrite Ex in E; lia.
Qed.

End Geral.

End Aux.

(* ================================================================== *)
(** ** The matcher against the words of a pattern *)

Module ReTheory.
Import Py Re Spec.

Section Geral.
Context {U : Unicode}.

Definition cap_inv (G : str -> Prop) (c : option str) : Prop :=
  forall w, c = Some w -> G w.

(** What a successful run of the matcher over [r] did to the cursor:
    it read a word of [r], and its capture, if any, satisfies [G]. *)
Definition run (f : flags) (G : str -> Prop) (r : regex) (cu cu' : cursor) : Prop :=
  exists w,
    words f r w
    /\ rest cu = w ++ rest cu'
    /\ seen cu' = rev w ++ seen cu
    /\ (cap_inv G (cap cu) -> cap_inv G (cap cu'))
    /\ (must_group r = true \/ cap cu <> None -> cap cu' <> None).

Lemma star_cls_sound (f : flags) (c : cls) (rs sn : str) (cp : option str)
    (k : cursor -> option cursor) (res : cursor) :
  star_cls f c sn rs cp k = Some res ->
  exists w rs',
    Forall (fun x => cls_match f c x = true) w
    /\ rs = w ++ rs'
    /\ k {| seen := rev w ++ sn; rest := rs'; cap := cp |} = Some res.
Proof.
  revert sn. induction rs as [|x rs IH]; intros sn; simpl.
  - intros H. exists [], []. auto.
  - destruct (cls_match f c x) eqn:E.
    + destruct (star_cls f c (x :: sn) rs cp k) as [r'|] eqn:S.
      * intros [= <-]. destruct (IH _ S) as (w & rs' & Hw & -> & Hk).
        exists (x :: w), rs'. repeat split; auto.
        simpl. now rewrite <- app_assoc.
      * intros H. exists [], (x :: rs). auto.
    + intros H. exists [], (x :: rs). auto.
Qed.

(** Soundness of the matcher: when it succeeds, the continuation was
    entered at a cursor reached by reading a word of the pattern. *)
Lemma rmatch_sound (f : flags) (G : str -> Prop) (r : regex) :
  groups_ok f G r ->
  forall cu k res,
    rmatch f r cu k = Some res ->
    exists cu', run f G r cu cu' /\ k cu' = Some res.
Proof.
  unfold run. induction r as [|c|r1 IH1 r2 IH2|r1 IH1 r2 IH2|c|r1 IH1| |];
    intros Hok cu k res; cbn [rmatch].
  - intros H. exists cu. split; [|exact H].
    exists []. simpl. repeat split; auto. intros [H'|H']; [discriminate|exact H'].
  - destruct (rest cu) as [|x tl] eqn:E; [discriminate|].
    destruct (cls_match f c x) eqn:M; [|discriminate].
    intros H. eexists. split; [|exact H].
    exists [x]. simpl. repeat split; auto.
    + now exists x.
    + intros [H'|H']; [discriminate|exact H'].
  - destruct Hok as [Hok1 Hok2]. intros H.
    destruct (IH1 Hok1 _ _ _ H) as (cu1 & (w1 & Hw1 & Hr1 & Hs1 & Hc1 & Hm1) & H1).
    destruct (IH2 Hok2 _ _ _ H1) as (cu2 & (w2 & Hw2 & Hr2 & Hs2 & Hc2 & Hm2) & H2).
    exists cu2. split; [|exact H2].
    exists (w1 ++ w2). repeat split.
    + now exists w1, w2.
    + now rewrite Hr1, Hr2, app_assoc.
    + now rewrite Hs2, Hs1, rev_app_distr, app_assoc.
    + auto.
    + cbn [must_group]. rewrite orb_true_iff. intros [[Hm|Hm]|Hm]; auto.
  - destruct Hok as [Hok1 Hok2].
    destruct (rmatch f r1 cu k) as [res1|] eqn:R1.
    + intros [= <-].
      destruct (IH1 Hok1 _ _ _ R1) as (cu1 & (w1 & Hw1 & Hr1 & Hs1 & Hc1 & Hm1) & H1).
      exists cu1. split; [|exact H1]. exists w1.
      split; [now left|]. repeat split; auto.
      cbn [must_group]. rewrite andb_true_iff. intros [[Hm _]|Hm]; auto.
    + intros R2.
      destruct (IH2 Hok2 _ _ _ R2) as (cu2 & (w2 & Hw2 & Hr2 & Hs2 & Hc2 & Hm2) & H2).
      exists cu2. split; [|exact H2]. exists w2.
      split; [now right|]. repeat split; auto.
      cbn [must_group]. rewrite andb_true_iff. intros [[_ Hm]|Hm]; auto.
  - intros H. destruct (star_cls_sound _ _ _ _ _ _ _ H) as (w & rs' & Hw & Hrs & Hk).
    eexists. split; [|exact Hk].
    exists w. simpl. repeat split; auto.
    intros [H'|H']; [discriminate|exact H'].
  - destruct Hok as [HG Hok1]. intros H.
    destruct (IH1 Hok1 _ _ _ H) as (cu1 & (w1 & Hw1 & Hr1 & Hs1 & Hc1 & Hm1) & H1).
    eexists. split; [|exact H1].
    exists w1. cbn [seen rest cap words]. repeat split; auto.
    + intros _ w [= <-]. apply HG.
      rewrite Hs1, length_app, length_rev, Nat.add_sub.
      rewrite <- (length_rev w1), firstn_app, Nat.sub_diag, firstn_all.
      simpl. rewrite app_nil_r, rev_involutive. exact Hw1.
    + intros _. discriminate.
  - destruct (at_bol f cu); [|discriminate]. intros H.
    exists cu. split; [|exact H]. exists []. simpl. repeat split; auto.
    intros [H'|H']; [discriminate|exact H'].
  - destruct (at_eol f cu); [|discriminate]. intros H.
    exists cu. split; [|exact H]. exists []. simpl. repeat split; auto.
    intros [H'|H']; [discriminate|exact H'].
Qed.

(** What [findall] reports comes from a successful attempt somewhere
    in the string. *)
Lemma scan_In (f : flags) (r : regex) (m : str) (rs sn : str) (skip : nat) :
  In m (scan f r sn rs skip) ->
  exists sn' rs' cu, match_here f r sn' rs' = Some cu /\ m = group1 cu.
Proof.
  revert sn skip. induction rs as [|x rs IH]; intros sn skip.
  - destruct skip; simpl; [|intros []].
    destruct (match_here f r sn []) as [cu|] eqn:E; [|intros []].
    intros [<-|[]]. now exists sn, [], cu.
  - destruct skip as [|n]; cbn [scan].
    + destruct (match_here f r sn (x :: rs)) as [cu|] eqn:E.
      * intros [<-|H]; [now exists sn, (x :: rs), cu|exact (IH _ _ H)].
      * apply IH.
    + apply IH.
Qed.

(** Every string reported by [findall] for a pattern all of whose
    ways go through a group satisfies what the groups guarantee. *)
Lemma findall_grupo (f : flags) (G : str -> Prop) (r : regex) (s m : str) :
  groups_ok f G r -> must_group r = true ->
  In m (findall f r s) -> G m.
Proof.
  intros Hok Hmust Hin. apply scan_In in Hin.
  destruct Hin as (sn & rs & cu & Hm & ->).
  unfold match_here in Hm.
  destruct (rmatch_sound f G r Hok _ _ _ Hm) as (cu' & (w & _ & _ & _ & Hc & Hn) & [= ->]).
  simpl in Hc, Hn. unfold group1.
  destruct (cap cu) as [g|] eqn:E.
  - apply Hc; [intros ? [=]|reflexivity].
  - exfalso. apply Hn; auto.
Qed.

(** *** Words of the repetitions *)

Lemma words_Rep (f : flags) (c : cls) (n : nat) (w : str) :
  words f (Rep n (One c)) w ->
  List.length w = n /\ Forall (fun x => cls_match f c x = true) w.
Proof.
  revert w. induction n as [|n IH]; intros w; simpl.
  - intros ->. auto.
  - intros (w1 & w2 & -> & (x & -> & Hx) & H2).
    destruct (IH _ H2) as [Hl Hf]. simpl. split; [now rewrite Hl|now constructor].
Qed.

Lemma words_Upto (f : flags) (c : cls) (n : nat) (w : str) :
  words f (Upto n (One c)) w ->
  (List.length w <= n)%nat /\ Forall (fun x => cls_match f c x = true) w.
Proof.
  revert w. induction n as [|n IH]; intros w; simpl.
  - intros ->. auto.
  - intros [(w1 & w2 & -> & (x & -> & Hx) & H2)| ->].
    + destruct (IH _ H2) as [Hl Hf]. simpl. split; [lia|now constructor].
    + simpl. split; [lia|constructor].
Qed.

Lemma words_Range (f : flags) (c : cls) (lo hi : nat) (w : str) :
  words f (Range lo hi (One c)) w ->
  (lo <= List.length w <= lo + (hi - lo))%nat
  /\ Forall (fun x => cls_match f c x = true) w.
Proof.
  intros (w1 & w2 & -> & H1 & H2).
  apply words_Rep in H1. apply words_Upto in H2.
  destruct H1 as [<- F1], H2 as [L2 F2].
  rewrite length_app. split; [lia|]. apply Forall_app. auto.
Qed.

Lemma groups_ok_Cat (f : flags) (G : str -> Prop) (rs : list regex) :
  Forall (groups_ok f G) rs -> groups_ok f G (Cat rs).
Proof. induction 1; simpl; auto. Qed.

Lemma groups_ok_Str (f : flags) (G : str -> Prop) (s : string) :
  groups_ok f G (Str s).
Proof.
  unfold Str. apply groups_ok_Cat. apply Forall_forall.
  intros r Hin. apply in_map_iff in Hin. destruct Hin as (c & <- & _). exact I.
Qed.

(** With or without [re.IGNORECASE], a literal below 'A' (a digit, a
    punctuation mark) is matched by itself only. *)
Lemma literal_sem_caixa (f : flags) (a x : char) :
  (a < 65)%N -> cls_match f (Lit a) x = true -> x = a.
Proof.
  intros Ha. cbn [cls_match]. rewrite orb_true_iff, andb_true_iff, N.eqb_eq.
  intros [E|[_ E]]; [exact E|].
  unfold ignorecase_eq in E.
  destruct ((a <=? 255)%N && (x <=? 255)%N) eqn:L.
  - apply N.eqb_eq in E. now apply Aux.lower_latin1_pontuacao.
  - exfalso. apply andb_false_iff in L. destruct L as [L|L]; apply N.leb_gt in L; [lia|].
    pose proof (ucd_ignorecase_latin1 a x ltac:(lia) L E) as Hin.
    destruct (Aux.lower_latin1_casos a) as [(Ea & _)|(_ & Hr)]; [|lia].
    rewrite Ea in Hin. simpl in Hin.
    repeat (destruct Hin as [Hin|Hin]; [lia|]). exact Hin.
Qed.

(** With or without [re.IGNORECASE], only the comma matches [,] and
    only the point matches [.]. *)
Lemma separador_match (f : flags) (x : char) :
  cls_match f (Any_of [Ch ","; Ch "."]) x = true -> [x] = u "," \/ [x] = u ".".
Proof.
  change (cls_match f (Any_of [Ch ","; Ch "."]) x)
    with (cls_match f (Lit 44%N) x || (cls_match f (Lit 46%N) x || false)).
  intros E. apply orb_true_iff in E. destruct E as [E|E].
  - left. change (u ",") with [44%N]. f_equal. now apply (literal_sem_caixa f).
  - right. rewrite orb_false_r in E. change (u ".") with [46%N]. f_equal.
    now apply (literal_sem_caixa f).
Qed.

End Geral.

End ReTheory.

(* ================================================================== *)
(** ** Properties of [extrair_cnpj] *)

Module CnpjTheory.
Import Py Re OcrAws Spec.

Section Geral.
Context {U : Unicode}.

Lemma so_digitos_filter (m : str) : so_digitos m = filter isdecimal m.
Proof.
  unfold so_digitos, sub_cls.
  induction m as [|x m IH]; [reflexivity|].
  cbn [flat_map filter]. rewrite IH.
  cbn. rewrite orb_false_r. now destruct (isdecimal x).
Qed.

Lemma so_digitos_decimal (m : str) : Forall (fun d => isdecimal d = true) (so_digitos m).
Proof.
  rewrite so_digitos_filter. apply Forall_forall.
  intros x Hx. now apply filter_In in Hx.
Qed.

(** The inner loop returns the first accepted candidate of its list. *)
Lemma percorre_matches_find (matches : list str) :
  percorre_matches matches = find aceito (map so_digitos matches).
Proof.
  induction matches as [|m ms IH]; simpl; [reflexivity|].
  unfold aceito at 1.
  destruct (List.length (so_digitos m) =? 14)%nat; simpl; [|exact IH].
  destruct (validacao_basica (so_digitos m)); [reflexivity|exact IH].
Qed.

Lemma find_app (A : Type) (f : A -> bool) (l1 l2 : list A) :
  find f (l1 ++ l2) = match find f l1 with Some x => Some x | None => find f l2 end.
Proof.
  induction l1 as [|x l1 IH]; simpl; [reflexivity|].
  now destruct (f x).
Qed.

(** The outer loop returns the first accepted candidate over all patterns. *)
Lemma percorre_padroes_find (padroes : list regex) (texto_limpo : str) :
  percorre_padroes padroes texto_limpo =
  find aceito
    (flat_map (fun padrao => map so_digitos (findall flags_cnpj padrao texto_limpo)) padroes).
Proof.
  induction padroes as [|p ps IH]; simpl; [reflexivity|].
  rewrite find_app, <- percorre_matches_find, IH. reflexivity.
Qed.

Lemma extrair_cnpj_find (texto : str) :
  extrair_cnpj texto = find aceito (candidatos_cnpj texto).
Proof. apply percorre_padroes_find. Qed.

Lemma find_split (A : Type) (f : A -> bool) (l : list A) :
  match find f l with
  | Some x => exists l1 l2, l = l1 ++ x :: l2 /\ f x = true /\ Forall (fun y => f y = false) l1
  | None => Forall (fun y => f y = false) l
  end.
Proof.
  induction l as [|y l IH]; simpl; [constructor|].
  destruct (f y) eqn:E.
  - exists [], l. repeat split; auto.
  - destruct (find f l) as [x|].
    + destruct IH as (l1 & l2 & -> & Hx & Hl1).
      exists (y :: l1), l2. repeat split; auto.
    + constructor; auto.
Qed.

Lemma find_nenhum (A : Type) (f : A -> bool) (l : list A) :
  Forall (fun y => f y = false) l -> find f l = None.
Proof.
  induction 1 as [|x l Hx _ IH]; [reflexivity|]. cbn [find]. now rewrite Hx.
Qed.



End Geral.


Section Geral.
Context {U : Unicode}.

(** C5. The four patterns are tried in the declared order: the
    labelled CNPJ with optional punctuation, the labelled run of 14
    digits, the isolated run of 14 digits, the isolated punctuated CNPJ;
    for one pattern the matches are taken from left to right.  The
    first candidate of this list that has 14 digits and passes the
    validation is returned, wherever the candidates after it stand in
    the text; when every candidate is rejected the result is [None]. *)
Theorem extrair_cnpj_primeiro_aceito (texto : str) :
  let achados padrao := map so_digitos (findall flags_cnpj padrao (limpar_texto texto)) in
  let candidatos :=
    achados padrao_cnpj_formatado ++ achados padrao_cnpj_sem_formatacao
      ++ achados padrao_14_digitos ++ achados padrao_formatado_isolado in
  (forall antes c depois,
      candidatos = antes ++ c :: depois ->
      aceito c = true ->
      Forall (fun x => aceito x = false) antes ->
      extrair_cnpj texto = Some c)
  /\ (Forall (fun x => aceito x = false) candidatos -> extrair_cnpj texto = None)
  /\ (forall c, extrair_cnpj texto = Some c ->
        exists antes depois,
          candidatos = antes ++ c :: depois
          /\ aceito c = true
          /\ Forall (fun x => aceito x = false) antes).
Proof.
  intros achados candidatos.
  assert (E : extrair_cnpj texto = find aceito candidatos).
  { rewrite extrair_cnpj_find. unfold candidatos_cnpj, padroes_cnpj, candidatos, achados.
    cbn [flat_map]. now rewrite app_nil_r. }
  rewrite E. split; [|split].
  - intros antes c depois Hcand Hc Hantes.
    rewrite Hcand, find_app, (find_nenhum _ _ _ Hantes). cbn [find]. now rewrite Hc.
  - apply find_nenhum.
  - intros c Hc. pose proof (find_split _ aceito candidatos) as H. rewrite Hc in H.
    exact H.
Qed.

End Geral.

(** An earlier pattern wins over a later one whose match stands first
    in the text: the labelled CNPJ is returned, although the isolated
    punctuated CNPJ before it is valid too and is found by the fourth
    pattern. *)
Lemma extrair_cnpj_primeiro_aceito_witness :
  extrair_cnpj (u "12.345.678/0001-95 CNPJ: 11.222.333/0001-81") = Some (u "11222333000181")
  /\ map so_digitos
       (findall flags_cnpj padrao_formatado_isolado
          (limpar_texto (u "12.345.678/0001-95 CNPJ: 11.222.333/0001-81")))
     = [u "12345678000195"; u "11222333000181"]
  /\ aceito (u "12345678000195") = true.
Proof.
  split; [|split; reflexivity].
  apply (proj1 (extrair_cnpj_primeiro_aceito
                  (u "12.345.678/0001-95 CNPJ: 11.222.333/0001-81"))
           [] (u "11222333000181") [u "12345678000195"; u "11222333000181"]).
  - vm_compute. reflexivity.
  - reflexivity.
  - constructor.
Defined.

Section Geral.
Context {U : Unicode}.

(** An anchored identifier is preferred to an isolated one that stands
    earlier in the text, and rejected candidates are passed over. *)
Example extrair_cnpj_precedencia :
  extrair_cnpj (u "12345678000195 CNPJ: 11.222.333/0001-81") = Some (u "11222333000181")
  /\ extrair_cnpj (u "CNPJ 11111111111111 e 00000123456789 e 12345678000195")
     = Some (u "12345678000195")
  /\ extrair_cnpj (u "CNPJ 11111111111111 e 00000123456789") = None.
Proof. repeat split; vm_compute; reflexivity. Qed.

End Geral.

End CnpjTheory.

(* ================================================================== *)
(** ** Properties of [extrair_valor_total] *)

Module ValorTheory.
Import Py Re OcrAws Spec.

Section Geral.
Context {U : Unicode}.

Lemma passo_match_app (linha : str) (acc : list (Q * Z)) (m : str) :
  passo_match linha acc m = acc ++ candidato linha m.
Proof.
  unfold passo_match, candidato.
  destruct (normalizar m) as [v|]; [|now rewrite app_nil_r].
  destruct (valor_valido v); [reflexivity|now rewrite app_nil_r].
Qed.

Lemma passo_padrao_app (linha : str) (acc : list (Q * Z)) (padrao : regex) :
  passo_padrao linha acc padrao =
  acc ++ flat_map (candidato linha) (findall flags_valor padrao linha).
Proof.
  unfold passo_padrao.
  generalize (findall flags_valor padrao linha) as ms.
  intros ms; revert acc; induction ms as [|m ms IH]; intros acc; simpl.
  - now rewrite app_nil_r.
  - rewrite IH, passo_match_app, app_assoc. reflexivity.
Qed.

Lemma percorre_padroes_app (linha : str) (padroes : list regex) (acc : list (Q * Z)) :
  fold_left (passo_padrao linha) padroes acc =
  acc ++ flat_map
           (fun padrao => flat_map (candidato linha) (findall flags_valor padrao linha))
           padroes.
Proof.
  revert acc; induction padroes as [|p ps IH]; intros acc; simpl.
  - now rewrite app_nil_r.
  - rewrite IH, passo_padrao_app, app_assoc. reflexivity.
Qed.

Lemma passo_linha_app (acc : list (Q * Z)) (linha : str) :
  passo_linha acc linha =
  acc ++ match strip linha with [] => [] | l => candidatos_linha l end.
Proof.
  unfold passo_linha. destruct (strip linha) as [|c l] eqn:E.
  - now rewrite app_nil_r.
  - apply percorre_padroes_app.
Qed.

(** The three nested loops collect the candidates of every line, every
    pattern and every match, in that order. *)
Lemma valores_encontrados_todos (texto : str) :
  valores_encontrados texto = candidatos_valor texto.
Proof.
  unfold valores_encontrados, candidatos_valor.
  generalize (split 10%N texto) as linhas.
  assert (H : forall linhas acc,
             fold_left passo_linha linhas acc =
             acc ++ flat_map
                      (fun linha => match strip linha with [] => [] | l => candidatos_linha l end)
                      linhas).
  { induction linhas as [|l ls IH]; intros acc; simpl.
    - now rewrite app_nil_r.
    - rewrite IH, passo_linha_app, app_assoc. reflexivity. }
  intros linhas. apply (H linhas []).
Qed.

Lemma valor_valido_faixa (v : Q) :
  valor_valido v = true <-> (1 # 100 <= v /\ v <= 99999999 # 100)%Q.
Proof.
  unfold valor_valido. rewrite andb_true_iff, !Qle_bool_iff. tauto.
Qed.

Lemma candidato_In (linha m : str) (v : Q) (p : Z) :
  In (v, p) (candidato linha m) <->
  normalizar m = Some v /\ valor_valido v = true /\ p = peso_de linha v.
Proof.
  unfold candidato. destruct (normalizar m) as [w|].
  - destruct (valor_valido w) eqn:E; simpl.
    + split.
      * intros [H|[]]. injection H as <- <-. auto.
      * intros (H & _ & ->). injection H as ->. now left.
    + split; [tauto|]. intros (H & H' & _). injection H as ->. congruence.
  - simpl. split; [tauto|]. intros (H & _). discriminate.
Qed.

(** Where a collected pair comes from. *)
Lemma valores_encontrados_In (texto : str) (v : Q) (p : Z) :
  In (v, p) (valores_encontrados texto) <->
  exists linha padrao m,
    In linha (split 10%N texto) /\ strip linha <> []
    /\ In padrao padroes_valor
    /\ In m (findall flags_valor padrao (strip linha))
    /\ normalizar m = Some v /\ valor_valido v = true
    /\ p = peso_de (strip linha) v.
Proof.
  rewrite valores_encontrados_todos. unfold candidatos_valor.
  rewrite in_flat_map. split.
  - intros (linha & Hl & Hin).
    destruct (strip linha) as [|c l] eqn:E; [destruct Hin|].
    unfold candidatos_linha in Hin. apply in_flat_map in Hin.
    destruct Hin as (padrao & Hp & Hin). apply in_flat_map in Hin.
    destruct Hin as (m & Hm & Hin). apply candidato_In in Hin.
    exists linha, padrao, m. rewrite E. intuition congruence.
  - intros (linha & padrao & m & Hl & Hne & Hp & Hm & Hn & Hv & Hw).
    exists linha. split; [exact Hl|].
    destruct (strip linha) as [|c l] eqn:E; [congruence|].
    unfold candidatos_linha. apply in_flat_map. exists padrao. split; [exact Hp|].
    apply in_flat_map. exists m. split; [exact Hm|]. now apply candidato_In.
Qed.

Lemma valores_encontrados_validos (texto : str) (v : Q) (p : Z) :
  In (v, p) (valores_encontrados texto) -> (1 # 100 <= v /\ v <= 99999999 # 100)%Q.
Proof.
  intros H. apply valores_encontrados_In in H.
  destruct H as (? & ? & ? & _ & _ & _ & _ & _ & Hv & _).
  now apply valor_valido_faixa.
Qed.

(** *** The tokens the patterns capture *)

Lemma words_corpo_valor (lo : nat) (sep : regex) (w : str) :
  (lo <= 6)%nat ->
  (forall w', words flags_valor sep w' -> w' = [] \/ w' = u "," \/ w' = u ".") ->
  words flags_valor (Cat [Range 1 lo D; sep; Rep 2 D]) w ->
  token_valor w.
Proof.
  intros Hlo Hsep (w1 & w2 & -> & H1 & w3 & w4 & -> & H3 & w5 & w6 & -> & H5 & ->).
  apply ReTheory.words_Range in H1. apply ReTheory.words_Rep in H5.
  destruct H1 as [L1 F1], H5 as [L5 F5].
  exists w1, w3, w5. rewrite app_nil_r. repeat split; auto; lia.
Qed.

Lemma grupo_valor_ok : groups_ok flags_valor token_valor grupo_valor.
Proof.
  split; [|apply ReTheory.groups_ok_Cat; repeat constructor].
  intros w. apply words_corpo_valor; [lia|].
  intros w' [(x & -> & Hx)| ->]; [right; now apply (ReTheory.separador_match flags_valor)|now left].
Qed.

Lemma padroes_valor_ok (padrao : regex) :
  In padrao padroes_valor ->
  groups_ok flags_valor token_valor padrao /\ must_group padrao = true.
Proof.
  intros Hin. split.
  - simpl in Hin.
    destruct Hin as [<-|[<-|[<-|[<-|[<-|[<-|[]]]]]]];
      apply ReTheory.groups_ok_Cat; cbn [app apos_palavra];
      repeat first
        [ apply grupo_valor_ok
        | apply ReTheory.groups_ok_Str
        | exact I
        | apply Forall_cons
        | apply Forall_nil
        | split
        | apply ReTheory.groups_ok_Cat ].
    + intros w. apply words_corpo_valor; [lia|].
      intros w' (x & -> & Hx). right. now apply (ReTheory.separador_match flags_valor).
  - simpl in Hin.
    destruct Hin as [<-|[<-|[<-|[<-|[<-|[<-|[]]]]]]]; vm_compute; reflexivity.
Qed.

(** Whatever the line, every pattern captures tokens of one to six
    digits, at most one separator, and two digits. *)
Lemma findall_token_valor (linha : str) (padrao : regex) (m : str) :
  In padrao padroes_valor ->
  In m (findall flags_valor padrao linha) ->
  token_valor m.
Proof.
  intros Hp Hm. destruct (padroes_valor_ok padrao Hp) as [Hok Hmust].
  exact (ReTheory.findall_grupo flags_valor token_valor padrao linha m Hok Hmust Hm).
Qed.

(** Such a token never holds both a comma and a point. *)
Lemma token_valor_um_separador (m : str) :
  token_valor m -> ~ (In 44%N m /\ In 46%N m).
Proof.
  intros (i & s & c & -> & Fi & _ & Hs & Fc & _) [H44 H46].
  assert (Hd : forall l x, Forall (fun d => isdecimal d = true) l ->
                 In x l -> x <> 44%N /\ x <> 46%N).
  { intros l x Fl Hx. rewrite Forall_forall in Fl. specialize (Fl x Hx).
    split; intros ->; discriminate. }
  assert (H : forall x, In x (i ++ s ++ c) -> (x = 44 \/ x = 46)%N -> In x s).
  { intros x Hx Hv. rewrite !in_app_iff in Hx.
    destruct Hx as [Hx|[Hx|Hx]]; [|exact Hx|].
    - destruct (Hd i x Fi Hx). destruct Hv; contradiction.
    - destruct (Hd c x Fc Hx). destruct Hv; contradiction. }
  apply H in H44; [|now left]. apply H in H46; [|now right].
  destruct Hs as [ -> | [ -> | -> ] ]; simpl in H44, H46; intuition discriminate.
Qed.

(** *** The values of the tokens *)

Lemma decimal_limite (d : char) : isdecimal d = true -> (decimal d < 10)%N.
Proof.
  unfold isdecimal, decimal. destruct (d <=? 255)%N.
  - unfold isdecimal_latin1, between. rewrite andb_true_iff, !N.leb_le. lia.
  - apply ucd_decimal_digit.
Qed.

Lemma replace_ausente (old : char) (new s : str) :
  ~ In old s -> replace old new s = s.
Proof.
  unfold replace. induction s as [|x s IH]; [reflexivity|].
  intros Hn. cbn [flat_map]. rewrite IH by (intros H; apply Hn; now right).
  destruct (N.eqb_spec x old) as [->|_]; [|reflexivity].
  exfalso. apply Hn. now left.
Qed.

Lemma replace_app (old : char) (new a b : str) :
  replace old new (a ++ b) = replace old new a ++ replace old new b.
Proof. unfold replace. apply flat_map_app. Qed.

Lemma contains_char (c : char) (s : str) : contains [c] s = true <-> In c s.
Proof.
  rewrite Aux.contains_iff. split.
  - intros (a & b & ->). apply in_or_app. right. now left.
  - intros H. apply in_split in H. destruct H as (a & b & ->). now exists a, b.
Qed.

Lemma contains_char_false (c : char) (s : str) : ~ In c s -> contains [c] s = false.
Proof.
  intros H. destruct (contains [c] s) eqn:E; [|reflexivity].
  apply contains_char in E. contradiction.
Qed.

Lemma split_ausente (sep : char) (s : str) : ~ In sep s -> split sep s = [s].
Proof.
  induction s as [|x s IH]; [reflexivity|].
  intros Hn. cbn [split]. destruct (N.eqb_spec x sep) as [->|_].
  - exfalso. apply Hn. now left.
  - rewrite IH by (intros H; apply Hn; now right). reflexivity.
Qed.

Lemma split_primeiro (sep : char) (a b : str) :
  ~ In sep a -> split sep (a ++ sep :: b) = a :: split sep b.
Proof.
  induction a as [|x a IH]; intros Hn.
  - simpl. now rewrite N.eqb_refl.
  - cbn [app split]. destruct (N.eqb_spec x sep) as [->|_].
    + exfalso. apply Hn. now left.
    + rewrite IH by (intros H; apply Hn; now right). reflexivity.
Qed.

Lemma digitos_sem (x : char) (l : str) :
  Forall (fun d => isdecimal d = true) l -> isdecimal x = false -> ~ In x l.
Proof.
  intros F Hx Hin. rewrite Forall_forall in F. rewrite (F x Hin) in Hx. discriminate.
Qed.

Lemma digitos_forallb (l : str) :
  Forall (fun d => isdecimal d = true) l -> forallb isdecimal l = true.
Proof. intros F. apply forallb_forall. now apply Forall_forall. Qed.

Lemma N_of_digits_limite (l : str) :
  Forall (fun d => isdecimal d = true) l ->
  (N_of_digits l < 10 ^ N.of_nat (List.length l))%N.
Proof.
  unfold N_of_digits. intros F.
  assert (H : forall acc,
            (fold_left (fun a d => a * 10 + decimal d) l acc
             < (acc + 1) * 10 ^ N.of_nat (List.length l))%N).
  { induction F as [|d l Hd F IH]; intros acc.
    - simpl. lia.
    - cbn [fold_left List.length]. apply decimal_limite in Hd.
      eapply N.lt_le_trans; [apply IH|].
      rewrite Nat2N.inj_succ, N.pow_succ_r'. nia. }
  specialize (H 0%N). now rewrite N.mul_1_l in H.
Qed.

Lemma float_inteiro (l : str) :
  Forall (fun d => isdecimal d = true) l -> l <> [] ->
  float l = Some (Qmake (Z.of_N (N_of_digits l)) 1).
Proof.
  intros F Hne. unfold float.
  rewrite split_ausente by (apply (digitos_sem 46%N l F); reflexivity).
  rewrite (digitos_forallb l F). now destruct l.
Qed.

Lemma float_decimal (i c : str) :
  Forall (fun d => isdecimal d = true) i ->
  Forall (fun d => isdecimal d = true) c ->
  i <> [] ->
  float (i ++ 46%N :: c)
  = Some (Qmake (Z.of_N (N_of_digits (i ++ c)))
                (Z.to_pos (10 ^ Z.of_nat (List.length c)))).
Proof.
  intros Fi Fc Hne. unfold float.
  rewrite split_primeiro by (apply (digitos_sem 46%N i Fi); reflexivity).
  rewrite split_ausente by (apply (digitos_sem 46%N c Fc); reflexivity).
  rewrite (digitos_forallb i Fi), (digitos_forallb c Fc). now destruct i.
Qed.

(** Every token of the shape the patterns capture is read by [float]
    (no [ValueError]) as a whole number or as a number of hundredths,
    of at most eight digits. *)
Lemma normalizar_token (m : str) :
  token_valor m ->
  exists n : N,
    (n < 10 ^ 8)%N
    /\ (normalizar m = Some (Qmake (Z.of_N n) 1)
        \/ normalizar m = Some (Qmake (Z.of_N n) 100)).
Proof.
  intros (i & s & c & -> & Fi & Li & Hs & Fc & Lc).
  assert (Hi : i <> []) by (intros ->; simpl in Li; lia).
  assert (Fic : Forall (fun d => isdecimal d = true) (i ++ c)) by (apply Forall_app; auto).
  assert (N44 : forall l, Forall (fun d => isdecimal d = true) l -> ~ In 44%N l)
    by (intros l F; apply (digitos_sem 44%N l F); reflexivity).
  assert (N46 : forall l, Forall (fun d => isdecimal d = true) l -> ~ In 46%N l)
    by (intros l F; apply (digitos_sem 46%N l F); reflexivity).
  exists (N_of_digits (i ++ c)). split.
  { eapply N.lt_le_trans; [apply N_of_digits_limite; exact Fic|].
    apply N.pow_le_mono_r; [lia|]. rewrite length_app. lia. }
  assert (Hdec : float (i ++ 46%N :: c) = Some (Qmake (Z.of_N (N_of_digits (i ++ c))) 100)).
  { rewrite float_decimal by auto. now rewrite Lc. }
  unfold normalizar. cbv zeta. destruct Hs as [ -> | [ -> | -> ] ].
  - left. cbn [app].
    rewrite (replace_ausente 44%N (u ".") (i ++ c)) by auto.
    change (u ".") with (@cons char 46%N nil).
    rewrite (contains_char_false 46%N (i ++ c)) by auto.
    cbn [andb]. apply float_inteiro; [exact Fic|].
    destruct i; [congruence|discriminate].
  - right. change (u ",") with (@cons char 44%N nil). change (u ".") with (@cons char 46%N nil).
    assert (R : replace 44%N (@cons char 46%N nil) (i ++ (@cons char 44%N nil) ++ c) = i ++ 46%N :: c).
    { rewrite !replace_app, (replace_ausente 44%N (@cons char 46%N nil) i), (replace_ausente 44%N (@cons char 46%N nil) c)
        by auto. reflexivity. }
    assert (R' : replace 46%N [] (i ++ (@cons char 44%N nil) ++ c) = i ++ (@cons char 44%N nil) ++ c).
    { apply replace_ausente. intros H. apply in_app_or in H.
      destruct H as [H|H]; [exact (N46 i Fi H)|]. simpl in H.
      destruct H as [H|H]; [discriminate|exact (N46 c Fc H)]. }
    rewrite R', R.
    destruct (contains (@cons char 46%N nil) (i ++ 46%N :: c) && contains (@cons char 44%N nil) (i ++ (@cons char 44%N nil) ++ c));
      exact Hdec.
  - right. change (u ".") with (@cons char 46%N nil).
    change (u ",") with (@cons char 44%N nil).
    assert (R : replace 44%N (@cons char 46%N nil) (i ++ (@cons char 46%N nil) ++ c) = i ++ 46%N :: c).
    { apply replace_ausente. intros H. apply in_app_or in H.
      destruct H as [H|H]; [exact (N44 i Fi H)|]. simpl in H.
      destruct H as [H|H]; [discriminate|exact (N44 c Fc H)]. }
    rewrite R.
    rewrite (contains_char_false 44%N (i ++ (@cons char 46%N nil) ++ c)).
    + rewrite andb_false_r. exact Hdec.
    + intros H. apply in_app_or in H.
      destruct H as [H|H]; [exact (N44 i Fi H)|]. simpl in H.
      destruct H as [H|H]; [discriminate|exact (N44 c Fc H)].
Qed.

(** The [except ValueError] of line 162 is never entered. *)
Lemma normalizar_nunca_falha (linha : str) (padrao : regex) (m : str) :
  In padrao padroes_valor ->
  In m (findall flags_valor padrao linha) ->
  normalizar m <> None.
Proof.
  intros Hp Hm.
  destruct (normalizar_token m (findall_token_valor linha padrao m Hp Hm))
    as (n & _ & [H|H]); rewrite H; discriminate.
Qed.

(** *** The sort *)

Lemma chave_ltb_false (a b : Q * Z) : chave_ltb a b = false <-> chave_le b a.
Proof.
  unfold chave_ltb, chave_le.
  rewrite orb_false_iff, andb_false_iff, negb_false_iff, Z.ltb_ge, Z.eqb_neq, Qle_bool_iff.
  split.
  - intros [H1 [H2|H2]]; [left; lia|].
    destruct (Z.eq_dec (snd a) (snd b)); [right; auto|left; lia].
  - intros [H|[H1 H2]].
    + split; [lia|left; lia].
    + split; [lia|now right].
Qed.

Lemma chave_ltb_true (a b : Q * Z) : chave_ltb a b = true -> chave_le a b.
Proof.
  unfold chave_ltb, chave_le.
  rewrite orb_true_iff, andb_true_iff, negb_true_iff, Z.ltb_lt, Z.eqb_eq.
  intros [H|[H1 H2]]; [now left|right]. split; [exact H1|].
  destruct (Qlt_le_dec (fst b) (fst a)) as [Hlt|Hle]; [|exact Hle].
  apply Qlt_le_weak in Hlt. apply Qle_bool_iff in Hlt. congruence.
Qed.

Lemma chave_le_refl (a : Q * Z) : chave_le a a.
Proof. right. split; [reflexivity|apply Qle_refl]. Qed.

Lemma chave_le_trans (a b c : Q * Z) : chave_le a b -> chave_le b c -> chave_le a c.
Proof.
  unfold chave_le. intros [H1|[H1 H2]] [H3|[H3 H4]].
  - left; lia.
  - left; lia.
  - left; lia.
  - right. split; [lia|]. eapply Qle_trans; eauto.
Qed.

Lemma inserir_hd (x d : Q * Z) (l : list (Q * Z)) :
  hd d (inserir x l) =
  match l with
  | [] => x
  | y :: _ => if chave_ltb x y then y else x
  end.
Proof. destruct l as [|y l]; simpl; [reflexivity|]. now destruct (chave_ltb x y). Qed.

Lemma inserir_In (x y : Q * Z) (l : list (Q * Z)) :
  In y (inserir x l) <-> y = x \/ In y l.
Proof.
  induction l as [|z l IH]; simpl.
  - intuition.
  - destruct (chave_ltb x z); simpl; rewrite ?IH; intuition.
Qed.

Lemma ordenar_In (y : Q * Z) (l : list (Q * Z)) : In y (ordenar l) <-> In y l.
Proof.
  induction l as [|x l IH]; simpl; [tauto|].
  rewrite inserir_In, IH. intuition.
Qed.

(** After the sort, the first element is one of the list and no
    element of the list has a larger key. *)
Lemma ordenar_hd_maior (l : list (Q * Z)) (d : Q * Z) :
  l <> [] ->
  In (hd d (ordenar l)) l /\ forall x, In x l -> chave_le x (hd d (ordenar l)).
Proof.
  induction l as [|x l IH]; [congruence|]. intros _.
  cbn [ordenar fold_right]. fold (ordenar l). rewrite inserir_hd.
  destruct (ordenar l) as [|y t] eqn:E.
  - assert (l = []) as ->.
    { destruct l as [|z l']; [reflexivity|].
      assert (In z (ordenar (z :: l'))) by (apply ordenar_In; now left).
      rewrite E in H. destruct H. }
    split; [now left|]. intros z [<-|[]]. apply chave_le_refl.
  - assert (Hl : l <> []).
    { intros ->. discriminate. }
    destruct (IH Hl) as [Hin Hmax]. simpl in Hin, Hmax.
    destruct (chave_ltb x y) eqn:C.
    + split; [now right|]. intros z [<-|Hz]; [now apply chave_ltb_true|auto].
    + split; [now left|]. intros z [<-|Hz]; [apply chave_le_refl|].
      apply chave_le_trans with y; [auto|]. now apply chave_ltb_false.
Qed.

Lemma extrair_valor_total_hd (texto : str) (v : Q * Z) (vs : list (Q * Z)) :
  valores_encontrados texto = v :: vs ->
  extrair_valor_total texto = fst (hd v (ordenar (v :: vs))).
Proof. unfold extrair_valor_total. now intros ->. Qed.

(** The value returned is the value of a collected pair whose key no
    other collected pair exceeds. *)
Lemma extrair_valor_total_maximo (texto : str) :
  valores_encontrados texto <> [] ->
  exists peso,
    In (extrair_valor_total texto, peso) (valores_encontrados texto)
    /\ forall x, In x (valores_encontrados texto) ->
         chave_le x (extrair_valor_total texto, peso).
Proof.
  intros Hne. destruct (valores_encontrados texto) as [|c cs] eqn:E; [congruence|].
  rewrite (extrair_valor_total_hd texto _ _ E).
  destruct (ordenar_hd_maior (c :: cs) c Hne) as [Hin Hmax].
  exists (snd (hd c (ordenar (c :: cs)))).
  rewrite <- surjective_pairing. auto.
Qed.

(** C1. For every text, the pairs collected by [extrair_valor_total]
    are the candidates of every non-blank line, every pattern and every
    match; when there is none the result is exactly 0, and otherwise the
    result is the value of a collected pair of the highest weight and,
    among the pairs of that weight, of the largest value. *)
Theorem extrair_valor_total_maior_peso (texto : str) :
  valores_encontrados texto = candidatos_valor texto
  /\ (valores_encontrados texto = [] -> extrair_valor_total texto = 0%Q)
  /\ (valores_encontrados texto <> [] ->
      exists peso,
        In (extrair_valor_total texto, peso) (valores_encontrados texto)
        /\ forall v p, In (v, p) (valores_encontrados texto) ->
             (p < peso)%Z \/ (p = peso /\ (v <= extrair_valor_total texto)%Q)).
Proof.
  split; [apply valores_encontrados_todos|]. split.
  - unfold extrair_valor_total. now intros ->.
  - intros Hne. destruct (extrair_valor_total_maximo texto Hne) as (peso & Hin & Hmax).
    exists peso. split; [exact Hin|]. intros v p Hvp. exact (Hmax _ Hvp).
Qed.

End Geral.

Lemma extrair_valor_total_maior_peso_witness :
  exists peso,
    In (extrair_valor_total (u "TOTAL R$ 45,90") , peso)
       (valores_encontrados (u "TOTAL R$ 45,90")).
Proof.
  destruct (extrair_valor_total_maior_peso (u "TOTAL R$ 45,90")) as (_ & _ & H).
  destruct H as (peso & Hin & _).
  - vm_compute. discriminate.
  - exists peso. exact Hin.
Defined.

Section Geral.
Context {U : Unicode}.

(** A line marked by a keyword and a currency sign wins over a larger
    amount on a plain line, and without any amount the result is 0. *)
Example extrair_valor_total_exemplos :
  extrair_valor_total [] = 0%Q
  /\ extrair_valor_total (u "sem valores aqui") = 0%Q
  /\ extrair_valor_total (u "ITEM 99,00" ++ [10%N] ++ u "TOTAL R$ 45,90") = (4590 # 100)%Q
  /\ extrair_valor_total (u "12,00 34,00") = (3400 # 100)%Q.
Proof. repeat split; vm_compute; reflexivity. Qed.

(** C6. For every text, the value returned by [extrair_valor_total] is
    exactly 0 or lies between 0.01 and 999999.99, so it is never
    negative; every pair that is collected has its value in that range,
    a parsed value outside it being dropped. *)
Theorem extrair_valor_total_faixa (texto : str) :
  (extrair_valor_total texto = 0%Q
   \/ (1 # 100 <= extrair_valor_total texto /\ extrair_valor_total texto <= 99999999 # 100)%Q)
  /\ (0 <= extrair_valor_total texto)%Q
  /\ (forall v p, In (v, p) (valores_encontrados texto) ->
        (1 # 100 <= v /\ v <= 99999999 # 100)%Q)
  /\ (forall linha m v, normalizar m = Some v ->
        ~ (1 # 100 <= v /\ v <= 99999999 # 100)%Q ->
        passo_match linha (valores_encontrados texto) m = valores_encontrados texto).
Proof.
  assert (H : extrair_valor_total texto = 0%Q
              \/ (1 # 100 <= extrair_valor_total texto
                  /\ extrair_valor_total texto <= 99999999 # 100)%Q).
  { destruct (valores_encontrados texto) as [|c cs] eqn:E.
    - left. unfold extrair_valor_total. now rewrite E.
    - right. destruct (extrair_valor_total_maximo texto) as (peso & Hin & _); [congruence|].
      exact (valores_encontrados_validos _ _ _ Hin). }
  split; [exact H|]. split; [|split].
  - destruct H as [->|[H _]]; [apply Qle_refl|].
    apply Qle_trans with (1 # 100)%Q; [discriminate|exact H].
  - apply valores_encontrados_validos.
  - intros linha m v Hn Hout. unfold passo_match. rewrite Hn.
    destruct (valor_valido v) eqn:E; [|reflexivity].
    apply valor_valido_faixa in E. contradiction.
Qed.

End Geral.

Lemma extrair_valor_total_faixa_witness :
  (1 # 100 <= 4590 # 100 /\ 4590 # 100 <= 99999999 # 100)%Q
  /\ passo_match (u "12345678") (valores_encontrados (u "TOTAL R$ 45,90")) (u "12345678")
     = valores_encontrados (u "TOTAL R$ 45,90").
Proof.
  destruct (extrair_valor_total_faixa (u "TOTAL R$ 45,90")) as (_ & _ & Hin & Hout).
  split.
  - apply (Hin (4590 # 100)%Q 19%Z). vm_compute. tauto.
  - apply (Hout (u "12345678") (u "12345678") (12345678 # 1)%Q).
    + vm_compute. reflexivity.
    + intros [_ H]. vm_compute in H. apply H. reflexivity.
Defined.

Section Geral.
Context {U : Unicode}.

(** C3. The decimal handling alone maps "1.234,56" to 1234.56, as the
    comment of line 141 announces, but a token with both separators has
    not the shape the patterns capture ([findall_token_valor],
    [token_valor_um_separador]): on the line "TOTAL R$ 1.234,56" the
    patterns capture "1.23" and "234,56", and the amount returned is
    234.56 instead of 1234.56.  The tokens "1234.56" and "45,90" are
    read as 1234.56 and 45.90. *)
Theorem valor_com_separador_de_milhar :
  normalizar (u "1.234,56") = Some (123456 # 100)%Q
  /\ ~ token_valor (u "1.234,56")
  /\ map (fun padrao => findall flags_valor padrao (u "TOTAL R$ 1.234,56")) padroes_valor
     = [[u "1.23"]; [u "1.23"]; [u "1.23"]; []; [u "234,56"]; []]
  /\ extrair_valor_total (u "TOTAL R$ 1.234,56") = (23456 # 100)%Q
  /\ map (fun padrao => findall flags_valor padrao (u "1.234,56")) padroes_valor
     = [[]; []; []; []; [u "234,56"]; []]
  /\ extrair_valor_total (u "1.234,56") = (23456 # 100)%Q
  /\ normalizar (u "1234.56") = Some (123456 # 100)%Q
  /\ extrair_valor_total (u "1234.56") = (123456 # 100)%Q
  /\ normalizar (u "45,90") = Some (4590 # 100)%Q
  /\ extrair_valor_total (u "45,90") = (4590 # 100)%Q.
Proof.
  split; [vm_compute; reflexivity|]. split.
  - intros H. apply token_valor_um_separador in H. apply H.
    split; vm_compute; tauto.
  - repeat split; vm_compute; reflexivity.
Qed.

End Geral.

End ValorTheory.

(* ================================================================== *)
(** ** Properties of [categorizar_por_cnae] and [consultar_cnpj_brasilapi] *)

Module CategorizadorTheory.
Import Py Exc Categorizador Spec.

Section Geral.
Context {U : Unicode}.

Lemma percorre_palavras_tem (palavras_chave : list str) (descricao : str) :
  percorre_palavras palavras_chave (lower descricao) = true
  <-> tem_palavra palavras_chave descricao.
Proof.
  unfold tem_palavra, ocorre_em.
  induction palavras_chave as [|k ks IH]; simpl.
  - split; [discriminate|]. intros (? & [] & _).
  - destruct (contains k (lower descricao)) eqn:E.
    + split; [|reflexivity]. intros _. exists k. split; [now left|].
      now apply Aux.contains_iff.
    + rewrite IH. split.
      * intros (p & Hp & Ho). exists p. split; [now right|exact Ho].
      * intros (p & [<-|Hp] & Ho); [|now exists p].
        apply Aux.contains_iff in Ho. congruence.
Qed.

Lemma percorre_palavras_sem (palavras_chave : list str) (descricao : str) :
  percorre_palavras palavras_chave (lower descricao) = false
  <-> ~ tem_palavra palavras_chave descricao.
Proof.
  rewrite <- percorre_palavras_tem.
  destruct (percorre_palavras palavras_chave (lower descricao)); split; congruence.
Qed.

(** The loop over the table stops at the first category with a keyword
    in the description. *)
Lemma percorre_categorias_primeira (antes depois : list (str * list str))
    (categoria : str) (palavras : list str) (descricao : str) :
  (forall c ps, In (c, ps) antes -> ~ tem_palavra ps descricao) ->
  tem_palavra palavras descricao ->
  percorre_categorias (antes ++ (categoria, palavras) :: depois) (lower descricao)
  = Some categoria.
Proof.
  intros Hantes Htem. induction antes as [|[c ps] antes IH]; simpl.
  - apply percorre_palavras_tem in Htem. now rewrite Htem.
  - assert (H : percorre_palavras ps (lower descricao) = false).
    { apply percorre_palavras_sem. apply (Hantes c). now left. }
    rewrite H. apply IH. intros c' ps' Hin. apply (Hantes c'). now right.
Qed.

Lemma percorre_categorias_nenhuma (tabela : list (str * list str)) (descricao : str) :
  (forall c ps, In (c, ps) tabela -> ~ tem_palavra ps descricao) ->
  percorre_categorias tabela (lower descricao) = None.
Proof.
  intros H. induction tabela as [|[c ps] tabela IH]; simpl; [reflexivity|].
  assert (H' : percorre_palavras ps (lower descricao) = false).
  { apply percorre_palavras_sem. apply (H c). now left. }
  rewrite H'. apply IH. intros c' ps' Hin. apply (H c'). now right.
Qed.

(** When a category of the table has a keyword in the description, the
    loop returns that category or one declared before it. *)
Lemma percorre_categorias_ate (antes depois : list (str * list str))
    (categoria : str) (palavras : list str) (descricao : str) :
  tem_palavra palavras descricao ->
  exists c,
    percorre_categorias (antes ++ (categoria, palavras) :: depois) (lower descricao) = Some c
    /\ In c (map fst (antes ++ [(categoria, palavras)])).
Proof.
  intros Htem. induction antes as [|[c ps] antes IH]; simpl.
  - apply percorre_palavras_tem in Htem. rewrite Htem. exists categoria. auto.
  - destruct (percorre_palavras ps (lower descricao)).
    + exists c. auto.
    + destruct IH as (c' & -> & Hin). exists c'. auto.
Qed.

(** No keyword of the table is empty, so none occurs in an empty description. *)
Lemma palavras_nao_vazias (c : str) (ps : list str) :
  In (c, ps) categorias -> ~ In [] ps.
Proof.
  assert (H : forallb (fun e => forallb (fun k => negb (Nat.eqb (List.length k) 0)) (snd e))
                categorias = true) by (vm_compute; reflexivity).
  rewrite forallb_forall in H. intros Hin Hk.
  specialize (H _ Hin). simpl in H. rewrite forallb_forall in H.
  specialize (H _ Hk). discriminate.
Qed.

Lemma tem_palavra_nao_vazia (c : str) (ps : list str) (descricao : str) :
  In (c, ps) categorias -> tem_palavra ps descricao -> descricao <> [].
Proof.
  intros Hin (k & Hk & a & b & Ho) ->. simpl in Ho.
  destruct a; [|discriminate]. destruct k; [|discriminate].
  exact (palavras_nao_vazias _ _ Hin Hk).
Qed.

Lemma categorizar_por_cnae_percorre (descricao : str) :
  descricao <> [] ->
  categorizar_por_cnae descricao =
  match percorre_categorias categorias (lower descricao) with
  | Some categoria => categoria
  | None => u "Outros"
  end.
Proof. destruct descricao; [congruence|reflexivity]. Qed.

(** C4. [categorizar_por_cnae] returns the first category of the table,
    in the order of its declaration, one of whose keywords is a
    substring of the lower-cased description; a description in which no
    keyword occurs, and the empty description, give "Outros";
    "Restaurante e Lanchonete" gives "Alimentação". *)
Theorem categorizar_por_cnae_primeira_categoria (descricao : str) :
  (forall antes categoria palavras depois,
      categorias = antes ++ (categoria, palavras) :: depois ->
      tem_palavra palavras descricao ->
      (forall c ps, In (c, ps) antes -> ~ tem_palavra ps descricao) ->
      categorizar_por_cnae descricao = categoria)
  /\ ((forall c ps, In (c, ps) categorias -> ~ tem_palavra ps descricao) ->
      categorizar_por_cnae descricao = u "Outros")
  /\ categorizar_por_cnae [] = u "Outros"
  /\ categorizar_por_cnae (u "Restaurante e Lanchonete") = u "Alimentação".
Proof.
  split; [|split; [|split]].
  - intros antes categoria palavras depois Htab Htem Hantes.
    rewrite categorizar_por_cnae_percorre.
    + rewrite Htab. now rewrite percorre_categorias_primeira.
    + apply (tem_palavra_nao_vazia categoria palavras); [|exact Htem].
      rewrite Htab. apply in_or_app. right. now left.
  - intros Hnone. destruct descricao as [|x d]; [reflexivity|].
    rewrite categorizar_por_cnae_percorre by discriminate.
    now rewrite percorre_categorias_nenhuma.
  - reflexivity.
  - vm_compute. reflexivity.
Qed.

End Geral.

Lemma categorizar_por_cnae_primeira_categoria_witness :
  categorizar_por_cnae (u "Hotel com restaurante") = u "Alimentação"
  /\ categorizar_por_cnae (u "xyz") = u "Outros".
Proof.
  split.
  - apply (proj1 (categorizar_por_cnae_primeira_categoria (u "Hotel com restaurante")))
      with (antes := []) (palavras := snd (hd ([], []) categorias)) (depois := tl categorias).
    + vm_compute. reflexivity.
    + exists (u "restaurante"). split; [vm_compute; tauto|].
      exists (u "hotel com "), []. vm_compute. reflexivity.
    + intros c ps [].
  - apply (proj1 (proj2 (categorizar_por_cnae_primeira_categoria (u "xyz")))).
    intros c ps Hin Htem. apply percorre_palavras_tem in Htem.
    revert Htem. vm_compute in Hin.
    repeat (destruct Hin as [Hin|Hin];
            [injection Hin as <- <-; vm_compute; discriminate|]).
    destruct Hin.
Defined.

Section Geral.
Context {U : Unicode}.

(** When the loop returns a category, it is the first of the table with
    a keyword in the description. *)
Lemma percorre_categorias_inv (tabela : list (str * list str)) (descricao c : str) :
  percorre_categorias tabela (lower descricao) = Some c ->
  exists antes ps depois,
    tabela = antes ++ (c, ps) :: depois
    /\ tem_palavra ps descricao
    /\ forall c' ps', In (c', ps') antes -> ~ tem_palavra ps' descricao.
Proof.
  induction tabela as [|[c' ps] tabela IH]; simpl; [discriminate|].
  destruct (percorre_palavras ps (lower descricao)) eqn:E.
  - intros [= ->]. exists [], ps, tabela. split; [reflexivity|]. split.
    + now apply percorre_palavras_tem.
    + intros ? ? [].
  - intros H. destruct (IH H) as (antes & ps' & depois & -> & Ht & Hn).
    exists ((c', ps) :: antes), ps', depois. split; [reflexivity|]. split; [exact Ht|].
    intros c2 ps2 [[= <- <-]|Hin]; [now apply percorre_palavras_sem|now apply (Hn c2)].
Qed.

(** The table declares "Educação" in the fifth place and nowhere else. *)
Lemma educacao_quinta (antes depois : list (str * list str)) (ps : list str) :
  categorias = antes ++ (u "Educação", ps) :: depois -> antes = firstn 4 categorias.
Proof.
  intros H.
  assert (L : (List.length antes < 10)%nat).
  { apply (f_equal (@List.length _)) in H. rewrite length_app in H. simpl in H.
    change (List.length categorias) with 10%nat in H. lia. }
  assert (Hn : nth (List.length antes) (map fst categorias) [] = u "Educação").
  { rewrite H, map_app, app_nth2, length_map, Nat.sub_diag; [reflexivity|].
    rewrite length_map. lia. }
  assert (L4 : List.length antes = 4%nat).
  { destruct (List.length antes) as [|[|[|[|[|[|[|[|[|[|n]]]]]]]]]];
      first [lia | reflexivity | (vm_compute in Hn; discriminate Hn)]. }
  rewrite H, <- L4. rewrite firstn_app, Nat.sub_diag, firstn_all. simpl.
  now rewrite app_nil_r.
Qed.

Lemma categorias_ate_educacao :
  categorias =
  firstn 4 categorias
    ++ (u "Educação", snd (nth 4 categorias ([], []))) :: skipn 5 categorias.
Proof. reflexivity. Qed.

(** C10, as the code has it.  For a description in which "papelaria"
    occurs (in any letter case) the category returned is the first of
    the table, in the order of its declaration, with a keyword in the
    description; it is one of the five declared up to "Educação"
    (Alimentação, Transporte, Hospedagem, Saúde, Educação), so never
    "Material de Escritório" nor "Outros", and it is "Educação" exactly
    when no keyword of the four categories declared before occurs in
    the description. *)
Theorem papelaria_educacao_ou_anterior (descricao : str) :
  ocorre_em (u "papelaria") (lower descricao) ->
  (exists antes palavras depois,
      categorias = antes ++ (categorizar_por_cnae descricao, palavras) :: depois
      /\ tem_palavra palavras descricao
      /\ (forall c ps, In (c, ps) antes -> ~ tem_palavra ps descricao))
  /\ In (categorizar_por_cnae descricao)
       (map u ["Alimentação"; "Transporte"; "Hospedagem"; "Saúde"; "Educação"]%string)
  /\ (categorizar_por_cnae descricao = u "Educação" <->
      forall c ps,
        In (c, ps) categorias ->
        In c (map u ["Alimentação"; "Transporte"; "Hospedagem"; "Saúde"]%string) ->
        ~ tem_palavra ps descricao)
  /\ categorizar_por_cnae descricao <> u "Material de Escritório"
  /\ categorizar_por_cnae descricao <> u "Outros".
Proof.
  intros Hoc.
  assert (Htem : tem_palavra (snd (nth 4 categorias ([], []))) descricao).
  { exists (u "papelaria"). split; [vm_compute; tauto|exact Hoc]. }
  assert (Hne : descricao <> []).
  { apply (tem_palavra_nao_vazia (u "Educação") (snd (nth 4 categorias ([], []))));
      [vm_compute; tauto|exact Htem]. }
  destruct (percorre_categorias_ate (firstn 4 categorias) (skipn 5 categorias)
              (u "Educação") _ descricao Htem) as (c & Hc & Hin5).
  rewrite <- categorias_ate_educacao in Hc.
  assert (E : categorizar_por_cnae descricao = c).
  { rewrite (categorizar_por_cnae_percorre descricao Hne). now rewrite Hc. }
  destruct (percorre_categorias_inv _ _ _ Hc) as (antes & ps & depois & Htab & Hps & Hantes).
  assert (Hquatro : forall c' ps',
            In (c', ps') (firstn 4 categorias) <->
            In (c', ps') categorias
            /\ In c' (map u ["Alimentação"; "Transporte"; "Hospedagem"; "Saúde"]%string)).
  { intros c' ps'. split.
    - intros H. split.
      + rewrite categorias_ate_educacao. apply in_or_app. now left.
      + apply (in_map fst) in H. exact H.
    - intros [H Hc']. vm_compute in H.
      repeat (destruct H as [H|H];
              [injection H as <- <-;
               first [left; reflexivity | right; left; reflexivity
                     | right; right; left; reflexivity
                     | right; right; right; left; reflexivity
                     | exfalso; vm_compute in Hc';
                       repeat (destruct Hc' as [Hc'|Hc']; [discriminate Hc'|]); exact Hc']|]).
      destruct H. }
  rewrite E. split; [|split; [|split; [|split]]].
  - exists antes, ps, depois. auto.
  - exact Hin5.
  - split.
    + intros -> c' ps' Hin Hc'. apply (Hantes c' ps').
      rewrite (educacao_quinta antes depois ps Htab). apply Hquatro. auto.
    + intros Hnone. rewrite <- E, (categorizar_por_cnae_percorre descricao Hne).
      rewrite categorias_ate_educacao.
      rewrite (percorre_categorias_primeira _ _ _ _ descricao); [reflexivity| |exact Htem].
      intros c' ps' Hin. apply Hquatro in Hin. destruct Hin as [H1 H2].
      now apply (Hnone c' ps').
  - intros ->. vm_compute in Hin5.
    repeat (destruct Hin5 as [Hin5|Hin5]; [discriminate|]). exact Hin5.
  - intros ->. vm_compute in Hin5.
    repeat (destruct Hin5 as [Hin5|Hin5]; [discriminate|]). exact Hin5.
Qed.

(** Whatever the Unicode database says above Latin-1. *)
Lemma supermercado_e_papelaria :
  ocorre_em (u "papelaria") (lower (u "Supermercado e papelaria"))
  /\ categorizar_por_cnae (u "Supermercado e papelaria") = u "Alimentação".
Proof.
  split; [|vm_compute; reflexivity].
  exists (u "supermercado e "), []. vm_compute. reflexivity.
Qed.

End Geral.

(** "hotel" and "farmácia" stand after "papelaria" in the description,
    and "Hospedagem" is declared before "Saúde" and "Educação". *)
Lemma papelaria_educacao_ou_anterior_witness :
  In (categorizar_por_cnae (u "Papelaria e farmácia do hotel"))
     (map u ["Alimentação"; "Transporte"; "Hospedagem"; "Saúde"; "Educação"]%string)
  /\ categorizar_por_cnae (u "Papelaria e farmácia do hotel") = u "Hospedagem"
  /\ categorizar_por_cnae (u "Comércio varejista de artigos de PAPELARIA") = u "Educação".
Proof.
  split; [|split; reflexivity].
  apply (papelaria_educacao_ou_anterior (u "Papelaria e farmácia do hotel")).
  exists [], (u " e farmácia do hotel"). vm_compute. reflexivity.
Defined.

(** C10 as stated fails: "papelaria" occurs in the description but a
    keyword of an earlier category ("supermercado") decides. *)
Lemma papelaria_com_categoria_anterior :
  ocorre_em (u "papelaria") (u "Supermercado e papelaria")
  /\ categorizar_por_cnae (u "Supermercado e papelaria") = u "Alimentação"
  /\ categorizar_por_cnae (u "Supermercado e papelaria") <> u "Educação".
Proof.
  split; [|split].
  - exists (u "Supermercado e "), []. vm_compute. reflexivity.
  - vm_compute. reflexivity.
  - vm_compute. discriminate.
Qed.

Section Geral.
Context {U : Unicode}.

(** *** The registry lookup *)

(** C8. Whatever the network does, [consultar_cnpj_brasilapi] returns
    [None], and raises nothing, when the response has a status other
    than 200 and when [requests.get] raises a [RequestException]; when
    the status is 200 and the body parses, it returns the parsed record. *)
Theorem consultar_cnpj_brasilapi_ausencia
    (requests_get : str -> result response) (cnpj : str) :
  let url := u "https://brasilapi.com.br/api/cnpj/v1/" ++ cnpj in
  (forall r, requests_get url = inr r -> status_code r <> 200%Z ->
     consultar_cnpj_brasilapi requests_get cnpj = inr None)
  /\ (forall msg, requests_get url = inl (RequestException msg) ->
     consultar_cnpj_brasilapi requests_get cnpj = inr None)
  /\ (forall r d, requests_get url = inr r -> status_code r = 200%Z -> json r = inr d ->
     consultar_cnpj_brasilapi requests_get cnpj = inr (Some d)).
Proof.
  intros url. unfold consultar_cnpj_brasilapi. fold url. split; [|split].
  - intros r Hr Hs. rewrite Hr. simpl.
    apply Z.eqb_neq in Hs. now rewrite Hs.
  - intros msg Hr. now rewrite Hr.
  - intros r d Hr Hs Hj. rewrite Hr. simpl.
    apply Z.eqb_eq in Hs. rewrite Hs, Hj. reflexivity.
Qed.

End Geral.

Lemma consultar_cnpj_brasilapi_ausencia_witness :
  consultar_cnpj_brasilapi
    (fun _ => inr {| status_code := 404; json := inl (OtherException []) |})
    (u "11222333000181") = inr None
  /\ consultar_cnpj_brasilapi
       (fun _ => inl (RequestException (u "timeout")))
       (u "11222333000181") = inr None
  /\ consultar_cnpj_brasilapi
       (fun _ => inr {| status_code := 200;
                        json := inr [(u "razao_social", u "PADARIA X LTDA")] |})
       (u "11222333000181") = inr (Some [(u "razao_social", u "PADARIA X LTDA")]).
Proof.
  split; [|split].
  - apply (proj1 (consultar_cnpj_brasilapi_ausencia
                    (fun _ => inr {| status_code := 404; json := inl (OtherException []) |})
                    (u "11222333000181"))
             {| status_code := 404; json := inl (OtherException []) |}).
    + reflexivity.
    + simpl. discriminate.
  - apply (proj1 (proj2 (consultar_cnpj_brasilapi_ausencia
                    (fun _ => inl (RequestException (u "timeout")))
                    (u "11222333000181")))
             (u "timeout")).
    reflexivity.
  - apply (proj2 (proj2 (consultar_cnpj_brasilapi_ausencia
                    (fun _ => inr {| status_code := 200;
                                     json := inr [(u "razao_social", u "PADARIA X LTDA")] |})
                    (u "11222333000181")))
             {| status_code := 200; json := inr [(u "razao_social", u "PADARIA X LTDA")] |}
             [(u "razao_social", u "PADARIA X LTDA")]);
      reflexivity.
Defined.

End CategorizadorTheory.

(* ================================================================== *)
(** ** Properties of the batch loop *)

Module LoteTheory.
Import Py Exc Main Spec.

Section Geral.
Context {U : Unicode}.

Section Lote.

Variable boto3_client : str -> result unit.
Variable detect_document_text : str -> result (list str).
Variable requests_get : str -> result Categorizador.response.
Variable region_name : str.

Let processar := processar_imagem boto3_client detect_document_text requests_get region_name.
Let passo := passo boto3_client detect_document_text requests_get region_name.
Let percorre := percorre_imagens boto3_client detect_document_text requests_get region_name.

(** One turn of the loop never raises and appends exactly one record. *)
Lemma passo_acrescenta (resultados : list resultado) (caminho_imagem : Path) :
  passo resultados caminho_imagem
  = inr (resultados ++ [registro_de caminho_imagem (processar caminho_imagem)]).
Proof.
  unfold passo, Main.passo, processar.
  destruct (processar_imagem boto3_client detect_document_text requests_get
              region_name caminho_imagem) as [e|d]; reflexivity.
Qed.

Lemma percorre_imagens_map (imagens : list Path) (resultados : list resultado) :
  percorre imagens resultados
  = inr (resultados ++ map (fun c => registro_de c (processar c)) imagens).
Proof.
  revert resultados. induction imagens as [|c cs IH]; intros resultados.
  - simpl. now rewrite app_nil_r.
  - unfold percorre in *. cbn [percorre_imagens].
    fold passo. rewrite passo_acrescenta. cbn [bind].
    rewrite IH. now rewrite <- app_assoc.
Qed.

End Lote.

(** C7. Whatever the services do, [processar_canhotos] returns (no
    exception leaves the loop) one record per image, in the order of the
    images: the record its processing produced or, when its processing
    raised, the degraded record with amount 0, no CNPJ, category
    "Outros" and the error markers in the name and activity fields.  A
    failure changes neither the records of the images before it nor the
    processing of the images after it. *)
Theorem processar_canhotos_isola_falhas
    (boto3_client : str -> result unit)
    (detect_document_text : str -> result (list str))
    (requests_get : str -> result Categorizador.response)
    (region_name : str) (imagens : list Path) :
  let processar :=
    processar_imagem boto3_client detect_document_text requests_get region_name in
  let lote :=
    processar_canhotos boto3_client detect_document_text requests_get region_name in
  lote imagens = inr (map (fun c => registro_de c (processar c)) imagens)
  /\ (forall c e, processar c = inl e ->
        registro_de c (processar c)
        = {| arquivo := name c; cnpj := None; valor := 0%Q;
             empresa := u "Erro no processamento"; atividade := u "Erro";
             categoria := u "Outros"; texto_completo := [] |})
  /\ (forall antes c depois e rs_antes rs_depois,
        imagens = antes ++ c :: depois ->
        processar c = inl e ->
        lote antes = inr rs_antes ->
        lote depois = inr rs_depois ->
        lote imagens = inr (rs_antes ++ resultado_com_erro c :: rs_depois)).
Proof.
  intros processar lote.
  assert (H : forall l, lote l = inr (map (fun c => registro_de c (processar c)) l)).
  { intros l. unfold lote, processar_canhotos.
    now rewrite percorre_imagens_map. }
  split; [apply H|]. split.
  - intros c e He. rewrite He. reflexivity.
  - intros antes c depois e rs_antes rs_depois -> He Ha Hd.
    rewrite H in Ha, Hd. injection Ha as <-. injection Hd as <-.
    rewrite H, map_app. cbn [map]. now rewrite He.
Qed.

End Geral.

Lemma processar_canhotos_isola_falhas_witness :
  processar_canhotos exemplo_boto3 exemplo_textract exemplo_requests (u "us-east-1")
    exemplo_imagens
  = inr ([] ++
         resultado_com_erro {| parent := u "canhotos"; name := u "a.jpg" |}
         :: [ {| arquivo := u "b.jpg"; cnpj := Some (u "12345678000195");
                 valor := (10000 # 100)%Q; empresa := u "POSTO Y LTDA";
                 atividade := u "Posto de combustíveis"; categoria := u "Transporte";
                 texto_completo :=
                   u "POSTO Y" ++ [10%N] ++ u "CNPJ: 12.345.678/0001-95" ++ [10%N]
                     ++ u "TOTAL R$ 100,00" |};
              {| arquivo := u "c.png"; cnpj := None; valor := 0%Q;
                 empresa := u "CNPJ não encontrado"; atividade := u "Não identificada";
                 categoria := u "Outros"; texto_completo := [] |} ]).
Proof.
  apply (proj2 (proj2 (processar_canhotos_isola_falhas
                         exemplo_boto3 exemplo_textract exemplo_requests (u "us-east-1")
                         exemplo_imagens))
           [] {| parent := u "canhotos"; name := u "a.jpg" |}
           (tl exemplo_imagens) (Exc.OtherException (u "corpo invalido")));
    vm_compute; reflexivity.
Defined.

End LoteTheory.

(* ================================================================== *)
(** ** Properties of the two reports *)

Module RelatorioTheory.
Import Py Exc Main Categorizador Spec.

Section Geral.
Context {U : Unicode} {Fl : Float}.

Lemma Qgt_bool_true (x y : Q) : Qgt_bool x y = true <-> (y < x)%Q.
Proof.
  unfold Qgt_bool. rewrite negb_true_iff. split.
  - intros H. apply Qnot_le_lt. intros Hle. apply Qle_bool_iff in Hle. congruence.
  - intros H. destruct (Qle_bool x y) eqn:E; [|reflexivity].
    apply Qle_bool_iff in E. exfalso. exact (Qlt_not_le _ _ H E).
Qed.

Lemma Qgt_bool_false (x y : Q) : Qgt_bool x y = false <-> (x <= y)%Q.
Proof. unfold Qgt_bool. now rewrite negb_false_iff, Qle_bool_iff. Qed.

(** [max(values)] is one of the values and none is larger. *)
Lemma maximo_spec (vs : list Q) (v : Q) :
  In (maximo v vs) (v :: vs) /\ forall x, In x (v :: vs) -> (x <= maximo v vs)%Q.
Proof.
  unfold maximo. revert v. induction vs as [|y vs IH]; intros v.
  - simpl. split; [now left|]. intros x [<-|[]]. apply Qle_refl.
  - cbn [fold_left]. destruct (Qgt_bool y v) eqn:E.
    + destruct (IH y) as [Hin Hmax]. split.
      * right. exact Hin.
      * intros x [<-|Hx]; [|now apply Hmax].
        apply Qle_trans with y; [|apply Hmax; now left].
        apply Qlt_le_weak. now apply Qgt_bool_true.
    + destruct (IH v) as [Hin Hmax]. split.
      * destruct Hin as [<-|Hin]; [now left|right; now right].
      * intros x [<-|[<-|Hx]].
        -- apply Hmax. now left.
        -- apply Qle_trans with v; [now apply Qgt_bool_false|apply Hmax; now left].
        -- apply Hmax. now right.
Qed.

(** When the loop of the categories report ends without raising, it
    has written one line per item, with the proportional bar. *)
Lemma linhas_categorias_inr (t m : Q) (itens : list (str * Q)) (ls : list linha) :
  linhas_categorias t m itens = inr ls ->
  ls = map (fun it => {| categoria := fst it; valor := snd it;
                         percentual := fmul (fdiv (snd it) t) 100;
                         barra := barra_proporcional (snd it) m |}) itens.
Proof.
  revert ls. induction itens as [|[c v] itens IH]; intros ls; simpl.
  - now intros [= <-].
  - unfold dividir. destruct (Qeq_bool t 0); [discriminate|]. simpl.
    destruct (Qeq_bool m 0); [discriminate|]. simpl.
    destruct (linhas_categorias t m itens) as [e|ls']; [discriminate|].
    simpl. intros [= <-]. now rewrite (IH ls' eq_refl).
Qed.

Lemma inserir_categoria_In (x y : str * Q) (l : list (str * Q)) :
  In y (inserir x l) <-> y = x \/ In y l.
Proof.
  induction l as [|z l IH]; simpl.
  - intuition.
  - destruct (Qgt_bool (snd z) (snd x)); simpl; rewrite ?IH; intuition.
Qed.

Lemma ordenar_categorias_In (y : str * Q) (l : list (str * Q)) :
  In y (ordenar l) <-> In y l.
Proof.
  induction l as [|x l IH]; simpl; [tauto|].
  rewrite inserir_categoria_In, IH. intuition.
Qed.

(** The categories report: its lines and bars. *)
Lemma gerar_relatorio_categorias_linhas (gastos : list (str * Q)) (t : Q) (ls : list linha) :
  gerar_relatorio_categorias gastos = inr (Relatorio t ls) ->
  exists valor_maximo,
    In valor_maximo (map snd gastos)
    /\ (forall v, In v (map snd gastos) -> (v <= valor_maximo)%Q)
    /\ t = soma (map snd gastos)
    /\ ls = map (fun it => {| categoria := fst it; valor := snd it;
                              percentual := fmul (fdiv (snd it) t) 100;
                              barra := barra_proporcional (snd it) valor_maximo |})
              (ordenar gastos).
Proof.
  unfold gerar_relatorio_categorias.
  destruct (map snd gastos) as [|v vs] eqn:E; [discriminate|].
  destruct (linhas_categorias (soma (v :: vs)) (maximo v vs) (ordenar gastos))
    as [e|ls'] eqn:L; [discriminate|].
  simpl. intros [= <- <-]. exists (maximo v vs).
  destruct (maximo_spec vs v) as [Hin Hmax].
  repeat split; auto. now apply linhas_categorias_inr.
Qed.

(** The console report: its lines and bars. *)
Lemma gerar_relatorio_linhas (resultados : list resultado) :
  linhas_de (gerar_relatorio resultados) =
  if Qgt_bool (snd (agrupar resultados)) 0 then
    map (fun it => {| categoria := fst it; valor := snd it;
                      percentual := fmul (fdiv (snd it) (snd (agrupar resultados))) 100;
                      barra := barra_percentual
                                 (fmul (fdiv (snd it) (snd (agrupar resultados))) 100) |})
        (filter (fun it => Qgt_bool (snd it) 0) (ordenar (fst (agrupar resultados))))
  else [].
Proof.
  unfold gerar_relatorio. destruct (agrupar resultados) as [gastos total]. simpl.
  destruct (Qgt_bool total 0); [|reflexivity]. simpl.
  induction (ordenar gastos) as [|[c v] l IH]; [reflexivity|].
  cbn [flat_map filter snd]. rewrite IH. unfold linha_impressa at 1.
  destruct (Qgt_bool v 0); reflexivity.
Qed.

(** The categories and totals that the console report prints. *)
Lemma gerar_relatorio_itens (resultados : list resultado) :
  map item_de (linhas_de (gerar_relatorio resultados))
  = (if Qgt_bool (snd (agrupar resultados)) 0
     then filter (fun it => Qgt_bool (snd it) 0) (ordenar (fst (agrupar resultados)))
     else []).
Proof.
  rewrite gerar_relatorio_linhas.
  destruct (Qgt_bool (snd (agrupar resultados)) 0); [|reflexivity].
  rewrite map_map. unfold item_de. simpl.
  rewrite <- (map_id (filter _ (ordenar (fst (agrupar resultados))))) at 2.
  apply map_ext. now intros [c v].
Qed.

(** C9, as the code has it.  In the categories report every category
    of the dictionary has a line, by decreasing total, whose bar is its
    total divided by the largest total and scaled to 30 blocks, and
    whose percentage is taken of the [sum] of the totals.  In the
    console report only the categories with a positive total have a
    line, and only when the grand total is positive; the percentage is
    taken of the grand total added up receipt by receipt, and the bar
    is the percentage divided by 3.33: another scale, so that the bars
    of the two reports differ. *)
Theorem barras_dos_relatorios (resultados : list resultado) :
  let gastos := fst (agrupar resultados) in
  let total := snd (agrupar resultados) in
  (forall dicionario t ls,
      gerar_relatorio_categorias dicionario = inr (Relatorio t ls) ->
      map item_de ls = ordenar dicionario
      /\ (forall it, In it dicionario <-> In it (map item_de ls))
      /\ t = fsum (map snd dicionario)
      /\ exists valor_maximo,
           In valor_maximo (map snd dicionario)
           /\ (forall v, In v (map snd dicionario) -> (v <= valor_maximo)%Q)
           /\ forall l, In l ls ->
                percentual l = fmul (fdiv (valor l) t) 100
                /\ barra l = barra_proporcional (valor l) valor_maximo)
  /\ map item_de (linhas_de (gerar_relatorio resultados))
     = (if Qgt_bool total 0
        then filter (fun it => Qgt_bool (snd it) 0) (ordenar gastos)
        else [])
  /\ (forall l, In l (linhas_de (gerar_relatorio resultados)) ->
        percentual l = fmul (fdiv (valor l) total) 100
        /\ barra l = barra_percentual (percentual l)).
Proof.
  intros gastos total. split; [|split].
  - intros dicionario t ls H.
    destruct (gerar_relatorio_categorias_linhas dicionario t ls H)
      as (m & Hin & Hmax & Ht & ->).
    assert (Hitens : map item_de
                       (map (fun it => {| categoria := fst it; valor := snd it;
                                          percentual := fmul (fdiv (snd it) t) 100;
                                          barra := barra_proporcional (snd it) m |})
                            (ordenar dicionario))
                     = ordenar dicionario).
    { rewrite map_map. unfold item_de. simpl.
      rewrite <- (map_id (ordenar dicionario)) at 2.
      apply map_ext. now intros [c v]. }
    split; [exact Hitens|]. split.
    + intros it. rewrite Hitens. symmetry. apply ordenar_categorias_In.
    + split; [exact Ht|].
      exists m. split; [exact Hin|]. split; [exact Hmax|].
      intros l Hl. apply in_map_iff in Hl. destruct Hl as ([c v] & <- & Hit).
      simpl. split; reflexivity.
  - apply gerar_relatorio_itens.
  - intros l. rewrite gerar_relatorio_linhas. fold total gastos.
    destruct (Qgt_bool total 0); [|intros []].
    intros Hin. apply in_map_iff in Hin. destruct Hin as (it & <- & _).
    split; reflexivity.
Qed.

End Geral.

Lemma barras_dos_relatorios_witness :
  map barra (linhas_de (gerar_relatorio dois_gastos)) = [15; 15]%nat
  /\ barra_percentual 50 = 15%nat
  /\ barra_proporcional 10 10 = 30%nat.
Proof.
  split; [vm_compute; reflexivity|]. split; [|vm_compute; reflexivity].
  destruct (barras_dos_relatorios dois_gastos) as (_ & _ & H).
  symmetry.
  exact (proj2 (H {| categoria := u "Transporte"; valor := 10%Q;
                     percentual := 50%Q; barra := 15 |}
                  ltac:(vm_compute; tauto))).
Defined.

(** C9 as stated fails for the console report: with two categories of
    10.00 each, both at the maximum, it draws 15 blocks per category
    where the proportional bar has 30, which is what the categories
    report draws for the same totals. *)
Lemma barra_do_console_nao_proporcional :
  map barra (linhas_de (gerar_relatorio dois_gastos)) = [15; 15]%nat
  /\ map (fun l => barra_proporcional (valor l) (maximo 10 [10%Q]))
       (linhas_de (gerar_relatorio dois_gastos)) = [30; 30]%nat
  /\ (exists t ls,
        gerar_relatorio_categorias (fst (agrupar dois_gastos)) = inr (Relatorio t ls)
        /\ map barra ls = [30; 30]%nat).
Proof.
  split; [vm_compute; reflexivity|]. split; [vm_compute; reflexivity|].
  eexists. eexists. split; [vm_compute; reflexivity|]. reflexivity.
Qed.

(** The rounding of the float operations shows in the bars: in the
    categories report 4.5 against a largest total of 5.4 draws 24
    blocks, where the exact quotient would give 25; in the console
    report 33.3 of a grand total of 100.0 draws 9 blocks, where the
    exact quotient by 3.33 would give 10. *)
Example barras_arredondadas :
  (exists t ls,
      gerar_relatorio_categorias
        [(u "Alimentação", float_of_decimal (54 # 10));
         (u "Transporte", float_of_decimal (45 # 10))]
      = inr (Relatorio t ls)
      /\ map barra ls = [30; 24]%nat)
  /\ map barra
       (linhas_de
          (gerar_relatorio
             [ {| Main.arquivo := u "a.jpg"; Main.cnpj := None; Main.valor := (333 # 10)%Q;
                  Main.empresa := []; Main.atividade := [];
                  Main.categoria := u "Transporte"; Main.texto_completo := [] |};
               {| Main.arquivo := u "b.jpg"; Main.cnpj := None; Main.valor := (667 # 10)%Q;
                  Main.empresa := []; Main.atividade := [];
                  Main.categoria := u "Alimentação"; Main.texto_completo := [] |} ]))
     = [20; 9]%nat
  /\ int_of_float ((45 # 10) / (54 # 10) * 30)%Q = 25%Z
  /\ int_of_float ((333 # 10) / 100 * 100 / (333 # 100))%Q = 10%Z.
Proof.
  split; [|split; [|split]]; try (vm_compute; reflexivity).
  eexists. eexists. split; [vm_compute; reflexivity|]. reflexivity.
Qed.

End RelatorioTheory.

(* ================================================================== *)
(** ** Further properties of [extrair_valor_total] *)

Module ValorExtra.
Import Py Re OcrAws Spec.

Section Geral.
Context {U : Unicode}.

Lemma candidato_centavos (texto : str) (v : Q) (p : Z) :
  In (v, p) (valores_encontrados texto) ->
  exists c : Z, (1 <= c <= 99999999)%Z /\ (v == c # 100)%Q.
Proof.
  intros H. apply ValorTheory.valores_encontrados_In in H.
  destruct H as (linha & padrao & m & _ & _ & Hp & Hm & Hn & Hv & _).
  apply ValorTheory.valor_valido_faixa in Hv. destruct Hv as [Hlo Hhi].
  destruct (ValorTheory.normalizar_token m
              (ValorTheory.findall_token_valor _ _ _ Hp Hm)) as (n & Hlt & [E|E]);
    rewrite E in Hn; injection Hn as <-;
    unfold Qle in Hlo, Hhi; simpl in Hlo, Hhi.
  - exists (Z.of_N n * 100)%Z. split; [lia|]. unfold Qeq. simpl. lia.
  - exists (Z.of_N n). split; [lia|]. reflexivity.
Qed.

(** X1. Whatever the text, the amount returned is a whole number of
    centavos between 0 and 99999999: it never has more than two
    decimals. *)
Theorem extrair_valor_total_centavos (texto : str) :
  exists c : Z, (0 <= c <= 99999999)%Z /\ (extrair_valor_total texto == c # 100)%Q.
Proof.
  destruct (valores_encontrados texto) as [|x xs] eqn:E.
  - exists 0%Z. split; [lia|]. unfold extrair_valor_total. rewrite E. reflexivity.
  - destruct (ValorTheory.extrair_valor_total_maximo texto) as (peso & Hin & _);
      [congruence|].
    destruct (candidato_centavos _ _ _ Hin) as (c & Hc & Hv).
    exists c. split; [lia|exact Hv].
Qed.

(** X2. Whatever the line, a token captured by one of the six patterns
    is always read by [float]: the [ValueError] branch is never
    entered, and the value read is a whole number below 10^8 or a number
    of hundredths below 10^8. *)
Theorem token_capturado_sempre_lido (linha : str) (padrao : regex) (m : str) :
  In padrao padroes_valor ->
  In m (findall flags_valor padrao linha) ->
  exists n : N,
    (n < 10 ^ 8)%N
    /\ (normalizar m = Some (Qmake (Z.of_N n) 1)
        \/ normalizar m = Some (Qmake (Z.of_N n) 100)).
Proof.
  intros Hp Hm. apply ValorTheory.normalizar_token.
  exact (ValorTheory.findall_token_valor linha padrao m Hp Hm).
Qed.

End Geral.

Lemma token_capturado_sempre_lido_witness :
  exists n : N,
    (n < 10 ^ 8)%N
    /\ (normalizar (u "45,90") = Some (Qmake (Z.of_N n) 1)
        \/ normalizar (u "45,90") = Some (Qmake (Z.of_N n) 100)).
Proof.
  apply (token_capturado_sempre_lido (u "R$ 45,90") padrao_real (u "45,90")).
  - vm_compute. tauto.
  - vm_compute. tauto.
Defined.

Section Geral.
Context {U : Unicode}.

(** *** Lines *)

Lemma split_nao_vazio (sep : char) (s : str) : split sep s <> [].
Proof.
  destruct s as [|c s]; simpl; [discriminate|].
  destruct (c =? sep)%N; [discriminate|].
  destruct (split sep s); discriminate.
Qed.

Lemma split_app (sep : char) (a b : str) :
  split sep (a ++ sep :: b) = split sep a ++ split sep b.
Proof.
  induction a as [|c a IH].
  - simpl. now rewrite N.eqb_refl.
  - cbn [app split]. destruct (c =? sep)%N.
    + now rewrite IH.
    + rewrite IH. destruct (split sep a) as [|w ws] eqn:E; [|reflexivity].
      exfalso. exact (split_nao_vazio sep a E).
Qed.

(** X3. The amounts are read line by line: the pairs collected from
    two texts joined by a newline are the pairs of the first followed by
    the pairs of the second, so that nothing is read across a line
    break. *)
Theorem valores_encontrados_por_linha (a b : str) :
  valores_encontrados (a ++ [10%N] ++ b) = valores_encontrados a ++ valores_encontrados b.
Proof.
  rewrite !ValorTheory.valores_encontrados_todos. unfold candidatos_valor.
  cbn [app]. rewrite split_app. apply flat_map_app.
Qed.

(** *** Weights *)

Lemma contains_trans (p q s : str) :
  contains p q = true -> contains q s = true -> contains p s = true.
Proof.
  rewrite !Aux.contains_iff. intros (a & b & ->) (a' & b' & ->).
  exists (a' ++ a), (b ++ b'). now rewrite <- !app_assoc.
Qed.

Lemma palavras_de_total (s : str) :
  existsb (fun palavra => contains palavra s)
    [u "TOTAL"; u "VALOR TOTAL"; u "TOTAL GERAL"]
  = contains (u "TOTAL") s.
Proof.
  cbn [existsb]. rewrite orb_false_r.
  destruct (contains (u "TOTAL") s) eqn:E; [reflexivity|]. simpl.
  destruct (contains (u "VALOR TOTAL") s) eqn:E1.
  - rewrite (contains_trans (u "TOTAL") (u "VALOR TOTAL") s) in E;
      [discriminate|vm_compute; reflexivity|exact E1].
  - destruct (contains (u "TOTAL GERAL") s) eqn:E2; [|reflexivity].
    rewrite (contains_trans (u "TOTAL") (u "TOTAL GERAL") s) in E;
      [discriminate|vm_compute; reflexivity|exact E2].
Qed.

Lemma peso_de_soma (linha : str) (valor : Q) :
  peso_de linha valor
  = (1 + (if contains (u "TOTAL") (upper linha) then 10 else 0)
       + (if contains (u "R$") linha || contains (u "RS") linha then 5 else 0)
       + (if endswith (replace 46%N (u ",") (format_2f valor)) (strip linha)
          then 3 else 0))%Z.
Proof.
  unfold peso_de. cbv zeta. rewrite palavras_de_total.
  destruct (contains (u "TOTAL") (upper linha));
    destruct (contains (u "R$") linha || contains (u "RS") linha);
    destruct (endswith (replace 46%N (u ",") (format_2f valor)) (strip linha));
    reflexivity.
Qed.

Lemma peso_de_onze (linha : str) (valor : Q) :
  (11 <= peso_de linha valor)%Z <-> contains (u "TOTAL") (upper linha) = true.
Proof.
  rewrite peso_de_soma.
  destruct (contains (u "TOTAL") (upper linha));
    destruct (contains (u "R$") linha || contains (u "RS") linha);
    destruct (endswith (replace 46%N (u ",") (format_2f valor)) (strip linha));
    split; intros; try lia; try reflexivity; try discriminate.
Qed.

(** X4. The weight of a candidate is 1, plus 10 exactly when "TOTAL"
    occurs in the upper-cased line (the keywords "VALOR TOTAL" and
    "TOTAL GERAL" never change it), plus 5 when "R$" or "RS" occurs in
    the line, plus 3 when the line ends with the amount written with a
    comma; it lies between 1 and 19 and is at least 11 exactly on the
    lines with "TOTAL". *)
Theorem peso_de_total (linha : str) (valor : Q) :
  peso_de linha valor
  = (1 + (if contains (u "TOTAL") (upper linha) then 10 else 0)
       + (if contains (u "R$") linha || contains (u "RS") linha then 5 else 0)
       + (if endswith (replace 46%N (u ",") (format_2f valor)) (strip linha)
          then 3 else 0))%Z
  /\ (1 <= peso_de linha valor <= 19)%Z
  /\ ((11 <= peso_de linha valor)%Z <-> contains (u "TOTAL") (upper linha) = true).
Proof.
  split; [apply peso_de_soma|]. split; [|apply peso_de_onze].
  rewrite peso_de_soma.
  destruct (contains (u "TOTAL") (upper linha));
    destruct (contains (u "R$") linha || contains (u "RS") linha);
    destruct (endswith (replace 46%N (u ",") (format_2f valor)) (strip linha)); lia.
Qed.

Lemma candidatos_linha_In (l : str) (v : Q) (p : Z) :
  In (v, p) (candidatos_linha l) <->
  exists padrao m,
    In padrao padroes_valor /\ In m (findall flags_valor padrao l)
    /\ normalizar m = Some v /\ valor_valido v = true /\ p = peso_de l v.
Proof.
  unfold candidatos_linha. rewrite in_flat_map. split.
  - intros (padrao & Hp & H). apply in_flat_map in H. destruct H as (m & Hm & H).
    apply ValorTheory.candidato_In in H. now exists padrao, m.
  - intros (padrao & m & Hp & Hm & H). exists padrao. split; [exact Hp|].
    apply in_flat_map. exists m. split; [exact Hm|]. now apply ValorTheory.candidato_In.
Qed.

Lemma candidatos_linha_valores (texto linha : str) (x : Q * Z) :
  In linha (split 10%N texto) -> strip linha <> [] ->
  In x (candidatos_linha (strip linha)) ->
  In x (valores_encontrados texto).
Proof.
  intros Hl Hne Hx. rewrite ValorTheory.valores_encontrados_todos.
  unfold candidatos_valor. apply in_flat_map. exists linha. split; [exact Hl|].
  destruct (strip linha); [congruence|exact Hx].
Qed.

(** X5. When some line with "TOTAL" (in any letter case) yields a
    candidate, the amount returned is a candidate of a line with
    "TOTAL", whatever larger amounts stand on the other lines. *)
Theorem linha_de_total_prevalece (texto : str) :
  (exists linha,
      In linha (split 10%N texto)
      /\ contains (u "TOTAL") (upper (strip linha)) = true
      /\ candidatos_linha (strip linha) <> []) ->
  exists linha peso,
    In linha (split 10%N texto)
    /\ contains (u "TOTAL") (upper (strip linha)) = true
    /\ In (extrair_valor_total texto, peso) (candidatos_linha (strip linha)).
Proof.
  intros (l0 & Hl0 & Ht0 & Hc0).
  assert (Hne0 : strip l0 <> []).
  { intros E. rewrite E in Ht0. discriminate. }
  destruct (candidatos_linha (strip l0)) as [|[v0 p0] rest] eqn:E0; [congruence|].
  assert (Hin0 : In (v0, p0) (candidatos_linha (strip l0))) by (rewrite E0; now left).
  assert (Hp0 : (11 <= p0)%Z).
  { apply candidatos_linha_In in Hin0.
    destruct Hin0 as (? & ? & _ & _ & _ & _ & ->). now apply peso_de_onze. }
  pose proof (candidatos_linha_valores texto l0 _ Hl0 Hne0 Hin0) as Hv0.
  destruct (ValorTheory.extrair_valor_total_maximo texto) as (peso & Hin & Hmax).
  { intros E. rewrite E in Hv0. destruct Hv0. }
  assert (Hp : (11 <= peso)%Z).
  { destruct (Hmax _ Hv0) as [H|[H _]]; simpl in H; lia. }
  apply ValorTheory.valores_encontrados_In in Hin.
  destruct Hin as (linha & padrao & m & Hl & Hne & Hpd & Hm & Hn & Hv & Hw).
  exists linha, peso. split; [exact Hl|]. split.
  - apply (peso_de_onze (strip linha) (extrair_valor_total texto)). now rewrite <- Hw.
  - apply candidatos_linha_In. now exists padrao, m.
Qed.

End Geral.

Lemma linha_de_total_prevalece_witness :
  exists linha peso,
    In linha (split 10%N (u "ITEM 99,00" ++ [10%N] ++ u "Total R$ 45,90"))
    /\ contains (u "TOTAL") (upper (strip linha)) = true
    /\ In (extrair_valor_total (u "ITEM 99,00" ++ [10%N] ++ u "Total R$ 45,90"), peso)
          (candidatos_linha (strip linha)).
Proof.
  apply linha_de_total_prevalece.
  exists (u "Total R$ 45,90"). split; [vm_compute; tauto|].
  split; [vm_compute; reflexivity|]. vm_compute. discriminate.
Defined.

Section Geral.
Context {U : Unicode}.

(** *** The order of the lines *)

Lemma extrair_valor_total_perm (t1 t2 : str) :
  Permutation (valores_encontrados t1) (valores_encontrados t2) ->
  (extrair_valor_total t1 == extrair_valor_total t2)%Q.
Proof.
  intros HP.
  destruct (valores_encontrados t1) as [|x xs] eqn:E1.
  - apply Permutation_nil in HP. unfold extrair_valor_total. rewrite E1, HP. reflexivity.
  - assert (N1 : valores_encontrados t1 <> []) by congruence.
    assert (N2 : valores_encontrados t2 <> []).
    { intros E. rewrite E in HP. apply Permutation_sym, Permutation_nil in HP. discriminate. }
    destruct (ValorTheory.extrair_valor_total_maximo t1 N1) as (p1 & I1 & M1).
    destruct (ValorTheory.extrair_valor_total_maximo t2 N2) as (p2 & I2 & M2).
    rewrite E1 in I1, M1.
    pose proof (M1 _ (Permutation_in _ (Permutation_sym HP) I2)) as A.
    pose proof (M2 _ (Permutation_in _ HP I1)) as B.
    unfold chave_le in A, B. simpl in A, B.
    destruct A as [A|[A1 A2]], B as [B|[B1 B2]]; try lia.
    now apply Qle_antisym.
Qed.

Lemma split_join (linhas : list str) :
  Forall (fun l => ~ In 10%N l) linhas -> linhas <> [] ->
  split 10%N (join [10%N] linhas) = linhas.
Proof.
  induction 1 as [|l ls Hl F IH]; [intros H; exfalso; now apply H|]. intros _.
  destruct ls as [|l' ls'].
  - simpl. now apply ValorTheory.split_ausente.
  - change (join [10%N] (l :: l' :: ls')) with (l ++ 10%N :: join [10%N] (l' :: ls')).
    rewrite split_app, ValorTheory.split_ausente by exact Hl.
    rewrite IH by discriminate. reflexivity.
Qed.

Lemma candidatos_de_linhas (linhas : list str) :
  Forall (fun l => ~ In 10%N l) linhas ->
  valores_encontrados (join [10%N] linhas)
  = flat_map (fun linha => match strip linha with [] => [] | l => candidatos_linha l end)
      linhas.
Proof.
  intros F. rewrite ValorTheory.valores_encontrados_todos. unfold candidatos_valor.
  destruct linhas as [|l ls]; [reflexivity|].
  now rewrite split_join.
Qed.

(** X6. The order of the lines does not change the amount: for lines
    without a newline, joining them in any order gives the same result. *)
Theorem ordem_das_linhas_indiferente (l1 l2 : list str) :
  Permutation l1 l2 ->
  Forall (fun l => ~ In 10%N l) l1 ->
  (extrair_valor_total (join [10%N] l1) == extrair_valor_total (join [10%N] l2))%Q.
Proof.
  intros HP F1.
  assert (F2 : Forall (fun l => ~ In 10%N l) l2).
  { apply Forall_forall. intros l Hl. rewrite Forall_forall in F1.
    apply F1. exact (Permutation_in _ (Permutation_sym HP) Hl). }
  apply extrair_valor_total_perm.
  rewrite !candidatos_de_linhas by assumption.
  now apply Permutation_flat_map.
Qed.

End Geral.

Lemma ordem_das_linhas_indiferente_witness :
  (extrair_valor_total (join [10%N] [u "TOTAL R$ 45,90"; u "ITEM 99,00"])
   == extrair_valor_total (join [10%N] [u "ITEM 99,00"; u "TOTAL R$ 45,90"]))%Q.
Proof.
  apply ordem_das_linhas_indiferente.
  - apply perm_swap.
  - repeat constructor; vm_compute; intuition discriminate.
Defined.

Section Geral.
Context {U : Unicode}.

(** *** The decimal handling *)

Lemma replace_presente (old c : char) (s : str) :
  In old s -> In c (replace old [c] s).
Proof.
  unfold replace. intros H. apply in_flat_map. exists old. split; [exact H|].
  rewrite N.eqb_refl. now left.
Qed.

(** X7. The decimal handling depends on the comma alone: in a token
    with a comma every point is dropped and the commas become points,
    and a token without a comma goes to [float] as it is. *)
Theorem normalizar_pela_virgula (m : str) :
  normalizar m
  = float (if contains (u ",") m
           then replace 44%N (u ".") (replace 46%N [] m)
           else m).
Proof.
  unfold normalizar. cbv zeta.
  change (u ",") with (@cons char 44%N nil). change (u ".") with (@cons char 46%N nil).
  destruct (contains (@cons char 44%N nil) m) eqn:E.
  - apply ValorTheory.contains_char in E.
    rewrite (proj2 (ValorTheory.contains_char 46%N (replace 44%N (@cons char 46%N nil) m))).
    + reflexivity.
    + now apply replace_presente.
  - rewrite andb_false_r. rewrite ValorTheory.replace_ausente; [reflexivity|].
    intros H. apply ValorTheory.contains_char in H. congruence.
Qed.

End Geral.

End ValorExtra.

(* ================================================================== *)
(** ** Further properties of [extrair_cnpj] *)

Module CnpjExtra.
Import Py Re OcrAws Spec.

Section Geral.
Context {U : Unicode}.

(** *** The candidates always have 14 digits *)

(** A literal below 'A' is matched by itself only, with or without
    [re.IGNORECASE]. *)
Lemma lit_pontuacao (f : flags) (a x : char) :
  (a < 65)%N -> cls_match f (Lit a) x = true -> x = a.
Proof. apply ReTheory.literal_sem_caixa. Qed.

Lemma so_digitos_app (a b : str) : so_digitos (a ++ b) = so_digitos a ++ so_digitos b.
Proof. rewrite !CnpjTheory.so_digitos_filter. apply filter_app. Qed.

Lemma so_digitos_digitos (w : str) :
  Forall (fun x => isdecimal x = true) w -> so_digitos w = w.
Proof.
  rewrite CnpjTheory.so_digitos_filter. induction 1 as [|x w Hx F IH]; simpl.
  - reflexivity.
  - now rewrite Hx, IH.
Qed.

Lemma conta_Rep (f : flags) (n : nat) (w : str) :
  words f (Rep n D) w -> List.length (so_digitos w) = n.
Proof.
  intros H. apply ReTheory.words_Rep in H. destruct H as [L F].
  now rewrite so_digitos_digitos.
Qed.

Lemma conta_One (f : flags) (a : char) (w : str) :
  (a < 48)%N -> words f (One (Lit a)) w -> List.length (so_digitos w) = 0%nat.
Proof.
  intros Ha (x & -> & Hx). apply lit_pontuacao in Hx; [|lia]. subst x.
  rewrite CnpjTheory.so_digitos_filter. simpl.
  replace (isdecimal a) with false; [reflexivity|].
  unfold isdecimal. replace (a <=? 255)%N with true by (symmetry; apply N.leb_le; lia).
  unfold isdecimal_latin1, between. symmetry. apply andb_false_iff. left.
  apply N.leb_gt. exact Ha.
Qed.

Lemma conta_Opt (f : flags) (a : char) (w : str) :
  (a < 48)%N -> words f (Opt (One (Lit a))) w -> List.length (so_digitos w) = 0%nat.
Proof.
  intros Ha [H| ->]; [now apply (conta_One f a)|reflexivity].
Qed.

Lemma conta_Cat (f : flags) (rs : list regex) (ns : list nat) :
  Forall2 (fun r n => forall w, words f r w -> List.length (so_digitos w) = n) rs ns ->
  forall w, words f (Cat rs) w -> List.length (so_digitos w) = list_sum ns.
Proof.
  induction 1 as [|r n rs ns Hr F IH]; intros w; simpl.
  - now intros ->.
  - intros (w1 & w2 & -> & H1 & H2).
    rewrite so_digitos_app, length_app. now rewrite (Hr _ H1), (IH _ H2).
Qed.

Lemma groups_ok_Rep_One (f : flags) (G : str -> Prop) (n : nat) (c : cls) :
  groups_ok f G (Rep n (One c)).
Proof. induction n; simpl; auto. Qed.

Lemma padroes_cnpj_ok (padrao : regex) :
  In padrao padroes_cnpj ->
  groups_ok flags_cnpj (fun m => List.length (so_digitos m) = 14%nat) padrao
  /\ must_group padrao = true.
Proof.
  intros Hin. simpl in Hin.
  destruct Hin as [<-|[<-|[<-|[<-|[]]]]]; (split; [|vm_compute; reflexivity]).
  - apply ReTheory.groups_ok_Cat.
    repeat first [apply Forall_cons | apply Forall_nil | apply ReTheory.groups_ok_Str | exact I].
    split; [|apply ReTheory.groups_ok_Cat; repeat constructor].
    change 14%nat with (list_sum [2; 0; 3; 0; 3; 0; 4; 0; 2]%nat).
    apply conta_Cat.
    repeat first
      [ apply Forall2_nil
      | apply Forall2_cons
      | intros w; apply conta_Rep
      | intros w; apply conta_Opt; vm_compute; reflexivity ].
  - apply ReTheory.groups_ok_Cat.
    repeat first [apply Forall_cons | apply Forall_nil | apply ReTheory.groups_ok_Str | exact I].
    split; [|apply groups_ok_Rep_One]. intros w. apply conta_Rep.
  - apply ReTheory.groups_ok_Cat.
    repeat first [apply Forall_cons | apply Forall_nil | exact I | split].
    intros w. apply conta_Rep.
  - split; [|apply ReTheory.groups_ok_Cat; repeat constructor].
    change 14%nat with (list_sum [2; 0; 3; 0; 3; 0; 4; 0; 2]%nat).
    apply conta_Cat.
    repeat first
      [ apply Forall2_nil
      | apply Forall2_cons
      | intros w; apply conta_Rep
      | intros w; apply conta_One; vm_compute; reflexivity ].
Qed.

(** X8. Whatever the text, every match of each of the four patterns
    has exactly 14 digits once its punctuation is removed: the length
    test of line 93 never fails, and a candidate is rejected by the
    validation of line 95 only. *)
Theorem candidato_cnpj_tem_14_digitos (texto : str) (padrao : regex) (m : str) :
  In padrao padroes_cnpj ->
  In m (findall flags_cnpj padrao texto) ->
  List.length (so_digitos m) = 14%nat
  /\ aceito (so_digitos m) = validacao_basica (so_digitos m).
Proof.
  intros Hp Hm. destruct (padroes_cnpj_ok padrao Hp) as [Hok Hmust].
  assert (H : List.length (so_digitos m) = 14%nat).
  { exact (ReTheory.findall_grupo flags_cnpj _ padrao texto m Hok Hmust Hm). }
  split; [exact H|]. unfold aceito. now rewrite H.
Qed.

End Geral.

Lemma candidato_cnpj_tem_14_digitos_witness :
  List.length (so_digitos (u "11.222.333/0001-81")) = 14%nat
  /\ aceito (so_digitos (u "11.222.333/0001-81"))
     = validacao_basica (so_digitos (u "11.222.333/0001-81")).
Proof.
  apply (candidato_cnpj_tem_14_digitos (u "loja CNPJ 11.222.333/0001-81 fim")
           padrao_formatado_isolado).
  - vm_compute. tauto.
  - vm_compute. tauto.
Defined.

Section Geral.
Context {U : Unicode}.

(** *** The cleaned text *)

Lemma nao_mantido (x : char) :
  cls_match no_flags (None_of [Word; Space; Ch "."; Ch "-"; Ch "/"]) x = negb (mantido x).
Proof. reflexivity. Qed.

Lemma primeira_limpeza_mantidos (s : str) :
  Forall (fun x => mantido x = true)
    (sub_cls no_flags (None_of [Word; Space; Ch "."; Ch "-"; Ch "/"]) (u " ") s).
Proof.
  unfold sub_cls. induction s as [|x s IH]; [constructor|].
  cbn [flat_map]. rewrite nao_mantido. destruct (mantido x) eqn:E; simpl.
  - constructor; assumption.
  - constructor; [vm_compute; reflexivity|assumption].
Qed.

Lemma primeira_limpeza_id (s : str) :
  Forall (fun x => mantido x = true) s ->
  sub_cls no_flags (None_of [Word; Space; Ch "."; Ch "-"; Ch "/"]) (u " ") s = s.
Proof.
  unfold sub_cls. induction 1 as [|x s Hx F IH]; [reflexivity|].
  cbn [flat_map]. rewrite nao_mantido, Hx, IH. reflexivity.
Qed.

Lemma sub_plus_mantidos (s : str) (b : bool) :
  Forall (fun x => mantido x = true) s ->
  Forall (fun x => mantido x = true) (sub_plus no_flags Space (u " ") s b).
Proof.
  intros F. revert b. induction F as [|x s Hx F IH]; intros b; [constructor|].
  cbn [sub_plus cls_match]. destruct (isspace x).
  - destruct b; simpl; [apply IH|].
    constructor; [vm_compute; reflexivity|apply IH].
  - constructor; [exact Hx|apply IH].
Qed.

Lemma sub_plus_unicos (s : str) (b : bool) :
  espacos_unicos (sub_plus no_flags Space (u " ") s b) b = true.
Proof.
  revert b. induction s as [|x s IH]; intros b; [reflexivity|].
  cbn [sub_plus cls_match]. destruct (isspace x) eqn:E.
  - destruct b; simpl; [apply IH|]. apply IH.
  - cbn [espacos_unicos]. rewrite E. apply IH.
Qed.

Lemma sub_plus_id (s : str) (b : bool) :
  espacos_unicos s b = true -> sub_plus no_flags Space (u " ") s b = s.
Proof.
  revert b. induction s as [|x s IH]; intros b; [reflexivity|].
  cbn [sub_plus cls_match espacos_unicos]. destruct (isspace x).
  - rewrite !andb_true_iff, negb_true_iff, N.eqb_eq.
    intros [[-> ->] H]. rewrite (IH _ H). reflexivity.
  - intros H. now rewrite (IH _ H).
Qed.

Lemma espacos_unicos_In (s : str) (b : bool) (x : char) :
  espacos_unicos s b = true -> In x s -> isspace x = true -> x = 32%N.
Proof.
  revert b. induction s as [|y s IH]; intros b; [intros _ []|].
  cbn [espacos_unicos]. destruct (isspace y) eqn:E.
  - rewrite !andb_true_iff, N.eqb_eq. intros [[-> _] H] [<-|Hx] Hs; [reflexivity|].
    exact (IH _ H Hx Hs).
  - intros H [<-|Hx] Hs; [congruence|]. exact (IH _ H Hx Hs).
Qed.

Lemma limpar_texto_unicos (texto : str) : espacos_unicos (limpar_texto texto) false = true.
Proof. apply sub_plus_unicos. Qed.

Lemma limpar_texto_mantidos (texto : str) :
  Forall (fun x => mantido x = true) (limpar_texto texto).
Proof. apply sub_plus_mantidos, primeira_limpeza_mantidos. Qed.

Lemma limpar_texto_sem_quebra (texto : str) : ~ In 10%N (limpar_texto texto).
Proof.
  intros H.
  pose proof (espacos_unicos_In _ _ _ (limpar_texto_unicos texto) H eq_refl).
  discriminate.
Qed.

(** X9. The cleaned text holds only word characters, blanks, points,
    dashes and slashes; its only whitespace is the blank, never twice
    in a row (so it has no newline and no tabulation).  Cleaning a
    cleaned text changes nothing, and [extrair_cnpj] gives the same
    result on a text and on its cleaned form. *)
Theorem limpar_texto_idempotente (texto : str) :
  limpar_texto (limpar_texto texto) = limpar_texto texto
  /\ extrair_cnpj (limpar_texto texto) = extrair_cnpj texto
  /\ Forall (fun x => mantido x = true /\ (isspace x = true -> x = 32%N))
       (limpar_texto texto)
  /\ espacos_unicos (limpar_texto texto) false = true.
Proof.
  assert (H : limpar_texto (limpar_texto texto) = limpar_texto texto).
  { unfold limpar_texto at 1. cbv zeta.
    rewrite (primeira_limpeza_id _ (limpar_texto_mantidos texto)).
    apply sub_plus_id, limpar_texto_unicos. }
  split; [exact H|]. split; [|split].
  - unfold extrair_cnpj. now rewrite H.
  - apply Forall_forall. intros x Hx. split.
    + pose proof (limpar_texto_mantidos texto) as F. rewrite Forall_forall in F. auto.
    + exact (espacos_unicos_In _ _ _ (limpar_texto_unicos texto) Hx).
  - apply limpar_texto_unicos.
Qed.

(** *** The flag [re.MULTILINE] *)

Lemma cls_match_ignorecase (f1 f2 : flags) :
  ignorecase f1 = ignorecase f2 ->
  forall c x, cls_match f1 c x = cls_match f2 c x.
Proof.
  intros H. fix IH 1. intros [a| | | |l|l] x; cbn [cls_match]; try reflexivity.
  - now rewrite H.
  - induction l as [|c l IHl]; simpl; [reflexivity|]. now rewrite IH, IHl.
  - f_equal. induction l as [|c l IHl]; simpl; [reflexivity|]. now rewrite IH, IHl.
Qed.

Section Multiline.

Variables f1 f2 : flags.
Hypothesis Hic : ignorecase f1 = ignorecase f2.

Lemma at_bol_sem_quebra (cu : cursor) : sem_quebra cu -> at_bol f1 cu = at_bol f2 cu.
Proof.
  intros [Hs _]. unfold at_bol. destruct (seen cu) as [|x sn]; [reflexivity|].
  destruct (N.eqb_spec x 10) as [->|_]; [|now rewrite !andb_false_r].
  exfalso. apply Hs. now left.
Qed.

Lemma at_eol_sem_quebra (cu : cursor) : sem_quebra cu -> at_eol f1 cu = at_eol f2 cu.
Proof.
  intros [_ Hr]. unfold at_eol. destruct (rest cu) as [|x tl]; [reflexivity|].
  destruct (N.eqb_spec x 10) as [->|_]; [|reflexivity].
  exfalso. apply Hr. now left.
Qed.

Lemma star_cls_multiline (c : cls) (rs sn : str) (cp : option str)
    (k1 k2 : cursor -> option cursor) :
  ~ In 10%N sn -> ~ In 10%N rs ->
  (forall cu, sem_quebra cu -> k1 cu = k2 cu) ->
  star_cls f1 c sn rs cp k1 = star_cls f2 c sn rs cp k2.
Proof.
  intros Hs Hr Hk. revert sn Hs. induction rs as [|x rs IH]; intros sn Hs.
  - simpl. apply Hk. now split.
  - cbn [star_cls]. rewrite (cls_match_ignorecase f1 f2 Hic).
    assert (E : k1 {| seen := sn; rest := x :: rs; cap := cp |}
              = k2 {| seen := sn; rest := x :: rs; cap := cp |})
      by (apply Hk; now split).
    destruct (cls_match f2 c x); [|exact E].
    rewrite (IH (fun H => Hr (or_intror H)) (x :: sn)).
    + now rewrite E.
    + intros [->|H]; [apply Hr; now left|exact (Hs H)].
Qed.

Lemma rmatch_multiline (r : regex) :
  forall cu k1 k2,
    sem_quebra cu ->
    (forall cu', sem_quebra cu' -> k1 cu' = k2 cu') ->
    rmatch f1 r cu k1 = rmatch f2 r cu k2.
Proof.
  induction r as [|c|r1 IH1 r2 IH2|r1 IH1 r2 IH2|c|r1 IH1| |];
    intros cu k1 k2 Hcu Hk; cbn [rmatch].
  - now apply Hk.
  - destruct Hcu as [Hs Hr]. destruct (rest cu) as [|x tl] eqn:E; [reflexivity|].
    rewrite (cls_match_ignorecase f1 f2 Hic).
    destruct (cls_match f2 c x); [|reflexivity].
    apply Hk. split; simpl.
    + intros [->|H]; [apply Hr; now left|exact (Hs H)].
    + intros H. apply Hr. now right.
  - apply IH1; [exact Hcu|]. intros cu1 H1. now apply IH2.
  - rewrite (IH1 cu k1 k2 Hcu Hk), (IH2 cu k1 k2 Hcu Hk). reflexivity.
  - destruct Hcu as [Hs Hr]. now apply star_cls_multiline.
  - apply IH1; [exact Hcu|]. intros cu1 H1. apply Hk. exact H1.
  - rewrite (at_bol_sem_quebra cu Hcu). destruct (at_bol f2 cu); [now apply Hk|reflexivity].
  - rewrite (at_eol_sem_quebra cu Hcu). destruct (at_eol f2 cu); [now apply Hk|reflexivity].
Qed.

Lemma scan_multiline (r : regex) (rs sn : str) (skip : nat) :
  ~ In 10%N sn -> ~ In 10%N rs ->
  scan f1 r sn rs skip = scan f2 r sn rs skip.
Proof.
  revert sn skip. induction rs as [|x rs IH]; intros sn skip Hs Hr.
  - destruct skip; [|reflexivity]. cbn [scan]. unfold match_here.
    rewrite (rmatch_multiline r _ Some Some); [reflexivity|now split|reflexivity].
  - assert (Hs' : ~ In 10%N (x :: sn)).
    { intros [->|H]; [apply Hr; now left|exact (Hs H)]. }
    assert (Hr' : ~ In 10%N rs) by (intros H; apply Hr; now right).
    destruct skip as [|n]; cbn [scan].
    + unfold match_here.
      rewrite (rmatch_multiline r _ Some Some); [|now split|reflexivity].
      destruct (rmatch f2 r _ Some); now rewrite IH.
    + now apply IH.
Qed.

End Multiline.

(** X10. The flag [re.MULTILINE] of line 88 has no effect: the cleaned
    text has no newline, so that every pattern finds the same matches
    with and without it. *)
Theorem multiline_sem_efeito (texto : str) (padrao : regex) :
  findall flags_cnpj padrao (limpar_texto texto)
  = findall {| ignorecase := true; multiline := false |} padrao (limpar_texto texto).
Proof.
  unfold findall. apply scan_multiline.
  - reflexivity.
  - intros [].
  - apply limpar_texto_sem_quebra.
Qed.

End Geral.

End CnpjExtra.

(* ================================================================== *)
(** ** Further properties of [categorizador.py] *)

Module CategorizadorExtra.
Import Py Exc Categorizador Spec.
Local Open Scope exc_scope.

Section Geral.
Context {U : Unicode}.

Lemma percorre_categorias_fst (tabela : list (str * list str)) (dl c : str) :
  percorre_categorias tabela dl = Some c -> In c (map fst tabela).
Proof.
  induction tabela as [|[c' ps] tabela IH]; simpl; [discriminate|].
  destruct (percorre_palavras ps dl).
  - intros [= ->]. now left.
  - intros H. right. now apply IH.
Qed.

Lemma categoria_conhecida (descricao : str) :
  In (categorizar_por_cnae descricao) (map fst categorias ++ [u "Outros"]).
Proof.
  apply in_or_app. unfold categorizar_por_cnae.
  destruct descricao as [|x d]; [right; now left|].
  destruct (percorre_categorias categorias (lower (x :: d))) as [c|] eqn:E.
  - left. exact (percorre_categorias_fst _ _ _ E).
  - right. now left.
Qed.

(** X11. Whatever the description, [categorizar_por_cnae] returns one
    of the ten categories of the table or "Outros". *)
Theorem categorizar_por_cnae_conjunto_fixo (descricao : str) :
  In (categorizar_por_cnae descricao)
     (map u ["Alimentação"; "Transporte"; "Hospedagem"; "Saúde"; "Educação";
             "Tecnologia"; "Vestuário"; "Serviços"; "Entretenimento";
             "Material de Escritório"; "Outros"]%string).
Proof.
  assert (E : map u ["Alimentação"; "Transporte"; "Hospedagem"; "Saúde"; "Educação";
                     "Tecnologia"; "Vestuário"; "Serviços"; "Entretenimento";
                     "Material de Escritório"; "Outros"]%string
              = map fst categorias ++ [u "Outros"]) by (vm_compute; reflexivity).
  rewrite E. apply categoria_conhecida.
Qed.

(** *** Letter case *)

(** [str.lower] gives characters that it leaves alone. *)
Lemma lower_char_fixos (c : char) :
  c <> 931%N -> Forall (fun y => y <> 931%N /\ lower_char y = [y]) (lower_char c).
Proof.
  intros Hc. unfold lower_char at 2. destruct (N.leb_spec c 255) as [L|L].
  - constructor; [|constructor].
    pose proof (Aux.lower_latin1_le c L) as L'. split; [lia|].
    unfold lower_char. rewrite (proj2 (N.leb_le _ _) L').
    now rewrite Aux.lower_latin1_idem.
  - apply Forall_forall. intros y Hy.
    destruct (ucd_lower_stable c y L Hc Hy) as [Hy1 Hy2]. split; [exact Hy1|].
    unfold lower_char. destruct (y <=? 255)%N; [now rewrite Hy2|exact Hy2].
Qed.

Lemma lower_desde_fixos (antes s : str) :
  Forall (fun y => y <> 931%N /\ lower_char y = [y]) (lower_desde antes s).
Proof.
  revert antes. induction s as [|c s IH]; intros antes; [constructor|].
  cbn [lower_desde]. apply Forall_app. split; [|apply IH].
  destruct (N.eqb_spec c 931) as [->|Hc]; [|now apply lower_char_fixos].
  constructor; [|constructor].
  destruct (ucd_final_sigma antes s); (split; [discriminate|]); apply ucd_lower_sigma.
Qed.

Lemma lower_desde_id (antes t : str) :
  Forall (fun y => y <> 931%N /\ lower_char y = [y]) t -> lower_desde antes t = t.
Proof.
  intros F. revert antes. induction F as [|c t [Hc Hl] F IH]; intros antes; [reflexivity|].
  cbn [lower_desde]. apply N.eqb_neq in Hc. rewrite Hc, Hl, IH. reflexivity.
Qed.

Lemma lower_idem (s : str) : lower (lower s) = lower s.
Proof. unfold lower. apply lower_desde_id, lower_desde_fixos. Qed.

Lemma categorizar_por_lower (d d' : str) :
  lower d = lower d' -> categorizar_por_cnae d = categorizar_por_cnae d'.
Proof.
  assert (N : percorre_categorias categorias [] = None) by (vm_compute; reflexivity).
  intros H. destruct d as [|x d], d' as [|x' d'].
  - reflexivity.
  - rewrite (CategorizadorTheory.categorizar_por_cnae_percorre (x' :: d')) by discriminate.
    rewrite <- H. change (lower []) with (@nil char). now rewrite N.
  - rewrite (CategorizadorTheory.categorizar_por_cnae_percorre (x :: d)) by discriminate.
    rewrite H. change (lower []) with (@nil char). now rewrite N.
  - rewrite !CategorizadorTheory.categorizar_por_cnae_percorre by discriminate.
    now rewrite H.
Qed.

(** X12. The category does not depend on the letter case: two
    descriptions with the same lower-cased form get the same category,
    and a description gets the category of its lower-cased form. *)
Theorem categorizar_por_cnae_sem_caixa (d : str) :
  (forall d', lower d = lower d' -> categorizar_por_cnae d = categorizar_por_cnae d')
  /\ categorizar_por_cnae (lower d) = categorizar_por_cnae d.
Proof.
  split.
  - intros d'. apply categorizar_por_lower.
  - apply categorizar_por_lower. apply lower_idem.
Qed.

End Geral.

Lemma categorizar_por_cnae_sem_caixa_witness :
  categorizar_por_cnae (u "FARMÁCIA Central") = categorizar_por_cnae (u "farmácia CENTRAL").
Proof.
  apply (proj1 (categorizar_por_cnae_sem_caixa (u "FARMÁCIA Central"))).
  vm_compute. reflexivity.
Defined.

Section Geral.
Context {U : Unicode}.

(** *** Longer descriptions *)

Lemma percorre_categorias_decompoe (tabela : list (str * list str)) (descricao c : str) :
  percorre_categorias tabela (lower descricao) = Some c ->
  exists antes ps depois,
    tabela = antes ++ (c, ps) :: depois /\ tem_palavra ps descricao.
Proof.
  induction tabela as [|[c' ps] tabela IH]; simpl; [discriminate|].
  destruct (percorre_palavras ps (lower descricao)) eqn:E.
  - intros [= ->]. exists [], ps, tabela. split; [reflexivity|].
    now apply CategorizadorTheory.percorre_palavras_tem.
  - intros H. destruct (IH H) as (antes & ps' & depois & -> & Ht).
    now exists ((c', ps) :: antes), ps', depois.
Qed.

(** The lower-cased form of a text is, inside a longer text, what it
    is alone, but for the small sigmas, which depend on what surrounds
    them. *)
Lemma lower_desde_app (antes0 antes1 d b : str) :
  exists x,
    lower_desde antes1 (d ++ b) = x ++ lower_desde (rev d ++ antes1) b
    /\ Forall2 (fun y z => y = z \/ (In y [962; 963]%N /\ In z [962; 963]%N))
         (lower_desde antes0 d) x.
Proof.
  revert antes0 antes1. induction d as [|c d IH]; intros antes0 antes1.
  - exists []. split; [reflexivity|constructor].
  - destruct (IH (c :: antes0) (c :: antes1)) as (x & Hx & F).
    cbn [app lower_desde]. rewrite Hx.
    exists ((if (c =? 931)%N
             then [if ucd_final_sigma antes1 (d ++ b) then 962%N else 963%N]
             else lower_char c) ++ x).
    split.
    + cbn [rev]. now rewrite <- !app_assoc.
    + apply Forall2_app; [|exact F].
      destruct (c =? 931)%N.
      * constructor; [|constructor]. right.
        destruct (ucd_final_sigma antes0 d), (ucd_final_sigma antes1 (d ++ b));
          simpl; auto.
      * clear. induction (lower_char c); constructor; auto.
Qed.

Lemma ocorre_em_sigma (k l1 l2 : str) :
  Forall2 (fun y z => y = z \/ (In y [962; 963]%N /\ In z [962; 963]%N)) l1 l2 ->
  (forall y, In y k -> (y <= 255)%N) ->
  ocorre_em k l1 -> ocorre_em k l2.
Proof.
  intros F Hk (a & b & ->).
  apply Forall2_app_inv_l in F. destruct F as (a' & r & _ & F & ->).
  apply Forall2_app_inv_l in F. destruct F as (k' & b' & Fk & _ & ->).
  exists a', b'. f_equal. f_equal.
  clear -Fk Hk. induction Fk as [|y z k k' [E|[Hy _]] Fk IH].
  - reflexivity.
  - subst z. f_equal. apply IH. intros w Hw. apply Hk. now right.
  - exfalso. specialize (Hk y (or_introl eq_refl)).
    destruct Hy as [<-|[<-|[]]]; lia.
Qed.

(** The keywords of the table are written in Latin-1. *)
Lemma palavras_latin1 (c : str) (ps : list str) (k : str) (y : char) :
  In (c, ps) categorias -> In k ps -> In y k -> (y <= 255)%N.
Proof.
  assert (H : forallb (fun e => forallb (forallb (fun y => (y <=? 255)%N)) (snd e))
                categorias = true) by (vm_compute; reflexivity).
  rewrite forallb_forall in H. intros Hin Hk Hy.
  specialize (H _ Hin). simpl in H. rewrite forallb_forall in H.
  specialize (H _ Hk). rewrite forallb_forall in H.
  apply N.leb_le. now apply H.
Qed.

Lemma tem_palavra_mais (ps : list str) (d d' : str) :
  (forall k y, In k ps -> In y k -> (y <= 255)%N) ->
  ocorre_em d d' -> tem_palavra ps d -> tem_palavra ps d'.
Proof.
  intros Hps (a & b & ->) (k & Hk & Ho). exists k. split; [exact Hk|].
  unfold lower in *.
  destruct (lower_desde_app [] [] a (d ++ b)) as (xa & -> & _).
  destruct (lower_desde_app [] (rev a ++ []) d b) as (xd & -> & F).
  pose proof (ocorre_em_sigma k _ _ F (fun y => Hps k y Hk) Ho) as (a' & b' & ->).
  exists (xa ++ a'), (b' ++ lower_desde (rev d ++ rev a ++ []) b).
  now rewrite <- !app_assoc.
Qed.

(** X13. Adding text around a description can only move its category
    towards the head of the table: when [d] occurs in [d'] and [d] has
    a category other than "Outros", the category of [d'] is that
    category or one declared before it, and is not "Outros". *)
Theorem categorizar_por_cnae_monotona (d d' : str) :
  ocorre_em d d' ->
  categorizar_por_cnae d <> u "Outros" ->
  (exists antes ps depois,
      categorias = antes ++ (categorizar_por_cnae d, ps) :: depois
      /\ In (categorizar_por_cnae d') (map fst antes ++ [categorizar_por_cnae d]))
  /\ categorizar_por_cnae d' <> u "Outros".
Proof.
  intros Hoc Hno.
  assert (Hd : d <> []) by (intros ->; now apply Hno).
  assert (Hd' : d' <> []).
  { destruct Hoc as (a & b & ->). destruct d; [congruence|]. now destruct a. }
  rewrite (CategorizadorTheory.categorizar_por_cnae_percorre d Hd) in *.
  rewrite (CategorizadorTheory.categorizar_por_cnae_percorre d' Hd').
  destruct (percorre_categorias categorias (lower d)) as [c|] eqn:E; [|congruence].
  destruct (percorre_categorias_decompoe _ _ _ E) as (antes & ps & depois & Htab & Htem).
  assert (Hps : forall k y, In k ps -> In y k -> (y <= 255)%N).
  { intros k y. apply (palavras_latin1 c ps). rewrite Htab. apply in_or_app.
    right. now left. }
  pose proof (tem_palavra_mais ps d d' Hps Hoc Htem) as Htem'.
  destruct (CategorizadorTheory.percorre_categorias_ate antes depois c ps d' Htem')
    as (c' & Hc' & Hin).
  rewrite <- Htab in Hc'. rewrite Hc'.
  assert (Hin' : In c' (map fst antes ++ [c])).
  { rewrite map_app in Hin. exact Hin. }
  split.
  - exists antes, ps, depois. split; [exact Htab|exact Hin'].
  - intros ->.
    assert (Hall : In (u "Outros") (map fst categorias)).
    { rewrite Htab, map_app. apply in_app_or in Hin'. apply in_or_app.
      destruct Hin' as [H|[<-|[]]]; [now left|right; now left]. }
    vm_compute in Hall. repeat (destruct Hall as [Hall|Hall]; [discriminate|]).
    exact Hall.
Qed.

End Geral.

Lemma categorizar_por_cnae_monotona_witness :
  categorizar_por_cnae (u "Hotel com restaurante") <> u "Outros".
Proof.
  apply (categorizar_por_cnae_monotona (u "Hotel") (u "Hotel com restaurante")).
  - exists [], (u " com restaurante"). reflexivity.
  - vm_compute. discriminate.
Defined.

Section Geral.
Context {U : Unicode}.

(** *** The registry *)

(** X14. [processar_cnpj_e_categorizar] on a non-empty CNPJ is
    [consultar_cnpj] followed by [categorizar_por_cnae]: it raises what
    the lookup raises, gives "Outros" when the lookup finds nothing, and
    otherwise the name, the activity and the category that the batch
    loop of [main.py] computes from the same lookup. *)
Theorem processar_cnpj_e_categorizar_consulta
    (requests_get : str -> result response) (c : char) (cs : str) :
  processar_cnpj_e_categorizar requests_get (Some (c :: cs))
  = (info <- consultar_cnpj requests_get (c :: cs) ;;
     ret match info with
         | Some i =>
             (categorizar_por_cnae (atividade_principal i), nome i, atividade_principal i)
         | None => (u "Outros", u "Empresa não encontrada", u "CNAE não disponível")
         end).
Proof.
  unfold processar_cnpj_e_categorizar, consultar_cnpj.
  destruct (consultar_cnpj_brasilapi requests_get (c :: cs)) as [e|[[|campo campos]|]];
    reflexivity.
Qed.

(** X15. The lookup never raises a [RequestException]: an exception
    leaves [consultar_cnpj_brasilapi] only when [requests.get] raises
    something else, or when the status is 200 and [response.json()]
    raises something else; [consultar_cnpj] raises exactly what it
    raises. *)
Theorem consultar_cnpj_brasilapi_excecoes
    (requests_get : str -> result response) (cnpj : str) (e : exn) :
  let url := u "https://brasilapi.com.br/api/cnpj/v1/" ++ cnpj in
  (consultar_cnpj_brasilapi requests_get cnpj = inl e ->
     is_RequestException e = false
     /\ (requests_get url = inl e
         \/ exists r, requests_get url = inr r /\ status_code r = 200%Z /\ json r = inl e))
  /\ (consultar_cnpj requests_get cnpj = inl e <->
      consultar_cnpj_brasilapi requests_get cnpj = inl e).
Proof.
  intros url. split.
  - unfold consultar_cnpj_brasilapi, try_except. fold url.
    destruct (requests_get url) as [e'|r]; simpl.
    + destruct (is_RequestException e') eqn:E; [discriminate|].
      intros [= <-]. auto.
    + destruct (Z.eqb_spec (status_code r) 200) as [Hs|Hs]; [|discriminate].
      destruct (json r) as [e'|d] eqn:J; simpl; [|discriminate].
      destruct (is_RequestException e') eqn:E; [discriminate|].
      intros [= <-]. split; [exact E|]. right. now exists r.
  - unfold consultar_cnpj.
    destruct (consultar_cnpj_brasilapi requests_get cnpj) as [e'|[[|campo campos]|]];
      simpl; split; intros H; try discriminate; injection H as ->; reflexivity.
Qed.

End Geral.

Lemma consultar_cnpj_brasilapi_excecoes_witness :
  is_RequestException (OtherException (u "corpo invalido")) = false.
Proof.
  apply (proj1 (consultar_cnpj_brasilapi_excecoes exemplo_requests (u "11222333000181")
                  (OtherException (u "corpo invalido")))).
  vm_compute. reflexivity.
Defined.

End CategorizadorExtra.

(* ================================================================== *)
(** ** Further properties of the reports *)

Module RelatorioExtra.
Import Py Exc Main Categorizador Spec.
Local Open Scope exc_scope.

Section Geral.
Context {U : Unicode} {Fl : Float}.

(** *** The sort of the categories *)

Lemma inserir_perm (x : str * Q) (l : list (str * Q)) :
  Permutation (inserir x l) (x :: l).
Proof.
  induction l as [|y l IH]; simpl; [reflexivity|].
  destruct (Qgt_bool (snd y) (snd x)); [|reflexivity].
  rewrite IH. apply perm_swap.
Qed.

Lemma ordenar_perm (l : list (str * Q)) : Permutation (ordenar l) l.
Proof.
  induction l as [|x l IH]; simpl; [reflexivity|].
  rewrite inserir_perm. now constructor.
Qed.

Lemma inserir_ordenado (x : str * Q) (l : list (str * Q)) :
  StronglySorted (fun a b => (snd b <= snd a)%Q) l ->
  StronglySorted (fun a b => (snd b <= snd a)%Q) (inserir x l).
Proof.
  induction 1 as [|y l S IH F]; simpl.
  - repeat constructor.
  - destruct (Qgt_bool (snd y) (snd x)) eqn:E.
    + constructor; [exact IH|]. apply Forall_forall. intros z Hz.
      apply RelatorioTheory.inserir_categoria_In in Hz. destruct Hz as [->|Hz].
      * apply Qlt_le_weak. now apply RelatorioTheory.Qgt_bool_true.
      * rewrite Forall_forall in F. now apply F.
    + apply RelatorioTheory.Qgt_bool_false in E.
      constructor; [now constructor|]. constructor; [exact E|].
      apply Forall_forall. intros z Hz. rewrite Forall_forall in F.
      apply Qle_trans with (snd y); [now apply F|exact E].
Qed.

Lemma ordenar_ordenado (l : list (str * Q)) :
  StronglySorted (fun a b => (snd b <= snd a)%Q) (ordenar l).
Proof.
  induction l as [|x l IH]; simpl; [constructor|]. now apply inserir_ordenado.
Qed.

Lemma inserir_estavel (v : Q) (x : str * Q) (l : list (str * Q)) :
  filter (fun it => Qeq_bool (snd it) v) (inserir x l)
  = filter (fun it => Qeq_bool (snd it) v) (x :: l).
Proof.
  induction l as [|y l IH]; [reflexivity|].
  cbn [inserir]. destruct (Qgt_bool (snd y) (snd x)) eqn:E; [|reflexivity].
  cbn [filter] in *. rewrite IH.
  destruct (Qeq_bool (snd x) v) eqn:Ex; [|reflexivity].
  destruct (Qeq_bool (snd y) v) eqn:Ey; [|reflexivity].
  exfalso. apply RelatorioTheory.Qgt_bool_true in E.
  apply Qeq_bool_iff in Ex. apply Qeq_bool_iff in Ey.
  rewrite Ex, Ey in E. exact (Qlt_irrefl _ E).
Qed.

Lemma ordenar_estavel (v : Q) (l : list (str * Q)) :
  filter (fun it => Qeq_bool (snd it) v) (ordenar l)
  = filter (fun it => Qeq_bool (snd it) v) l.
Proof.
  induction l as [|x l IH]; [reflexivity|].
  cbn [ordenar fold_right]. fold (ordenar l). rewrite inserir_estavel.
  cbn [filter]. now rewrite IH.
Qed.

Lemma linhas_itens (t m : Q) (l : list (str * Q)) :
  map item_de
    (map (fun it => {| categoria := fst it; valor := snd it;
                       percentual := fmul (fdiv (snd it) t) 100;
                       barra := barra_proporcional (snd it) m |}) l) = l.
Proof.
  rewrite map_map. unfold item_de. simpl.
  rewrite <- (map_id l) at 2. apply map_ext. now intros [c v].
Qed.

(** X16. When the categories report is produced, it has exactly one
    line for every entry of the dictionary, by decreasing total, and
    entries with the same total keep the order they have in the
    dictionary. *)
Theorem relatorio_categorias_ordenado (gastos : list (str * Q)) (t : Q) (ls : list linha) :
  gerar_relatorio_categorias gastos = inr (Relatorio t ls) ->
  Permutation (map item_de ls) gastos
  /\ StronglySorted (fun a b => (snd b <= snd a)%Q) (map item_de ls)
  /\ (forall v, filter (fun it => Qeq_bool (snd it) v) (map item_de ls)
                = filter (fun it => Qeq_bool (snd it) v) gastos).
Proof.
  intros H.
  destruct (RelatorioTheory.gerar_relatorio_categorias_linhas gastos t ls H)
    as (m & _ & _ & _ & ->).
  rewrite linhas_itens. split; [apply ordenar_perm|]. split.
  - apply ordenar_ordenado.
  - intros v. apply ordenar_estavel.
Qed.

End Geral.

Lemma relatorio_categorias_ordenado_witness :
  exists ls,
    gerar_relatorio_categorias [(u "A", 5%Q); (u "B", 10%Q); (u "C", 5%Q)]
    = inr (Relatorio 20%Q ls)
    /\ map item_de ls = [(u "B", 10%Q); (u "A", 5%Q); (u "C", 5%Q)]
    /\ Permutation (map item_de ls) [(u "A", 5%Q); (u "B", 10%Q); (u "C", 5%Q)].
Proof.
  eexists. split; [vm_compute; reflexivity|]. split; [reflexivity|].
  refine (proj1 (relatorio_categorias_ordenado _ 20%Q _ _)).
  vm_compute. reflexivity.
Defined.

Section Geral.
Context {U : Unicode} {Fl : Float}.

(** *** Division by zero *)

Lemma linhas_categorias_inl (t m : Q) (itens : list (str * Q)) (e : exn) :
  linhas_categorias t m itens = inl e ->
  e = ZeroDivisionError /\ (Qeq_bool t 0 = true \/ Qeq_bool m 0 = true).
Proof.
  induction itens as [|[c v] itens IH]; simpl; [discriminate|].
  unfold dividir. destruct (Qeq_bool t 0); [intros [= <-]; auto|]. simpl.
  destruct (Qeq_bool m 0); [intros [= <-]; auto|]. simpl.
  destruct (linhas_categorias t m itens) as [e'|ls]; simpl; [|discriminate].
  intros [= <-]. now apply IH.
Qed.

Lemma linhas_categorias_zero (t m : Q) (itens : list (str * Q)) :
  itens <> [] -> Qeq_bool t 0 = true \/ Qeq_bool m 0 = true ->
  linhas_categorias t m itens = inl ZeroDivisionError.
Proof.
  destruct itens as [|[c v] itens]; [congruence|]. intros _ H. simpl. unfold dividir.
  destruct (Qeq_bool t 0); [reflexivity|]. simpl.
  destruct H as [H|H]; [discriminate|]. now rewrite H.
Qed.

Lemma ordenar_nao_vazio (l : list (str * Q)) : l <> [] -> ordenar l <> [].
Proof.
  intros Hne E. pose proof (Permutation_length (ordenar_perm l)) as HL.
  rewrite E in HL. destruct l; [congruence|discriminate].
Qed.

(** X17. For a dictionary whose totals are not negative,
    [gerar_relatorio_categorias] raises [ZeroDivisionError], and
    nothing else, exactly when the dictionary is not empty and the
    [sum] of its totals is zero or its largest total is zero (as for
    the totals of receipts from which no amount was read); otherwise it
    returns the message for the empty dictionary or a report with as
    many lines as the dictionary has entries. *)
Theorem gerar_relatorio_categorias_divisao_por_zero (gastos : list (str * Q)) :
  Forall (fun v => (0 <= v)%Q) (map snd gastos) ->
  (forall e, gerar_relatorio_categorias gastos = inl e <->
     e = ZeroDivisionError /\ gastos <> []
     /\ ((fsum (map snd gastos) == 0)%Q
         \/ exists m, In m (map snd gastos)
                      /\ (forall v, In v (map snd gastos) -> (v <= m)%Q)
                      /\ (m == 0)%Q))
  /\ (gerar_relatorio_categorias gastos = inr Sem_gastos <-> gastos = [])
  /\ (forall t ls, gerar_relatorio_categorias gastos = inr (Relatorio t ls) ->
        List.length ls = List.length gastos).
Proof.
  intros _. unfold gerar_relatorio_categorias.
  destruct gastos as [|[c v] g].
  - simpl. split; [|split].
    + intros e. split; [discriminate|]. intros (_ & H & _). congruence.
    + tauto.
    + discriminate.
  - cbn [map snd]. set (gastos := (c, v) :: g).
    set (t := soma (v :: map snd g)). set (m := maximo v (map snd g)).
    destruct (RelatorioTheory.maximo_spec (map snd g) v) as [Hin Hmax]. fold m in Hin, Hmax.
    assert (Hne : ordenar gastos <> []) by (apply ordenar_nao_vazio; discriminate).
    split; [|split].
    + intros e. split.
      * destruct (linhas_categorias t m (ordenar gastos)) as [e'|ls] eqn:L;
          simpl; [|discriminate].
        intros [= <-]. destruct (linhas_categorias_inl _ _ _ _ L) as [-> H].
        split; [reflexivity|]. split; [discriminate|].
        destruct H as [H|H]; apply Qeq_bool_iff in H; [now left|right].
        exists m. auto.
      * intros (-> & _ & H).
        rewrite linhas_categorias_zero; [reflexivity|exact Hne|].
        destruct H as [H|(m' & Hin' & Hmax' & Hz)].
        -- left. now apply Qeq_bool_iff.
        -- right. apply Qeq_bool_iff.
           apply Qle_antisym.
           ++ rewrite <- Hz. now apply Hmax'.
           ++ rewrite <- Hz. now apply Hmax.
    + split; [|discriminate].
      destruct (linhas_categorias t m (ordenar gastos)); simpl; discriminate.
    + intros t' ls.
      destruct (linhas_categorias t m (ordenar gastos)) as [e'|ls'] eqn:L;
        simpl; [discriminate|].
      intros [= <- <-]. rewrite (RelatorioTheory.linhas_categorias_inr _ _ _ _ L).
      rewrite length_map. exact (Permutation_length (ordenar_perm gastos)).
Qed.

End Geral.

(** No amount was read from any receipt: the only total is 0.0. *)
Lemma gerar_relatorio_categorias_divisao_por_zero_witness :
  gerar_relatorio_categorias [(u "Outros", 0%Q)] = inl ZeroDivisionError.
Proof.
  apply (proj1 (gerar_relatorio_categorias_divisao_por_zero [(u "Outros", 0%Q)]
                  ltac:(repeat constructor; discriminate))).
  split; [reflexivity|]. split; [discriminate|]. left. reflexivity.
Defined.

Section Geral.
Context {U : Unicode} {Fl : Float}.

(** *** The totals by category *)

Lemma str_eqb_eq (a b : str) : str_eqb a b = true <-> a = b.
Proof.
  revert b. induction a as [|x a IH]; intros [|y b]; simpl; try (split; [discriminate|congruence]).
  - tauto.
  - rewrite andb_true_iff, N.eqb_eq, IH. split; [intros [-> ->]; reflexivity|].
    intros [= -> ->]. auto.
Qed.

Lemma str_eqb_neq (a b : str) : str_eqb a b = false <-> a <> b.
Proof.
  rewrite <- str_eqb_eq. destruct (str_eqb a b); split; congruence.
Qed.

Lemma agrupar_snoc (rs : list resultado) (r : resultado) :
  agrupar (rs ++ [r])
  = (acumular (fst (agrupar rs)) (Main.categoria r) (valor_float r),
     fadd (snd (agrupar rs)) (valor_float r)).
Proof.
  unfold agrupar. rewrite fold_left_app. simpl.
  now destruct (fold_left _ rs ([], 0%Q)).
Qed.

Lemma soma_snoc (l : list Q) (x : Q) :
  soma_corrente (l ++ [x]) = fadd (soma_corrente l) x.
Proof. unfold soma_corrente. now rewrite fold_left_app. Qed.

(** The grand total of the console report is the running sum of the amounts. *)
Lemma agrupar_soma (rs : list resultado) :
  snd (agrupar rs) = soma_corrente (map valor_float rs).
Proof.
  induction rs as [|r rs IH] using rev_ind; [reflexivity|].
  rewrite agrupar_snoc, map_app. cbn [map snd]. rewrite soma_snoc. now rewrite IH.
Qed.

Lemma resumir_agrupar (rs : list resultado) : resumir rs = fst (agrupar rs).
Proof.
  induction rs as [|r rs IH] using rev_ind; [reflexivity|].
  rewrite agrupar_snoc. unfold resumir in *. rewrite fold_left_app. simpl. now rewrite IH.
Qed.

Lemma acumular_chaves (g : list (str * Q)) (c : str) (v : Q) :
  map fst (acumular g c v)
  = if existsb (fun k => str_eqb k c) (map fst g) then map fst g else map fst g ++ [c].
Proof.
  induction g as [|[k x] g IH]; simpl; [reflexivity|].
  destruct (str_eqb k c); simpl; [reflexivity|].
  rewrite IH. now destruct (existsb (fun k0 => str_eqb k0 c) (map fst g)).
Qed.

Lemma existsb_chave (c : str) (ks : list str) :
  existsb (fun k => str_eqb k c) ks = true <-> In c ks.
Proof.
  rewrite existsb_exists. split.
  - intros (k & Hk & E). apply str_eqb_eq in E. now subst.
  - intros H. exists c. split; [exact H|now apply str_eqb_eq].
Qed.

(** What an entry of the dictionary is after an update. *)
Lemma acumular_In (g : list (str * Q)) (c : str) (v : Q) (c' : str) (v' : Q) :
  NoDup (map fst g) ->
  In (c', v') (acumular g c v) ->
  (c' <> c /\ In (c', v') g)
  \/ (c' = c /\ ((exists v0, In (c, v0) g /\ v' = fadd v0 v)
                \/ (~ In c (map fst g) /\ v' = fadd 0 v))).
Proof.
  induction g as [|[k x] g IH]; simpl; intros ND.
  - intros [[= <- <-]|[]]. right. split; [reflexivity|]. right. auto.
  - apply NoDup_cons_iff in ND. destruct ND as [Hk ND].
    destruct (str_eqb k c) eqn:E.
    + apply str_eqb_eq in E. subst k. intros [[= <- <-]|H].
      * right. split; [reflexivity|]. left. exists x. auto.
      * left. split; [|now right]. intros ->. apply Hk.
        apply in_map_iff. now exists (c, v').
    + apply str_eqb_neq in E. intros [[= <- <-]|H].
      * left. split; [exact E|now left].
      * destruct (IH ND H) as [[H1 H2]|[-> [(v0 & H1 & H2)|[H1 H2]]]].
        -- left. auto.
        -- right. split; [reflexivity|]. left. exists v0. auto.
        -- right. split; [reflexivity|]. right. split; [|exact H2].
           intros [H3|H3]; [congruence|contradiction].
Qed.

Lemma filtro_snoc (c : str) (rs : list resultado) (r : resultado) :
  soma_corrente
    (map valor_float (filter (fun x => str_eqb (Main.categoria x) c) (rs ++ [r])))
  = if str_eqb (Main.categoria r) c
    then fadd (soma_corrente
                 (map valor_float (filter (fun x => str_eqb (Main.categoria x) c) rs)))
              (valor_float r)
    else soma_corrente
           (map valor_float (filter (fun x => str_eqb (Main.categoria x) c) rs)).
Proof.
  rewrite filter_app. cbn [filter]. destruct (str_eqb (Main.categoria r) c).
  - rewrite map_app. cbn [map]. now rewrite soma_snoc.
  - now rewrite app_nil_r.
Qed.

Lemma filtro_vazio (A : Type) (p : A -> bool) (l : list A) :
  (forall x, In x l -> p x = false) -> filter p l = [].
Proof.
  induction l as [|x l IH]; intros H; [reflexivity|]. simpl.
  rewrite (H x) by now left. apply IH. intros y Hy. apply H. now right.
Qed.

Lemma agrupar_invariante (rs : list resultado) :
  NoDup (map fst (fst (agrupar rs)))
  /\ (forall c, In c (map fst (fst (agrupar rs))) <-> In c (map Main.categoria rs))
  /\ (forall c v, In (c, v) (fst (agrupar rs)) ->
        v = soma_corrente
              (map valor_float (filter (fun r => str_eqb (Main.categoria r) c) rs))).
Proof.
  induction rs as [|r rs (ND & Hk & Hv)] using rev_ind.
  - simpl. split; [constructor|]. split; [tauto|]. intros c v [].
  - rewrite agrupar_snoc. cbn [fst].
    set (g := fst (agrupar rs)) in *. set (c0 := Main.categoria r).
    set (v0 := valor_float r).
    assert (Hkeys : forall c, In c (map fst (acumular g c0 v0)) <-> In c (map fst g) \/ c = c0).
    { intros c. rewrite acumular_chaves.
      destruct (existsb (fun k => str_eqb k c0) (map fst g)) eqn:E.
      - apply existsb_chave in E. split; [auto|]. intros [H| ->]; assumption.
      - rewrite in_app_iff. simpl. intuition. }
    split; [|split].
    + rewrite acumular_chaves.
      destruct (existsb (fun k => str_eqb k c0) (map fst g)) eqn:E; [exact ND|].
      apply NoDup_app; [exact ND|repeat constructor; intros []|].
      intros c Hc [Ec|[]]. rewrite <- Ec in Hc.
      assert (existsb (fun k => str_eqb k c0) (map fst g) = true)
        by (now apply existsb_chave). congruence.
    + intros c. rewrite Hkeys, Hk, map_app, in_app_iff. simpl. intuition.
    + intros c v Hin. rewrite filtro_snoc. fold c0 v0.
      destruct (acumular_In g c0 v0 c v ND Hin) as [[Hne H]|[-> [(x & H & ->)|[Hno ->]]]].
      * replace (str_eqb c0 c) with false; [now apply Hv|].
        symmetry. apply str_eqb_neq. congruence.
      * replace (str_eqb c0 c0) with true by (symmetry; now apply str_eqb_eq).
        now rewrite (Hv _ _ H).
      * replace (str_eqb c0 c0) with true by (symmetry; now apply str_eqb_eq).
        replace (filter (fun x => str_eqb (Main.categoria x) c0) rs) with (@nil resultado);
          [reflexivity|].
        symmetry. apply filtro_vazio.
        intros x Hx. apply str_eqb_neq. intros E. apply Hno, Hk.
        apply in_map_iff. now exists x.
Qed.

(** X18. The dictionary built by [gerar_relatorio] has one entry for
    each category met in the results and no other; the total of a
    category is what adding the amounts of its receipts one after the
    other gives, in the order of the results, and the grand total is
    what adding all the amounts one after the other gives. *)
Theorem agrupar_por_categoria (resultados : list resultado) :
  let gastos := fst (agrupar resultados) in
  NoDup (map fst gastos)
  /\ (forall c, In c (map fst gastos) <-> In c (map Main.categoria resultados))
  /\ (forall c v, In (c, v) gastos ->
        v = soma_corrente
              (map valor_float
                 (filter (fun r => str_eqb (Main.categoria r) c) resultados)))
  /\ snd (agrupar resultados) = soma_corrente (map valor_float resultados).
Proof.
  intros gastos. destruct (agrupar_invariante resultados) as (ND & Hk & Hv).
  repeat split; auto; try apply Hk.
  apply agrupar_soma.
Qed.

End Geral.

Lemma agrupar_por_categoria_witness :
  (10 : Q)
  = soma_corrente
      (map valor_float
         (filter (fun r => str_eqb (Main.categoria r) (u "Transporte")) dois_gastos)).
Proof.
  apply (proj1 (proj2 (proj2 (agrupar_por_categoria dois_gastos)))).
  vm_compute. tauto.
Defined.

Section Geral.
Context {U : Unicode} {Fl : Float}.

(** *** The summary of the detailed report *)

Lemma resumo_itens (t : Q) (l : list (str * Q)) :
  map fst (flat_map (linha_resumo t) l) = filter (fun it => Qgt_bool (snd it) 0) l.
Proof.
  induction l as [|[c v] l IH]; [reflexivity|].
  cbn [flat_map filter snd]. rewrite map_app, IH. unfold linha_resumo.
  now destruct (Qgt_bool v 0).
Qed.

Lemma resumo_percentual (t : Q) (l : list (str * Q)) (c : str) (v p : Q) :
  In (c, v, p) (flat_map (linha_resumo t) l) ->
  p = if Qgt_bool t 0 then fmul (fdiv v t) 100 else 0%Q.
Proof.
  intros H. apply in_flat_map in H. destruct H as ([c' v'] & _ & H).
  unfold linha_resumo in H. destruct (Qgt_bool v' 0); [|destruct H].
  destruct H as [[= <- <- <-]|[]]. reflexivity.
Qed.

Lemma combine_snd (A B : Type) (rs : list B) (l : list A) :
  List.length l = List.length rs -> map snd (combine l rs) = rs.
Proof.
  revert l. induction rs as [|r rs IH]; intros [|x l]; simpl; try reflexivity; try discriminate.
  intros [= H]. now rewrite IH.
Qed.

Lemma combine_fst (A B : Type) (rs : list B) (l : list A) :
  List.length l = List.length rs -> map fst (combine l rs) = l.
Proof.
  revert l. induction rs as [|r rs IH]; intros [|x l]; simpl; try reflexivity; try discriminate.
  intros [= H]. now rewrite IH.
Qed.

(** X19. The detailed report counts every result and writes the
    results in their order, numbered from 1.  Its summary by category
    is made from the dictionary that [gerar_relatorio] builds: the
    entries with a positive total, by decreasing total, each with its
    percentage of the grand total that [sum] gives.  The console report
    prints the same categories with the same totals in the same order
    when its own grand total is positive, and no category otherwise. *)
Theorem relatorio_detalhado_confere (resultados : list resultado) :
  let relatorio := salvar_relatorio_detalhado resultados in
  let gastos := fst (agrupar resultados) in
  total_de_canhotos relatorio = List.length resultados
  /\ map fst (detalhes relatorio) = seq 1 (List.length resultados)
  /\ map snd (detalhes relatorio) = resultados
  /\ total_do_relatorio relatorio = fsum (map valor_float resultados)
  /\ map fst (resumo relatorio)
     = filter (fun it => Qgt_bool (snd it) 0) (Categorizador.ordenar gastos)
  /\ (forall c v p, In (c, v, p) (resumo relatorio) ->
        p = if Qgt_bool (total_do_relatorio relatorio) 0
            then fmul (fdiv v (total_do_relatorio relatorio)) 100 else 0%Q)
  /\ map item_de (linhas_de (gerar_relatorio resultados))
     = if Qgt_bool (snd (agrupar resultados)) 0 then map fst (resumo relatorio) else [].
Proof.
  intros relatorio gastos. unfold relatorio, salvar_relatorio_detalhado.
  cbn [total_do_relatorio total_de_canhotos detalhes resumo].
  rewrite resumir_agrupar. fold gastos.
  split; [reflexivity|].
  split; [apply combine_fst, length_seq|]. split; [apply combine_snd, length_seq|].
  split; [reflexivity|]. split; [apply resumo_itens|]. split.
  - intros c v p. apply resumo_percentual.
  - rewrite resumo_itens. apply RelatorioTheory.gerar_relatorio_itens.
Qed.

End Geral.

Lemma relatorio_detalhado_confere_witness :
  map item_de (linhas_de (gerar_relatorio dois_gastos))
  = [(u "Alimentação", 10%Q); (u "Transporte", 10%Q)]
  /\ resumo (salvar_relatorio_detalhado dois_gastos)
     = [(u "Alimentação", 10%Q, 50%Q); (u "Transporte", 10%Q, 50%Q)].
Proof.
  split; [|reflexivity].
  rewrite (proj2 (proj2 (proj2 (proj2 (proj2 (proj2
             (relatorio_detalhado_confere dois_gastos))))))).
  reflexivity.
Defined.

End RelatorioExtra.

(* ================================================================== *)
(** ** Further properties of the batch *)

Module LoteExtra.
Import Py Exc Spec Main.
Local Open Scope exc_scope.

Section Geral.
Context {U : Unicode}.

Lemma valor_na_faixa (texto : str) :
  OcrAws.extrair_valor_total texto = 0%Q
  \/ (1 # 100 <= OcrAws.extrair_valor_total texto
      /\ OcrAws.extrair_valor_total texto <= 99999999 # 100)%Q.
Proof.
  destruct (OcrAws.valores_encontrados texto) as [|x xs] eqn:E.
  - left. unfold OcrAws.extrair_valor_total. now rewrite E.
  - right. destruct (ValorTheory.extrair_valor_total_maximo texto) as (p & Hin & _);
      [congruence|].
    exact (ValorTheory.valores_encontrados_validos _ _ _ Hin).
Qed.

Lemma cnpj_extraido_valido (texto s : str) :
  OcrAws.extrair_cnpj texto = Some s ->
  List.length s = 14%nat
  /\ Forall (fun x => isdecimal x = true) s
  /\ OcrAws.validacao_basica s = true.
Proof.
  rewrite CnpjTheory.extrair_cnpj_find. intros H.
  apply find_some in H. destruct H as [Hin Hac].
  unfold aceito in Hac. apply andb_true_iff in Hac. destruct Hac as [Hl Hv].
  apply Nat.eqb_eq in Hl. repeat split; auto.
  unfold candidatos_cnpj in Hin. apply in_flat_map in Hin.
  destruct Hin as (p & _ & Hin). apply in_map_iff in Hin.
  destruct Hin as (m & <- & _). apply CnpjTheory.so_digitos_decimal.
Qed.

(** What a record of the batch must satisfy. *)
Lemma dados_validos (b : str -> result unit) (d : str -> result (list str))
    (caminho region : str) (dados : OcrAws.dados) :
  OcrAws.extrair_dados_canhoto_aws b d caminho region = inr dados ->
  (OcrAws.valor dados = 0%Q
   \/ (1 # 100 <= OcrAws.valor dados /\ OcrAws.valor dados <= 99999999 # 100)%Q)
  /\ (OcrAws.cnpj dados = None
      \/ exists s, OcrAws.cnpj dados = Some s
                   /\ List.length s = 14%nat
                   /\ Forall (fun x => isdecimal x = true) s
                   /\ OcrAws.validacao_basica s = true).
Proof.
  unfold OcrAws.extrair_dados_canhoto_aws. destruct (b region) as [e|[]]; [discriminate|].
  simpl. intros [= <-]. unfold OcrAws.extrair_dados_canhoto.
  destruct (OcrAws.extrair_texto_aws d caminho) as [|x t] eqn:E; simpl.
  - split; left; reflexivity.
  - split; [apply valor_na_faixa|].
    destruct (OcrAws.extrair_cnpj (x :: t)) as [s|] eqn:C; [right|now left].
    exists s. split; [reflexivity|]. exact (cnpj_extraido_valido _ _ C).
Qed.

Section Lote.

Variable boto3_client : str -> result unit.
Variable detect_document_text : str -> result (list str).
Variable requests_get : str -> result Categorizador.response.
Variable region_name : str.

Lemma processar_imagem_inr (c : Path) (r : resultado) :
  processar_imagem boto3_client detect_document_text requests_get region_name c = inr r ->
  exists dados,
    OcrAws.extrair_dados_canhoto_aws boto3_client detect_document_text
      (str_of_path c) region_name = inr dados
    /\ arquivo r = name c
    /\ cnpj r = OcrAws.cnpj dados
    /\ valor r = OcrAws.valor dados
    /\ texto_completo r = OcrAws.texto_completo dados
    /\ In (categoria r) (map fst Categorizador.categorias ++ [u "Outros"])
    /\ (OcrAws.cnpj dados = None -> categoria r = u "Outros").
Proof.
  unfold processar_imagem.
  destruct (OcrAws.extrair_dados_canhoto_aws boto3_client detect_document_text
              (str_of_path c) region_name) as [e|dados]; [discriminate|].
  cbn [bind]. intros H. exists dados. split; [reflexivity|].
  assert (HO : In (u "Outros") (map fst Categorizador.categorias ++ [u "Outros"]))
    by (apply in_or_app; right; now left).
  destruct (OcrAws.cnpj dados) as [[|x xs]|] eqn:C.
  - injection H as <-. simpl. rewrite C. repeat split; auto; try discriminate.
  - destruct (Categorizador.consultar_cnpj requests_get (x :: xs)) as [e|[i|]];
      [discriminate| |]; injection H as <-; simpl; rewrite C; repeat split; auto;
      try discriminate; try apply CategorizadorExtra.categoria_conhecida.
  - injection H as <-. simpl. rewrite C. repeat split; auto; try discriminate.
Qed.

Lemma registro_arquivo (c : Path) :
  arquivo (registro_de c
             (processar_imagem boto3_client detect_document_text requests_get
                region_name c)) = name c.
Proof.
  destruct (processar_imagem boto3_client detect_document_text requests_get
              region_name c) as [e|r] eqn:E; [reflexivity|].
  simpl. destruct (processar_imagem_inr c r E) as (dados & _ & H & _). exact H.
Qed.

End Lote.

(** X20. Whatever the services do, the batch returns exactly one record
    per image, and the records carry the file names of the images in
    the order of the images. *)
Theorem lote_um_registro_por_imagem
    (boto3_client : str -> result unit)
    (detect_document_text : str -> result (list str))
    (requests_get : str -> result Categorizador.response)
    (region_name : str) (imagens : list Path) :
  exists resultados,
    processar_canhotos boto3_client detect_document_text requests_get region_name imagens
    = inr resultados
    /\ List.length resultados = List.length imagens
    /\ map arquivo resultados = map name imagens.
Proof.
  eexists. split.
  - unfold processar_canhotos. rewrite LoteTheory.percorre_imagens_map. reflexivity.
  - cbn [app]. split; [apply length_map|].
    rewrite map_map. apply map_ext. intros c. apply registro_arquivo.
Qed.

(** X21. Whatever the services do, every record of the batch has an
    amount that is 0 or lies between 0.01 and 999999.99, a CNPJ that is
    absent or has 14 decimal digits and passes the validation, and a
    category that is one of the ten of the table or "Outros"; a record
    without CNPJ is in "Outros". *)
Theorem lote_registros_validos
    (boto3_client : str -> result unit)
    (detect_document_text : str -> result (list str))
    (requests_get : str -> result Categorizador.response)
    (region_name : str) (imagens : list Path) :
  exists resultados,
    processar_canhotos boto3_client detect_document_text requests_get region_name imagens
    = inr resultados
    /\ Forall
         (fun r =>
            (valor r = 0%Q \/ (1 # 100 <= valor r /\ valor r <= 99999999 # 100)%Q)
            /\ (cnpj r = None
                \/ exists s, cnpj r = Some s
                             /\ List.length s = 14%nat
                             /\ Forall (fun x => isdecimal x = true) s
                             /\ OcrAws.validacao_basica s = true)
            /\ In (categoria r) (map fst Categorizador.categorias ++ [u "Outros"])
            /\ (cnpj r = None -> categoria r = u "Outros"))
         resultados.
Proof.
  eexists. split.
  - unfold processar_canhotos. rewrite LoteTheory.percorre_imagens_map. reflexivity.
  - cbn [app]. apply Forall_forall. intros r Hr. apply in_map_iff in Hr.
    destruct Hr as (c & <- & _).
    destruct (processar_imagem boto3_client detect_document_text requests_get
                region_name c) as [e|r] eqn:E; cbn [registro_de].
    + split; [now left|]. split; [now left|]. split; [|reflexivity].
      apply in_or_app. right. now left.
    + destruct (processar_imagem_inr _ _ _ _ c r E)
        as (dados & Hd & _ & Hc & Hv & _ & Hcat & Hout).
      destruct (dados_validos _ _ _ _ _ Hd) as [Hvalor Hcnpj].
      rewrite Hc, Hv. split; [exact Hvalor|]. split; [exact Hcnpj|].
      split; [exact Hcat|exact Hout].
Qed.

(** X22. An image whose text cannot be read (the service raises, or
    gives no text) ends, once the client is created, in the record with
    no CNPJ, amount 0, "CNPJ não encontrado" and category "Outros",
    without any exception and whatever the registry would answer. *)
Theorem imagem_sem_texto
    (boto3_client : str -> result unit)
    (detect_document_text : str -> result (list str))
    (requests_get : str -> result Categorizador.response)
    (region_name : str) (c : Path) :
  boto3_client region_name = inr tt ->
  ((exists e, detect_document_text (str_of_path c) = inl e)
   \/ (exists linhas, detect_document_text (str_of_path c) = inr linhas
                      /\ join [10%N] linhas = [])) ->
  processar_imagem boto3_client detect_document_text requests_get region_name c
  = inr {| arquivo := name c; cnpj := None; valor := 0%Q;
           empresa := u "CNPJ não encontrado"; atividade := u "Não identificada";
           categoria := u "Outros"; texto_completo := [] |}.
Proof.
  intros Hb Hd. unfold processar_imagem, OcrAws.extrair_dados_canhoto_aws.
  rewrite Hb. cbn [bind]. unfold OcrAws.extrair_dados_canhoto.
  assert (E : OcrAws.extrair_texto_aws detect_document_text (str_of_path c) = []).
  { unfold OcrAws.extrair_texto_aws.
    destruct Hd as [(e & ->)|(linhas & -> & H)]; simpl; [reflexivity|exact H]. }
  rewrite E. reflexivity.
Qed.

End Geral.

Lemma imagem_sem_texto_witness :
  processar_imagem exemplo_boto3 exemplo_textract exemplo_requests (u "us-east-1")
    {| parent := u "canhotos"; name := u "c.png" |}
  = inr {| arquivo := u "c.png"; cnpj := None; valor := 0%Q;
           empresa := u "CNPJ não encontrado"; atividade := u "Não identificada";
           categoria := u "Outros"; texto_completo := [] |}.
Proof.
  apply (imagem_sem_texto exemplo_boto3 exemplo_textract exemplo_requests (u "us-east-1")
           {| parent := u "canhotos"; name := u "c.png" |}).
  - reflexivity.
  - left. eexists. vm_compute. reflexivity.
Defined.

Section Geral.
Context {U : Unicode}.

(** X23. When the service gives the LINE blocks of an image, none of
    them holding a newline, the text kept is the blocks joined by
    newlines and the amount kept is 0 or a candidate found in one of
    the blocks: nothing is read across two blocks. *)
Theorem valor_vem_de_um_bloco
    (boto3_client : str -> result unit)
    (detect_document_text : str -> result (list str))
    (caminho region_name : str) (linhas : list str) (dados : OcrAws.dados) :
  detect_document_text caminho = inr linhas ->
  Forall (fun l => ~ In 10%N l) linhas ->
  OcrAws.extrair_dados_canhoto_aws boto3_client detect_document_text caminho region_name
  = inr dados ->
  OcrAws.texto_completo dados = join [10%N] linhas
  /\ (OcrAws.valor dados = 0%Q
      \/ exists linha peso,
           In linha linhas
           /\ In (OcrAws.valor dados, peso) (candidatos_linha (strip linha))).
Proof.
  intros Hd F. unfold OcrAws.extrair_dados_canhoto_aws.
  destruct (boto3_client region_name) as [e|[]]; [discriminate|]. cbn [bind].
  intros [= <-]. unfold OcrAws.extrair_dados_canhoto.
  assert (E : OcrAws.extrair_texto_aws detect_document_text caminho = join [10%N] linhas).
  { unfold OcrAws.extrair_texto_aws. now rewrite Hd. }
  rewrite E. destruct (join [10%N] linhas) as [|x t] eqn:J; simpl.
  - split; [reflexivity|now left].
  - split; [reflexivity|]. rewrite <- J.
    destruct (OcrAws.valores_encontrados (join [10%N] linhas)) as [|y ys] eqn:V.
    + left. unfold OcrAws.extrair_valor_total. now rewrite V.
    + right.
      destruct (ValorTheory.extrair_valor_total_maximo (join [10%N] linhas))
        as (peso & Hin & _); [congruence|].
      rewrite (ValorExtra.candidatos_de_linhas linhas F) in Hin.
      apply in_flat_map in Hin. destruct Hin as (linha & Hl & Hin).
      exists linha, peso. split; [exact Hl|].
      destruct (strip linha); [destruct Hin|exact Hin].
Qed.

End Geral.

Lemma valor_vem_de_um_bloco_witness :
  exists linha peso,
    In linha [u "PADARIA X"; u "CNPJ: 11.222.333/0001-81"; u "TOTAL R$ 45,90"]
    /\ In ((4590 # 100)%Q, peso) (candidatos_linha (strip linha)).
Proof.
  destruct (valor_vem_de_um_bloco exemplo_boto3 exemplo_textract
              (u "canhotos/a.jpg") (u "us-east-1")
              [u "PADARIA X"; u "CNPJ: 11.222.333/0001-81"; u "TOTAL R$ 45,90"]
              {| OcrAws.cnpj := Some (u "11222333000181");
                 OcrAws.valor := (4590 # 100)%Q;
                 OcrAws.texto_completo :=
                   join [10%N]
                     [u "PADARIA X"; u "CNPJ: 11.222.333/0001-81"; u "TOTAL R$ 45,90"] |})
    as [_ [H|H]].
  - vm_compute. reflexivity.
  - repeat constructor; vm_compute; intuition discriminate.
  - vm_compute. reflexivity.
  - discriminate.
  - exact H.
Defined.

End LoteExtra.

(* ================================================================== *)
(** ** The identifier extractor finds a labelled CNPJ *)

Module CnpjRotulado.
Import Py Re OcrAws Spec.

Section Geral.
Context {U : Unicode}.

(** *** A labelled CNPJ is read back *)

Lemma digito_fatos (c : char) :
  isdecimal c = true -> mantido c = true /\ isspace c = false.
Proof.
  unfold isdecimal. destruct (N.leb_spec c 255) as [L|L].
  - unfold isdecimal_latin1, between. intros H. apply andb_true_iff in H.
    destruct H as [H1 H2]. apply N.leb_le in H1. apply N.leb_le in H2.
    assert (E : (c = 48 \/ c = 49 \/ c = 50 \/ c = 51 \/ c = 52 \/ c = 53 \/ c = 54
                 \/ c = 55 \/ c = 56 \/ c = 57)%N) by lia.
    repeat destruct E as [E|E]; subst c; split; reflexivity.
  - intros H. apply N.leb_gt in L. split.
    + unfold mantido. cbn [cls_match existsb]. unfold isalnum. rewrite L.
      now rewrite (ucd_decimal_alnum c H).
    + unfold isspace. rewrite L. now apply ucd_decimal_not_space.
Qed.

Lemma digito_nao_pontuacao (f : flags) (a x : char) :
  (a < 65)%N -> isdecimal a = false -> isdecimal x = true -> cls_match f (Lit a) x = false.
Proof.
  intros Ha Hd Hx. destruct (cls_match f (Lit a) x) eqn:E; [|reflexivity].
  apply CnpjExtra.lit_pontuacao in E; [|exact Ha]. congruence.
Qed.

Lemma digito_nao_separador (x : char) :
  isdecimal x = true -> cls_match flags_cnpj (Any_of [Ch ":"; Space]) x = false.
Proof.
  intros Hx. cbn [cls_match existsb].
  change (cls_match flags_cnpj (Ch ":") x) with (cls_match flags_cnpj (Lit 58%N) x).
  rewrite (digito_nao_pontuacao _ 58%N x); [|reflexivity|reflexivity|exact Hx].
  now rewrite (proj2 (digito_fatos x Hx)).
Qed.

(** Steps of the matcher along a successful path. *)
Lemma passo_Rep (f : flags) (ds : str) (r2 : regex) (sn tl : str) (cp : option str)
    (k : cursor -> option cursor) (res : option cursor) :
  forallb isdecimal ds = true ->
  rmatch f r2 {| seen := rev ds ++ sn; rest := tl; cap := cp |} k = res ->
  rmatch f (Seq (Rep (List.length ds) D) r2) {| seen := sn; rest := ds ++ tl; cap := cp |} k
  = res.
Proof.
  revert sn. induction ds as [|x ds IH]; intros sn F H.
  - exact H.
  - cbn [forallb] in F. apply andb_true_iff in F. destruct F as [Hx F].
    cbn [List.length Rep app]. cbn [rmatch rest seen cap cls_match D]. rewrite Hx.
    apply (IH (x :: sn) F). cbn [rev] in H. rewrite <- app_assoc in H. exact H.
Qed.

Lemma passo_Opt_sim (f : flags) (c : cls) (r2 : regex) (x : char) (sn tl : str)
    (cp : option str) (k : cursor -> option cursor) (cu : cursor) :
  cls_match f c x = true ->
  rmatch f r2 {| seen := x :: sn; rest := tl; cap := cp |} k = Some cu ->
  rmatch f (Seq (Opt (One c)) r2) {| seen := sn; rest := x :: tl; cap := cp |} k = Some cu.
Proof.
  intros Hx H. cbn [rmatch Opt rest seen cap]. rewrite Hx, H. reflexivity.
Qed.

Lemma passo_Opt_nao (f : flags) (c : cls) (r2 : regex) (x : char) (sn tl : str)
    (cp : option str) (k : cursor -> option cursor) (res : option cursor) :
  cls_match f c x = false ->
  rmatch f r2 {| seen := sn; rest := x :: tl; cap := cp |} k = res ->
  rmatch f (Seq (Opt (One c)) r2) {| seen := sn; rest := x :: tl; cap := cp |} k = res.
Proof.
  intros Hx H. cbn [rmatch Opt rest seen cap]. rewrite Hx. exact H.
Qed.

Lemma passo_Str (f : flags) (w : str) (r2 : regex) (sn tl : str) (cp : option str)
    (k : cursor -> option cursor) (res : option cursor) :
  rmatch f r2 {| seen := rev w ++ sn; rest := tl; cap := cp |} k = res ->
  rmatch f (Seq (Cat (map (fun c => One (Lit c)) w)) r2)
    {| seen := sn; rest := w ++ tl; cap := cp |} k = res.
Proof.
  revert sn. induction w as [|x w IH]; intros sn H.
  - exact H.
  - cbn [map Cat fold_right app]. cbn [rmatch rest seen cap cls_match].
    rewrite N.eqb_refl. cbn [orb].
    apply (IH (x :: sn)). cbn [rev] in H. rewrite <- app_assoc in H. exact H.
Qed.

Lemma passo_Star (f : flags) (c : cls) (r2 : regex) (x y : char) (sn tl : str)
    (cp : option str) (k : cursor -> option cursor) (cu : cursor) :
  cls_match f c x = true -> cls_match f c y = false ->
  rmatch f r2 {| seen := x :: sn; rest := y :: tl; cap := cp |} k = Some cu ->
  rmatch f (Seq (Star c) r2) {| seen := sn; rest := x :: y :: tl; cap := cp |} k = Some cu.
Proof.
  intros Hx Hy H. cbn [rmatch rest seen cap star_cls]. rewrite Hx, Hy, H. reflexivity.
Qed.

Lemma firstn_prefixo (p s : str) :
  firstn (List.length (p ++ s) - List.length s) (p ++ s) = p.
Proof.
  rewrite length_app, Nat.add_sub, firstn_app, Nat.sub_diag, firstn_all, firstn_O.
  apply app_nil_r.
Qed.

Lemma passo_Group (f : flags) (r1 r2 : regex) (cu : cursor)
    (k : cursor -> option cursor) (res : option cursor) :
  rmatch f r1 cu (fun cu1 =>
    rmatch f r2
      {| seen := seen cu1; rest := rest cu1;
         cap := Some (rev (firstn (List.length (seen cu1) - List.length (seen cu))
                             (seen cu1))) |} k) = res ->
  rmatch f (Seq (Group r1) r2) cu k = res.
Proof. intros H. exact H. Qed.

Lemma firstn_dif (p s s1 : str) :
  s1 = p ++ s -> firstn (List.length s1 - List.length s) s1 = p.
Proof. intros ->. apply firstn_prefixo. Qed.

Ltac digitos_de d L F :=
  do 14 (destruct d as [|? d]; [discriminate L|]);
  destruct d; [|discriminate L]; clear L;
  cbn [forallb] in F;
  repeat (let H := fresh "Hd" in apply andb_true_iff in F; destruct F as [H F]);
  clear F.

Ltac filtra :=
  rewrite CnpjTheory.so_digitos_filter; cbn [rev app filter];
  repeat match goal with
         | H : isdecimal ?c = true |- context [isdecimal ?c] => rewrite H
         end.

Lemma casa_rotulo (d tok sn resto : str) :
  List.length d = 14%nat -> forallb isdecimal d = true ->
  tok = formatar_cnpj d \/ tok = d ->
  exists cu,
    match_here flags_cnpj padrao_cnpj_formatado sn (u "CNPJ " ++ tok ++ resto) = Some cu
    /\ so_digitos (group1 cu) = d.
Proof.
  intros L F T. digitos_de d L F.
  unfold match_here, padrao_cnpj_formatado. cbn [Cat fold_right]. unfold Str.
  destruct T as [-> | ->].
  - cbn [formatar_cnpj].
    eexists. split.
    + match goal with
      | |- context [u "CNPJ " ++ ?X] => change (u "CNPJ " ++ X) with (u "CNPJ" ++ 32%N :: X)
      end.
      apply passo_Str.
      apply passo_Star; [reflexivity|now apply digito_nao_separador|].
      apply passo_Group. cbn [Cat fold_right seen app].
      apply (passo_Rep _ [c; c0]); [cbn [forallb]; now rewrite Hd, Hd0|].
      apply passo_Opt_sim; [reflexivity|].
      apply (passo_Rep _ [c1; c2; c3]); [cbn [forallb]; now rewrite Hd1, Hd2, Hd3|].
      apply passo_Opt_sim; [reflexivity|].
      apply (passo_Rep _ [c4; c5; c6]); [cbn [forallb]; now rewrite Hd4, Hd5, Hd6|].
      apply passo_Opt_sim; [reflexivity|].
      apply (passo_Rep _ [c7; c8; c9; c10]);
        [cbn [forallb]; now rewrite Hd7, Hd8, Hd9, Hd10|].
      apply passo_Opt_sim; [reflexivity|].
      apply (passo_Rep _ [c11; c12]); [cbn [forallb]; now rewrite Hd11, Hd12|].
      reflexivity.
    + cbn [group1 cap seen rest rev app].
      match goal with
      | |- context [firstn (List.length ?s1 - List.length ?s) ?s1] =>
          rewrite (firstn_dif [c12; c11; 45; c10; c9; c8; c7; 47; c6; c5; c4; 46; c3; c2;
                               c1; 46; c0; c]%N s s1 eq_refl)
      end.
      filtra. reflexivity.
  - eexists. split.
    + match goal with
      | |- context [u "CNPJ " ++ ?X] => change (u "CNPJ " ++ X) with (u "CNPJ" ++ 32%N :: X)
      end.
      apply passo_Str.
      apply passo_Star; [reflexivity|now apply digito_nao_separador|].
      apply passo_Group. cbn [Cat fold_right seen app].
      apply (passo_Rep _ [c; c0]); [cbn [forallb]; now rewrite Hd, Hd0|].
      apply passo_Opt_nao; [now apply (digito_nao_pontuacao _ 46%N)|].
      apply (passo_Rep _ [c1; c2; c3]); [cbn [forallb]; now rewrite Hd1, Hd2, Hd3|].
      apply passo_Opt_nao; [now apply (digito_nao_pontuacao _ 46%N)|].
      apply (passo_Rep _ [c4; c5; c6]); [cbn [forallb]; now rewrite Hd4, Hd5, Hd6|].
      apply passo_Opt_nao; [now apply (digito_nao_pontuacao _ 47%N)|].
      apply (passo_Rep _ [c7; c8; c9; c10]);
        [cbn [forallb]; now rewrite Hd7, Hd8, Hd9, Hd10|].
      apply passo_Opt_nao; [now apply (digito_nao_pontuacao _ 45%N)|].
      apply (passo_Rep _ [c11; c12]); [cbn [forallb]; now rewrite Hd11, Hd12|].
      reflexivity.
    + cbn [group1 cap seen rest rev app].
      match goal with
      | |- context [firstn (List.length ?s1 - List.length ?s) ?s1] =>
          rewrite (firstn_dif [c12; c11; c10; c9; c8; c7; c6; c5; c4; c3; c2; c1; c0; c]
                     s s1 eq_refl)
      end.
      filtra. reflexivity.
Qed.

Lemma rotulo_firme (d tok : str) :
  List.length d = 14%nat -> forallb isdecimal d = true ->
  tok = formatar_cnpj d \/ tok = d ->
  Forall (fun x => mantido x = true /\ isspace x = false) tok /\ tok <> [].
Proof.
  intros L F T. digitos_de d L F.
  destruct T as [-> | ->]; cbn [formatar_cnpj]; (split; [|discriminate]);
    repeat constructor; now apply digito_fatos.
Qed.

(** The cleaning of the text around the label. *)
Lemma nao_casa_C (x : char) :
  x <> 67%N -> x <> 99%N -> cls_match flags_cnpj (Lit 67%N) x = false.
Proof.
  intros H1 H2. cbn [cls_match flags_cnpj ignorecase andb].
  apply orb_false_iff. split; [now apply N.eqb_neq|].
  unfold ignorecase_eq. cbn [andb N.leb]. change (67 <=? 255)%N with true. cbn [andb].
  destruct (N.leb_spec x 255) as [L|L].
  - apply N.eqb_neq. change (lower_latin1 67%N) with 99%N.
    destruct (Aux.lower_latin1_casos x) as [(E & _)|(E & Hc)]; rewrite E; lia.
  - destruct (ucd_ignorecase 67%N x) eqn:E; [|reflexivity]. exfalso.
    pose proof (ucd_ignorecase_latin1 67%N x ltac:(lia) L E) as Hin.
    vm_compute in Hin. repeat (destruct Hin as [Hin|Hin]; [discriminate Hin|]).
    exact Hin.
Qed.

Lemma sub_plus_antes (a k : str) (i : bool) :
  (forall j, sub_plus no_flags Space (u " ") k j = sub_plus no_flags Space (u " ") k false) ->
  exists a',
    sub_plus no_flags Space (u " ") (a ++ k) i = a' ++ sub_plus no_flags Space (u " ") k false
    /\ forall x, In x a' -> x = 32%N \/ In x a.
Proof.
  intros Hk. revert i. induction a as [|y a IH]; intros i.
  - exists []. split; [apply Hk|intros x []].
  - cbn [app sub_plus]. destruct (cls_match no_flags Space y).
    + destruct (IH true) as (a' & -> & Ha).
      exists ((if i then [] else u " ") ++ a'). split; [now rewrite app_assoc|].
      intros x Hx. apply in_app_or in Hx. destruct Hx as [Hx|Hx].
      * destruct i; [destruct Hx|]. destruct Hx as [<-|[]]. now left.
      * destruct (Ha x Hx) as [E|E]; [now left|right; now right].
    + destruct (IH false) as (a' & -> & Ha).
      exists (y :: a'). split; [reflexivity|].
      intros x [<-|Hx]; [right; now left|].
      destruct (Ha x Hx) as [E|E]; [now left|right; now right].
Qed.

Lemma sub_plus_firme (w s : str) (i : bool) :
  Forall (fun x => mantido x = true /\ isspace x = false) w -> w <> [] ->
  sub_plus no_flags Space (u " ") (w ++ s) i = w ++ sub_plus no_flags Space (u " ") s false.
Proof.
  intros F. revert i. induction F as [|x w [_ Hx] F IH]; intros i N; [now elim N|].
  cbn [app sub_plus cls_match]. rewrite Hx. f_equal.
  destruct w as [|y w]; [reflexivity|]. apply IH. discriminate.
Qed.

Lemma primeira_limpeza_In (s : str) (x : char) :
  In x (sub_cls no_flags (None_of [Word; Space; Ch "."; Ch "-"; Ch "/"]) (u " ") s) ->
  x = 32%N \/ In x s.
Proof.
  unfold sub_cls. intros H. apply in_flat_map in H. destruct H as (y & Hy & H).
  destruct (cls_match _ _ y).
  - destruct H as [<-|[]]. now left.
  - destruct H as [<-|[]]. now right.
Qed.

Lemma limpar_rotulo (antes d tok resto : str) :
  List.length d = 14%nat -> forallb isdecimal d = true ->
  tok = formatar_cnpj d \/ tok = d ->
  exists a' r',
    limpar_texto (antes ++ u "CNPJ: " ++ tok ++ resto) = a' ++ u "CNPJ " ++ tok ++ r'
    /\ forall x, In x a' -> x = 32%N \/ In x antes.
Proof.
  intros L F T. destruct (rotulo_firme d tok L F T) as [Ft Nt].
  unfold limpar_texto, sub_cls. rewrite !flat_map_app.
  fold (sub_cls no_flags (None_of [Word; Space; Ch "."; Ch "-"; Ch "/"]) (u " ") antes).
  fold (sub_cls no_flags (None_of [Word; Space; Ch "."; Ch "-"; Ch "/"]) (u " ") tok).
  fold (sub_cls no_flags (None_of [Word; Space; Ch "."; Ch "-"; Ch "/"]) (u " ") resto).
  rewrite (CnpjExtra.primeira_limpeza_id tok);
    [|revert Ft; apply Forall_impl; now intros x [H _]].
  set (a1 := sub_cls _ _ _ antes). set (r1 := sub_cls _ _ _ resto).
  destruct (sub_plus_antes a1
              (flat_map (fun x => if cls_match no_flags
                                       (None_of [Word; Space; Ch "."; Ch "-"; Ch "/"]) x
                                  then u " " else [x]) (u "CNPJ: ") ++ tok ++ r1) false)
    as (a' & -> & Ha); [intros j; reflexivity|].
  exists a', (sub_plus no_flags Space (u " ") r1 false). split.
  - f_equal.
    change (sub_plus no_flags Space (u " ")
              (flat_map (fun x => if cls_match no_flags
                                       (None_of [Word; Space; Ch "."; Ch "-"; Ch "/"]) x
                                  then u " " else [x]) (u "CNPJ: ") ++ tok ++ r1) false)
      with (u "CNPJ " ++ sub_plus no_flags Space (u " ") (tok ++ r1) true).
    now rewrite (sub_plus_firme tok r1 true Ft Nt).
  - intros x Hx. destruct (Ha x Hx) as [E|E]; [now left|].
    now apply primeira_limpeza_In.
Qed.

(** The scan for the labelled pattern. *)
Lemma rotulo_nao_casa (x : char) (sn tl : str) :
  cls_match flags_cnpj (Lit 67%N) x = false ->
  match_here flags_cnpj padrao_cnpj_formatado sn (x :: tl) = None.
Proof.
  intros H. unfold match_here, padrao_cnpj_formatado. cbn [Cat fold_right]. unfold Str.
  change (u "CNPJ") with (@cons char 67%N (u "NPJ")).
  cbn [map Cat fold_right rmatch rest]. rewrite H. reflexivity.
Qed.

Lemma scan_pula (a k sn : str) :
  (forall x, In x a -> x <> 67%N /\ x <> 99%N) ->
  scan flags_cnpj padrao_cnpj_formatado sn (a ++ k) 0
  = scan flags_cnpj padrao_cnpj_formatado (rev a ++ sn) k 0.
Proof.
  revert sn. induction a as [|x a IH]; intros sn Ha; [reflexivity|].
  cbn [app scan]. rewrite rotulo_nao_casa; [|apply nao_casa_C; apply Ha; now left].
  rewrite IH; [|intros y Hy; apply Ha; now right].
  cbn [rev]. now rewrite <- app_assoc.
Qed.

Lemma scan_primeiro (f : flags) (r : regex) (sn rs : str) (cu : cursor) :
  match_here f r sn rs = Some cu -> exists tl, scan f r sn rs 0 = group1 cu :: tl.
Proof. intros H. destruct rs; cbn [scan]; rewrite H; eauto. Qed.

(** X24. A CNPJ of 14 digits that passes the validation, written after
    the label "CNPJ: " with or without its punctuation, is read back
    whatever follows it, as long as no letter C stands before the label. *)
Theorem cnpj_rotulado_extraido (antes d tok resto : str) :
  ~ In 67%N antes -> ~ In 99%N antes ->
  List.length d = 14%nat -> forallb isdecimal d = true -> validacao_basica d = true ->
  tok = formatar_cnpj d \/ tok = d ->
  extrair_cnpj (antes ++ u "CNPJ: " ++ tok ++ resto) = Some d.
Proof.
  intros N1 N2 L F V T. unfold extrair_cnpj.
  destruct (limpar_rotulo antes d tok resto L F T) as (a' & r' & -> & Ha).
  cbn [padroes_cnpj percorre_padroes]. unfold findall.
  rewrite scan_pula.
  - destruct (casa_rotulo d tok (rev a' ++ []) r' L F T) as (cu & Hm & Hg).
    destruct (scan_primeiro _ _ _ _ _ Hm) as (tl & ->).
    cbn [percorre_matches]. rewrite Hg, L, V. reflexivity.
  - intros x Hx. destruct (Ha x Hx) as [-> |Hi]; [split; discriminate|].
    split; intros ->; auto.
Qed.

End Geral.

Lemma cnpj_rotulado_extraido_witness :
  extrair_cnpj (u "PADARIA X " ++ u "CNPJ: " ++ u "11.222.333/0001-81" ++ u " TOTAL R$ 45,90")
  = Some (u "11222333000181").
Proof.
  apply (cnpj_rotulado_extraido _ (u "11222333000181")).
  - vm_compute. intuition discriminate.
  - vm_compute. intuition discriminate.
  - reflexivity.
  - reflexivity.
  - reflexivity.
  - left. reflexivity.
Defined.

End CnpjRotulado.
